(** * LooterShooter: dungeon generator and game-mechanics simulator

    A shallow embedding of the Python sources
    - [looter_shooter_game.py]        (CombatSystem, LootSystem, EnemyFactory, GameSimulator)
    - [looter_shooter_integration.py] (generate_loot_json, simulate_combat_json)
    - [looter_shooter_dungeon.py]     (DungeonEngine)
    - [dungeon_integration.py]        (validate_dungeon)
    followed by the properties proved about them.

    Conventions of the embedding.
    - Python [int] is [Z]; Python [float] is IEEE-754 binary64, taken from the
      Standard Library's executable specification [SpecFloat] ([prec = 53],
      [emax = 1024]), so that [int(45 * 0.7)] is [31] here as it is in Python.
    - A Python exception is a value of [exn]; code that may raise lives in the
      monad [M S A := S -> result A * S], in which the state survives a raise.
    - The process-wide [random] module is a tape of raw draws that every call
      consumes from the front, in the order in which the source calls it.
    - Dictionaries are [gmap]s, lists are [list]s, dataclasses are records
      (one module per class, so that fields keep their Python names). *)

From Stdlib Require Import ZArith Floats.SpecFloat.
From stdpp Require Import base option list gmap strings pretty.

Local Open Scope Z_scope.

(** ** Exceptions and the state-and-exception monad *)

Inductive exn :=
  | OverflowError (msg : string)
  | ValueError (msg : string)
  | KeyError (key : string)
  | TypeError (msg : string)
  | IndexError (msg : string)
  | ZeroDivisionError (msg : string).

Inductive result (A : Type) :=
  | Ok (a : A)
  | Raise (e : exn).
Arguments Ok {A} a.
Arguments Raise {A} e.

Definition M (S A : Type) : Type := S → result A * S.

Global Instance M_ret {S} : MRet (M S) := λ A a s, (Ok a, s).
Global Instance M_bind {S} : MBind (M S) := λ A B f m s,
  match m s with
  | (Ok a, s') => f a s'
  | (Raise e, s') => (Raise e, s')
  end.

Definition raise {S A} (e : exn) : M S A := λ s, (Raise e, s).
Definition gets {S A} (f : S → A) : M S A := λ s, (Ok (f s), s).
Definition modify {S} (f : S → S) : M S () := λ s, (Ok (), f s).

(** A computation that raises nothing and touches no state. *)
Definition lift_result {S A} (r : result A) : M S A := λ s, (r, s).

(** Run a computation on a component [T] of the state [S]. *)
Definition zoom {S T A} (get : S → T) (set : T → S → S) (m : M T A) : M S A :=
  λ s, let '(r, t) := m (get s) in (r, set t s).

(** ** Python numbers *)

Definition float : Type := spec_float.

Definition fadd : float → float → float := SFadd 53 1024.
Definition fsub : float → float → float := SFsub 53 1024.
Definition fmul : float → float → float := SFmul 53 1024.
Definition fdiv : float → float → float := SFdiv 53 1024.
Definition flt : float → float → bool := SFltb.

(** The binary64 number nearest to the integer [z] (ties to even); it is
    [S754_infinity] when [z] is out of range. *)
Definition Z2F (z : Z) : float := binary_normalize 53 1024 z 0 false.

(** A decimal literal [n/d] of the source, such as [0.7 = lit 7 10]: the
    binary64 number nearest to the rational [n/d]. *)
Definition lit (n d : Z) : float := fdiv (Z2F n) (Z2F d).

Definition is_finite (x : float) : bool :=
  match x with
  | S754_zero _ | S754_finite _ _ _ => true
  | _ => false
  end.

(** [float(z)], and the conversion of the [int] operand of a mixed
    [int]-[float] operation. *)
Definition float_of_int (z : Z) : result float :=
  if is_finite (Z2F z) then Ok (Z2F z)
  else Raise (OverflowError "int too large to convert to float").

(** [int(x)] for a float [x]: truncation towards zero. *)
Definition int_of_float (x : float) : result Z :=
  match x with
  | S754_zero _ => Ok 0
  | S754_finite s m e => Ok (cond_Zopp s (Z.shiftl (Z.pos m) e))
  | S754_infinity _ => Raise (OverflowError "cannot convert float infinity to integer")
  | S754_nan => Raise (ValueError "cannot convert float NaN to integer")
  end.

(** [x > n] for a float [x] and an int [n]; Python compares the two exactly. *)
Definition float_gt_int (x : float) (n : Z) : bool :=
  match x with
  | S754_zero _ => bool_decide (n < 0)
  | S754_finite s m e =>
      if decide (0 ≤ e) then bool_decide (n < cond_Zopp s (Z.pos m * 2 ^ e))
      else bool_decide (n * 2 ^ (- e) < cond_Zopp s (Z.pos m))
  | S754_infinity s => negb s
  | S754_nan => false
  end.

(** [z * x] and [z + x] for an int [z] and a float [x]. *)
Definition int_mul_float (z : Z) (x : float) : result float :=
  match float_of_int z with
  | Ok f => Ok (fmul f x)
  | Raise e => Raise e
  end.

Definition int_add_float (z : Z) (x : float) : result float :=
  match float_of_int z with
  | Ok f => Ok (fadd f x)
  | Raise e => Raise e
  end.

(** A variable that holds an [int] on one path and a [float] on another. *)
Inductive number :=
  | Int (z : Z)
  | Float (x : float).

(** [max(1, x)] for a float [x]: the builtin returns its first argument
    unless a later one is strictly greater. *)
Definition max_1 (x : float) : number :=
  if float_gt_int x 1 then Float x else Int 1.

(** [v * 2] *)
Definition number_double (v : number) : number :=
  match v with
  | Int z => Int (z * 2)
  | Float x => Float (fmul x (Z2F 2))
  end.

(** [int(v)] *)
Definition int_of_number (v : number) : result Z :=
  match v with
  | Int z => Ok z
  | Float x => int_of_float x
  end.

(** [v * x] for a float [x] *)
Definition number_mul_float (v : number) (x : float) : result float :=
  match v with
  | Int z => int_mul_float z x
  | Float y => Ok (fmul y x)
  end.

(** ** The [random] module *)

(** The generator's future output: draw [k] is [g k]. *)
Definition rng : Type := nat → Z.

Definition advance (g : rng) : rng := λ k, g (S k).

(** [random.random()]: a multiple of 2^-53 in the interval [0, 1). *)
Definition random_random : M rng float := λ g,
  (Ok (binary_normalize 53 1024 (g 0%nat `mod` 2 ^ 53) (-53) false), advance g).

(** [random.randint(a, b)] *)
Definition random_randint (a b : Z) : M rng Z := λ g,
  if decide (a ≤ b) then (Ok (a + g 0%nat `mod` (b - a + 1)), advance g)
  else (Raise (ValueError "empty range for randrange()"), g).

(** [random.choice(seq)] *)
Definition random_choice {A} (seq : list A) : M rng A := λ g,
  match seq !! Z.to_nat (g 0%nat `mod` Z.of_nat (length seq)) with
  | Some a => if decide (seq = []) then (Raise (IndexError "Cannot choose from an empty sequence"), g)
              else (Ok a, advance g)
  | None => (Raise (IndexError "Cannot choose from an empty sequence"), g)
  end.

(** [range(n)] and [range(a, b)] *)
Definition range (n : Z) : list Z := Z.of_nat <$> seq 0 (Z.to_nat n).
Definition range2 (a b : Z) : list Z := (λ k, a + Z.of_nat k) <$> seq 0 (Z.to_nat (b - a)).

(** ** looter_shooter_game.py: enumerations and dataclasses *)

Module DamageType.
Inductive t := PHYSICAL | FIRE | ICE | LIGHTNING | POISON | ARCANE.
Definition value (d : t) : string :=
  match d with
  | PHYSICAL => "physical" | FIRE => "fire" | ICE => "ice"
  | LIGHTNING => "lightning" | POISON => "poison" | ARCANE => "arcane"
  end.
End DamageType.

Module ItemRarity.
Inductive t := COMMON | UNCOMMON | RARE | EPIC | LEGENDARY.
Definition value (r : t) : string :=
  match r with
  | COMMON => "common" | UNCOMMON => "uncommon" | RARE => "rare"
  | EPIC => "epic" | LEGENDARY => "legendary"
  end.
(** [ItemRarity[name]]: lookup of a member by its name. *)
Definition by_name (name : string) : result t :=
  if decide (name = "COMMON") then Ok COMMON
  else if decide (name = "UNCOMMON") then Ok UNCOMMON
  else if decide (name = "RARE") then Ok RARE
  else if decide (name = "EPIC") then Ok EPIC
  else if decide (name = "LEGENDARY") then Ok LEGENDARY
  else Raise (KeyError name).
(** The declaration order of the members. *)
Definition rank (r : t) : nat :=
  match r with
  | COMMON => 0 | UNCOMMON => 1 | RARE => 2 | EPIC => 3 | LEGENDARY => 4
  end.
End ItemRarity.

Module ItemType.
Inductive t := WEAPON | ARMOR | POTION | SCROLL.
Definition value (i : t) : string :=
  match i with
  | WEAPON => "weapon" | ARMOR => "armor" | POTION => "potion" | SCROLL => "scroll"
  end.
(** [ItemType[name]] *)
Definition by_name (name : string) : result t :=
  if decide (name = "WEAPON") then Ok WEAPON
  else if decide (name = "ARMOR") then Ok ARMOR
  else if decide (name = "POTION") then Ok POTION
  else if decide (name = "SCROLL") then Ok SCROLL
  else Raise (KeyError name).
End ItemType.

Module StatusEffectType.
Inductive t := BURN | FREEZE | POISON | STUN | SLOW | HEAL | SHIELD.
End StatusEffectType.

Module Stats.
Record t := mk { strength : Z; dexterity : Z; intelligence : Z; vitality : Z }.
End Stats.

Module StatusEffect.
Record t := mk {
  id : string;
  type : StatusEffectType.t;
  duration : Z;
  value : number
}.
End StatusEffect.

Module LootItem.
Record t := mk {
  id : string;
  name : string;
  type : ItemType.t;
  rarity : ItemRarity.t;
  stats : gmap string Z;
  value : Z;
  effect : option string
}.
Definition with_effect (e : option string) (i : t) : t :=
  mk (id i) (name i) (type i) (rarity i) (stats i) (value i) e.
End LootItem.

Module DamageResult.
Record t := mk {
  damage : Z;
  damage_type : DamageType.t;
  is_critical : bool;
  status_effect : option StatusEffect.t
}.
Definition with_status_effect (s : option StatusEffect.t) (r : t) : t :=
  mk (damage r) (damage_type r) (is_critical r) s.
End DamageResult.

Module Player.
Record t := mk {
  id : string;
  name : string;
  level : Z;
  health : Z;
  max_health : Z;
  mana : Z;
  max_mana : Z;
  stats : Stats.t;
  gold : Z;
  experience : Z;
  status_effects : list StatusEffect.t;
  inventory : list LootItem.t
}.
(** Attribute assignments [player.health = v] and so on. *)
Definition set_health (v : Z) (p : t) : t :=
  mk (id p) (name p) (level p) v (max_health p) (mana p) (max_mana p)
     (stats p) (gold p) (experience p) (status_effects p) (inventory p).
Definition set_experience (v : Z) (p : t) : t :=
  mk (id p) (name p) (level p) (health p) (max_health p) (mana p) (max_mana p)
     (stats p) (gold p) v (status_effects p) (inventory p).
Definition set_gold (v : Z) (p : t) : t :=
  mk (id p) (name p) (level p) (health p) (max_health p) (mana p) (max_mana p)
     (stats p) v (experience p) (status_effects p) (inventory p).
Definition set_inventory (v : list LootItem.t) (p : t) : t :=
  mk (id p) (name p) (level p) (health p) (max_health p) (mana p) (max_mana p)
     (stats p) (gold p) (experience p) (status_effects p) v.
End Player.

Module Enemy.
Record t := mk {
  id : string;
  type : string;
  level : Z;
  health : Z;
  max_health : Z;
  damage : Z;
  stats : Stats.t;
  experience : Z;
  gold_reward : Z
}.
End Enemy.

(** ** CombatSystem *)

(** One entry of the combat log: the [round_info] dictionary. The two keys
    of the enemy's counter-attack are present only when it took place. *)
Module RoundInfo.
Record t := mk {
  round : Z;
  playerAttack : DamageResult.t;
  enemyHealth : Z;
  enemyAttack : option DamageResult.t;
  playerHealth : option Z
}.
End RoundInfo.

(** The dictionary returned by [simulate_combat]. *)
Module CombatResult.
Record t := mk {
  victory : bool;
  rounds : Z;
  finalPlayerHealth : Z;
  finalEnemyHealth : Z;
  combatLog : list RoundInfo.t
}.
End CombatResult.

Module CombatSystem.
Import DamageType.

(** The default of the parameter [crit_chance]. *)
Definition default_crit_chance : float := lit 1 10.

Definition calculate_damage (base_damage : Z) (damage_type : DamageType.t)
    (attacker_stats defender_stats : Stats.t) (crit_chance : float)
    : M rng DamageResult.t :=
  total_damage ← lift_result (float_of_int base_damage);
  (* Apply stat modifiers based on damage type *)
  total_damage ←
    match damage_type with
    | PHYSICAL =>
        bonus ← lift_result (int_mul_float (Stats.strength attacker_stats) (lit 5 10));
        mret (fadd total_damage bonus)
    | FIRE | ICE | LIGHTNING | ARCANE =>
        bonus ← lift_result (int_mul_float (Stats.intelligence attacker_stats) (lit 7 10));
        mret (fadd total_damage bonus)
    | POISON => mret total_damage
    end;
  (* Apply defender resistance *)
  resistance ← lift_result (int_mul_float (Stats.vitality defender_stats) (lit 3 10));
  let total_damage := max_1 (fsub total_damage resistance) in
  (* Critical hit check *)
  roll ← random_random;
  let is_critical := flt roll crit_chance in
  let total_damage := if is_critical then number_double total_damage else total_damage in
  damage ← lift_result (int_of_number total_damage);
  let result := DamageResult.mk damage damage_type is_critical None in
  (* Apply status effects based on damage type *)
  status_effect_id_counter ← random_randint 1000 9999;
  let status_id := "status_" +:+ pretty status_effect_id_counter in
  match damage_type with
  | FIRE =>
      roll ← random_random;
      if flt roll (lit 3 10) then
        value ← lift_result (number_mul_float total_damage (lit 1 10));
        mret (DamageResult.with_status_effect
                (Some (StatusEffect.mk status_id StatusEffectType.BURN 5000 (Float value))) result)
      else mret result
  | ICE =>
      roll ← random_random;
      if flt roll (lit 4 10) then
        mret (DamageResult.with_status_effect
                (Some (StatusEffect.mk status_id StatusEffectType.SLOW 4000 (Float (lit 5 10)))) result)
      else mret result
  | LIGHTNING =>
      roll ← random_random;
      if flt roll (lit 2 10) then
        mret (DamageResult.with_status_effect
                (Some (StatusEffect.mk status_id StatusEffectType.STUN 2000 (Int 0))) result)
      else mret result
  | POISON =>
      roll ← random_random;
      if flt roll (lit 5 10) then
        value ← lift_result (number_mul_float total_damage (lit 5 100));
        mret (DamageResult.with_status_effect
                (Some (StatusEffect.mk status_id StatusEffectType.POISON 10000 (Float value))) result)
      else mret result
  | PHYSICAL | ARCANE => mret result
  end.

(** What a call of [simulate_combat] can reach: its two arguments and the
    state of the [random] module. *)
Record world := World { player : Player.t; enemy : Enemy.t; random : rng }.

Definition with_random {A} (m : M rng A) : M world A :=
  zoom random (λ g w, World (player w) (enemy w) g) m.

(** The local variables of [simulate_combat]. *)
Record locals := Locals {
  rounds : list RoundInfo.t;
  player_health : Z;
  enemy_health : Z;
  round_num : Z
}.

(** The condition of the [while] loop. *)
Definition loop_condition (l : locals) : bool :=
  bool_decide (player_health l > 0) && bool_decide (enemy_health l > 0)
  && bool_decide (round_num l < 100).

(** The body of the [while] loop. *)
Definition loop_body (l : locals) : M world locals :=
  let round_num' := round_num l + 1 in
  (* Player attacks *)
  player_level ← gets (Player.level ∘ player);
  player_stats ← gets (Player.stats ∘ player);
  enemy_stats ← gets (Enemy.stats ∘ enemy);
  player_damage ← with_random
    (calculate_damage (20 + player_level * 5) PHYSICAL player_stats enemy_stats
       default_crit_chance);
  let enemy_health' := enemy_health l - DamageResult.damage player_damage in
  let round_info := RoundInfo.mk round_num' player_damage (0 `max` enemy_health') None None in
  (* Enemy attacks if still alive *)
  if bool_decide (enemy_health' > 0) then
    enemy_damage_base ← gets (Enemy.damage ∘ enemy);
    enemy_stats ← gets (Enemy.stats ∘ enemy);
    player_stats ← gets (Player.stats ∘ player);
    enemy_damage ← with_random
      (calculate_damage enemy_damage_base PHYSICAL enemy_stats player_stats
         default_crit_chance);
    let player_health' := player_health l - DamageResult.damage enemy_damage in
    let round_info :=
      RoundInfo.mk round_num' player_damage (0 `max` enemy_health')
        (Some enemy_damage) (Some (0 `max` player_health')) in
    mret (Locals (rounds l ++ [round_info]) player_health' enemy_health' round_num')
  else
    mret (Locals (rounds l ++ [round_info]) (player_health l) enemy_health' round_num').

(** The [while] loop, unrolled at most [fuel] times. *)
Fixpoint while_loop (fuel : nat) (l : locals) : M world locals :=
  match fuel with
  | O => mret l
  | S fuel =>
      if loop_condition l then l' ← loop_body l; while_loop fuel l'
      else mret l
  end.

(** [simulate_combat(player, enemy)]. The loop condition bounds the number
    of iterations by 100, which is the fuel given to [while_loop]
    (see [while_loop_exits] for the proof that the loop has finished). *)
Definition simulate_combat : M world CombatResult.t :=
  player_health0 ← gets (Player.health ∘ player);
  enemy_health0 ← gets (Enemy.health ∘ enemy);
  l ← while_loop 100 (Locals [] player_health0 enemy_health0 0);
  let victory := bool_decide (player_health l > 0) in
  mret (CombatResult.mk victory (round_num l) (0 `max` player_health l)
          (0 `max` enemy_health l) (rounds l)).

(** The call [CombatSystem.simulate_combat(player, enemy)] as its caller
    sees it: the result, and the two objects as the call left them. *)
Definition call_simulate_combat (player0 : Player.t) (enemy0 : Enemy.t)
    : M rng (CombatResult.t * Player.t * Enemy.t) := λ g,
  let '(r, w) := simulate_combat (World player0 enemy0 g) in
  (match r with
   | Ok combat_result => Ok (combat_result, player w, enemy w)
   | Raise e => Raise e
   end, random w).
End CombatSystem.

(** ** String helpers *)

(** [needle in hay] for two strings *)
Fixpoint contains (needle hay : string) : bool :=
  String.prefix needle hay ||
  match hay with
  | EmptyString => false
  | String _ hay' => contains needle hay'
  end.

(** [s.split()[-1]] *)
Definition last_word (s : string) : result string :=
  match last (String.words s) with
  | Some w => Ok w
  | None => Raise (IndexError "list index out of range")
  end.

(** ** LootSystem *)

Module RarityValues.
Record t := mk { multiplier : float; sell_value : Z }.
End RarityValues.

Module LootSystem.
Import ItemType ItemRarity.

Definition ITEM_PREFIXES (item_type : ItemType.t) : list string :=
  match item_type with
  | WEAPON => ["Sharp"; "Keen"; "Brutal"; "Swift"; "Deadly"; "Ancient"; "Cursed";
               "Blessed"; "Vengeful"; "Divine"]
  | ARMOR => ["Sturdy"; "Light"; "Heavy"; "Reinforced"; "Magical"; "Dragon"; "Shadow";
              "Holy"; "Ethereal"; "Titan"]
  | POTION => ["Minor"; "Lesser"; "Greater"; "Major"; "Superior"; "Divine"]
  | SCROLL => ["Scroll of"; "Tome of"; "Grimoire of"; "Codex of"]
  end.

Definition ITEM_TYPES_NAMES (item_type : ItemType.t) : list string :=
  match item_type with
  | WEAPON => ["Sword"; "Axe"; "Bow"; "Staff"; "Dagger"; "Mace"; "Spear"; "Hammer"; "Wand"]
  | ARMOR => ["Helmet"; "Chestplate"; "Boots"; "Gauntlets"; "Shield"; "Cloak"; "Belt"; "Ring"]
  | POTION => ["Health Potion"; "Mana Potion"; "Strength Elixir"; "Defense Tonic";
               "Speed Draught"]
  | SCROLL => ["Fireball"; "Lightning"; "Ice Storm"; "Healing"; "Teleportation"; "Summoning"]
  end.

Definition RARITY_VALUES (rarity : ItemRarity.t) : RarityValues.t :=
  match rarity with
  | COMMON => RarityValues.mk (Z2F 1) 10
  | UNCOMMON => RarityValues.mk (lit 15 10) 25
  | RARE => RarityValues.mk (Z2F 2) 50
  | EPIC => RarityValues.mk (Z2F 3) 100
  | LEGENDARY => RarityValues.mk (Z2F 5) 250
  end.

Definition _random_item_type : M rng ItemType.t :=
  r ← random_random;
  let roll := fmul r (Z2F 100) in
  if flt roll (Z2F 35) then mret WEAPON
  else if flt roll (Z2F 70) then mret ARMOR
  else if flt roll (Z2F 90) then mret POTION
  else mret SCROLL.

Definition _generate_item_name (item_type : ItemType.t) (rarity : ItemRarity.t)
    : M rng string :=
  prefix ← random_choice (ITEM_PREFIXES item_type);
  base_name ← random_choice (ITEM_TYPES_NAMES item_type);
  match item_type with
  | SCROLL => mret (prefix +:+ " " +:+ base_name)
  | POTION => mret (prefix +:+ " " +:+ base_name)
  | _ => mret (prefix +:+ " " +:+ base_name)
  end.

Definition _generate_stats (item_type : ItemType.t) (rarity : ItemRarity.t)
    (player_level : Z) : M rng (gmap string Z) :=
  let stats : gmap string Z := ∅ in
  let multiplier := RarityValues.multiplier (RARITY_VALUES rarity) in
  match item_type with
  | WEAPON =>
      scaled ← lift_result (int_mul_float (10 + player_level * 2) multiplier);
      damage ← lift_result (int_of_float scaled);
      let stats := <["damage" := damage]> stats in
      roll ← random_random;
      if flt roll (lit 5 10) then
        scaled ← lift_result (int_mul_float 5 multiplier);
        crit ← lift_result (int_of_float scaled);
        mret (<["critChance" := crit]> stats)
      else mret stats
  | ARMOR =>
      scaled ← lift_result (int_mul_float player_level (lit 15 10));
      base ← lift_result (int_add_float 8 scaled);
      defense ← lift_result (int_of_float (fmul base multiplier));
      let stats := <["defense" := defense]> stats in
      roll ← random_random;
      if flt roll (lit 5 10) then
        scaled ← lift_result (int_mul_float 20 multiplier);
        health ← lift_result (int_of_float scaled);
        mret (<["health" := health]> stats)
      else mret stats
  | POTION | SCROLL => mret stats
  end.

(** [sum(stats.values())] *)
Definition sum_values (stats : gmap string Z) : Z :=
  map_fold (λ _ v acc, acc + v) 0 stats.

Definition _calculate_value (item_type : ItemType.t) (rarity : ItemRarity.t)
    (stats : gmap string Z) : Z :=
  let base_value := RarityValues.sell_value (RARITY_VALUES rarity) in
  let stat_value := sum_values stats * 2 in
  base_value + stat_value.

Definition _generate_effect (item_type : ItemType.t) (name : string) : result string :=
  match item_type with
  | POTION =>
      if contains "Health" name then Ok "Restores health over time"
      else if contains "Mana" name then Ok "Restores mana over time"
      else if contains "Strength" name then Ok "Temporarily increases strength"
      else if contains "Defense" name then Ok "Temporarily increases defense"
      else Ok "Increases movement speed"
  | _ =>
      match last_word name with
      | Ok w => Ok ("Casts " +:+ w +:+ " spell")
      | Raise e => Raise e
      end
  end.

Definition generate_item (rarity : ItemRarity.t) (item_type : option ItemType.t)
    (player_level : Z) : M rng LootItem.t :=
  item_type ← match item_type with
              | None => _random_item_type
              | Some t => mret t
              end;
  name ← _generate_item_name item_type rarity;
  stats ← _generate_stats item_type rarity player_level;
  let value := _calculate_value item_type rarity stats in
  n ← random_randint 1000 9999;
  let item_id := "item_" +:+ pretty n in
  let item := LootItem.mk item_id name item_type rarity stats value None in
  (* Add special effects for consumables *)
  match item_type with
  | POTION | SCROLL =>
      effect ← lift_result (_generate_effect item_type name);
      mret (LootItem.with_effect (Some effect) item)
  | _ => mret item
  end.
End LootSystem.

(** ** EnemyFactory *)

Module EnemyTemplate.
Record t := mk { health : Z; damage : Z; experience : Z; gold : Z }.
End EnemyTemplate.

Module EnemyFactory.
Definition ENEMY_TYPES : gmap string EnemyTemplate.t :=
  <["zombie" := EnemyTemplate.mk 50 10 20 5]>
  (<["skeleton" := EnemyTemplate.mk 40 15 25 8]>
  (<["orc" := EnemyTemplate.mk 80 20 35 12]>
  (<["demon" := EnemyTemplate.mk 200 40 100 50]> ∅))).

Definition create_enemy (enemy_type : string) (level : Z) : M rng Enemy.t :=
  let enemy_type :=
    if decide (ENEMY_TYPES !! enemy_type = None) then "zombie" else enemy_type in
  template ← match ENEMY_TYPES !! enemy_type with
             | Some t => mret t
             | None => raise (KeyError enemy_type)
             end;
  scaled ← lift_result (int_mul_float (level - 1) (lit 3 10));
  level_multiplier ← lift_result (int_add_float 1 scaled);
  scaled ← lift_result (int_mul_float (EnemyTemplate.health template) level_multiplier);
  health ← lift_result (int_of_float scaled);
  scaled ← lift_result (int_mul_float (EnemyTemplate.damage template) level_multiplier);
  damage ← lift_result (int_of_float scaled);
  scaled ← lift_result (int_mul_float (EnemyTemplate.experience template) level_multiplier);
  experience ← lift_result (int_of_float scaled);
  scaled ← lift_result (int_mul_float (EnemyTemplate.gold template) level_multiplier);
  gold ← lift_result (int_of_float scaled);
  (* Generate stats based on enemy type and level *)
  let stats := Stats.mk (8 + level * 2) (6 + level) (5 + level) (10 + level * 2) in
  n ← random_randint 1000 9999;
  mret (Enemy.mk ("enemy_" +:+ pretty n) enemy_type level health health damage stats
          experience gold).
End EnemyFactory.

(** ** GameSimulator *)

(** An entry of [enemies_defeated]. *)
Module EnemyDetail.
Record t := mk { type : string; level : Z; combatRounds : Z }.
End EnemyDetail.

(** The dictionary returned by [simulate_dungeon_run]: the two shapes differ
    in their keys, ['success'] is [False] in the first and [True] in the
    second. *)
Module RunResult.
Inductive t :=
  | Failure (reason : string) (enemiesDefeated : Z) (lootCollected : list LootItem.t)
      (finalStats : Player.t)
  | Success (enemiesDefeated : Z) (enemyDetails : list EnemyDetail.t)
      (lootCollected : list LootItem.t) (finalStats : Player.t)
      (totalGold totalExperience : Z).
Definition success (r : t) : bool :=
  match r with Failure _ _ _ _ => false | Success _ _ _ _ _ _ => true end.
Definition enemiesDefeated (r : t) : Z :=
  match r with Failure _ n _ _ => n | Success n _ _ _ _ _ => n end.
Definition lootCollected (r : t) : list LootItem.t :=
  match r with Failure _ _ l _ => l | Success _ _ l _ _ _ => l end.
Definition finalStats (r : t) : Player.t :=
  match r with Failure _ _ _ p => p | Success _ _ _ p _ _ => p end.
End RunResult.

Module GameSimulator.
Definition create_player (name : string) (level : Z) : Player.t :=
  let base_health := 100 in
  let base_mana := 50 in
  let health := base_health + (level - 1) * 20 in
  let mana := base_mana + (level - 1) * 10 in
  let stats := Stats.mk (10 + (level - 1) * 2) (10 + (level - 1) * 2)
                 (10 + (level - 1) * 2) (10 + (level - 1) * 2) in
  Player.mk "player_1" name level health health mana mana stats (100 * level) 0 [] [].

(** The state of a run: the [random] module and, as a record of what the
    run did, the calls of [CombatSystem.simulate_combat] that returned, in
    order, each with its enemy and its result. *)
Record world := World {
  random : rng;
  battles : list (Enemy.t * CombatResult.t)
}.

Definition with_random {A} (m : M rng A) : M world A :=
  zoom random (λ g w, World g (battles w)) m.

(** The call [CombatSystem.simulate_combat(player, enemy)], entered in
    [battles] when it returns. *)
Definition call_simulate_combat (player : Player.t) (enemy : Enemy.t)
    : M world (CombatResult.t * Player.t * Enemy.t) :=
  r ← with_random (CombatSystem.call_simulate_combat player enemy);
  _ ← modify (λ w, World (random w) (battles w ++ [(enemy, r.1.1)]));
  mret r.

(** The local variables of [simulate_dungeon_run] that the loop updates. *)
Record locals := Locals {
  player : Player.t;
  enemies_defeated : list EnemyDetail.t;
  loot_collected : list LootItem.t
}.

(** The rarity chosen by the chain of comparisons on [rarity_roll]. *)
Definition rarity_of_roll (rarity_roll : float) : ItemRarity.t :=
  if flt rarity_roll (lit 5 10) then ItemRarity.COMMON
  else if flt rarity_roll (lit 8 10) then ItemRarity.UNCOMMON
  else if flt rarity_roll (lit 95 100) then ItemRarity.RARE
  else if flt rarity_roll (lit 99 100) then ItemRarity.EPIC
  else ItemRarity.LEGENDARY.

(** The [for i in range(num_enemies)] loop over the indices still to come,
    followed by the final [return]. *)
Fixpoint for_loop (num_enemies dungeon_level : Z) (indices : list Z) (l : locals)
    : M world RunResult.t :=
  match indices with
  | [] =>
      mret (RunResult.Success (Z.of_nat (length (enemies_defeated l))) (enemies_defeated l)
              (loot_collected l) (player l) (Player.gold (player l))
              (Player.experience (player l)))
  | i :: indices =>
      (* Select enemy type based on dungeon level *)
      enemy_type ←
        (if bool_decide (i = num_enemies - 1) && bool_decide (dungeon_level >= 5)
         then mret "demon"
         else with_random (random_choice ["zombie"; "skeleton"; "orc"]));
      enemy ← with_random (EnemyFactory.create_enemy enemy_type dungeon_level);
      (* Simulate combat *)
      r ← call_simulate_combat (player l) enemy;
      let '(combat_result, player0, enemy) := r in
      if negb (CombatResult.victory combat_result) then
        (* Player died *)
        mret (RunResult.Failure ("Defeated by " +:+ Enemy.type enemy)
                (Z.of_nat (length (enemies_defeated l))) (loot_collected l) player0)
      else
        (* Victory - update player *)
        let player1 := Player.set_health (CombatResult.finalPlayerHealth combat_result) player0 in
        let player2 := Player.set_experience (Player.experience player1 + Enemy.experience enemy) player1 in
        let player3 := Player.set_gold (Player.gold player2 + Enemy.gold_reward enemy) player2 in
        let enemies_defeated' :=
          enemies_defeated l ++
            [EnemyDetail.mk (Enemy.type enemy) (Enemy.level enemy)
               (CombatResult.rounds combat_result)] in
        (* Generate loot *)
        roll ← with_random random_random;
        if flt roll (lit 6 10) then
          rarity_roll ← with_random random_random;
          let rarity := rarity_of_roll rarity_roll in
          loot ← with_random (LootSystem.generate_item rarity None dungeon_level);
          for_loop num_enemies dungeon_level indices
            (Locals (Player.set_inventory (Player.inventory player3 ++ [loot]) player3)
               enemies_defeated' (loot_collected l ++ [loot]))
        else
          for_loop num_enemies dungeon_level indices
            (Locals player3 enemies_defeated' (loot_collected l))
  end.

Definition simulate_dungeon_run (player_level dungeon_level : Z) : M world RunResult.t :=
  let player := create_player "Hero" player_level in
  (* Generate enemies for the dungeon *)
  let num_enemies := 3 + dungeon_level in
  for_loop num_enemies dungeon_level (range num_enemies) (Locals player [] []).
End GameSimulator.

(** ** looter_shooter_integration.py *)

Section Integration.
(** [str.upper] and the generator state that [random.seed(seed)] installs
    belong to the Python runtime. *)
Variable str_upper : string → string.
Variable seeded : Z → rng.

(** [if seed is not None: random.seed(seed)] *)
Definition seed_random (seed : option Z) : M rng () :=
  match seed with
  | Some n => modify (λ _, seeded n)
  | None => mret ()
  end.

(** The [for _ in range(count)] loop of [generate_loot_json]. *)
Fixpoint generate_items (count : nat) (rarity : ItemRarity.t) (item_type : option ItemType.t)
    (level : Z) (items : list LootItem.t) : M rng (list LootItem.t) :=
  match count with
  | O => mret items
  | S count =>
      item ← LootSystem.generate_item rarity item_type level;
      generate_items count rarity item_type level (items ++ [item])
  end.

(** [generate_loot_json]; the result is the list under the key ['items'] of
    the document that the function serialises. *)
Definition generate_loot_json (count : Z) (rarity : string) (item_type : option string)
    (level : Z) (seed : option Z) : M rng (list LootItem.t) :=
  _ ← seed_random seed;
  rarity_enum ←
    match ItemRarity.by_name (str_upper rarity) with
    | Ok r => mret r
    | Raise _ =>
        raise (ValueError ("Invalid rarity: " +:+ rarity +:+
                 ". Must be one of: common, uncommon, rare, epic, legendary"))
    end;
  item_type_enum ←
    match item_type with
    | Some s =>
        if decide (s = "") then mret None
        else
          match ItemType.by_name (str_upper s) with
          | Ok t => mret (Some t)
          | Raise _ =>
              raise (ValueError ("Invalid item type: " +:+ s +:+
                       ". Must be one of: weapon, armor, potion, scroll"))
          end
    | None => mret None
    end;
  generate_items (Z.to_nat count) rarity_enum item_type_enum level [].

(** [simulate_combat_json]; the result holds the values under the keys
    ['player'], ['enemy'] and ['combat']. *)
Definition simulate_combat_json (player_level enemy_level : Z) (enemy_type : string)
    (seed : option Z) : M rng (Player.t * Enemy.t * CombatResult.t) :=
  _ ← seed_random seed;
  let player := GameSimulator.create_player "Hero" player_level in
  enemy ← EnemyFactory.create_enemy enemy_type enemy_level;
  r ← CombatSystem.call_simulate_combat player enemy;
  let '(combat_result, player, enemy) := r in
  mret (player, enemy, combat_result).
End Integration.

(** ** looter_shooter_dungeon.py: dataclasses *)

Module Position.
Record t := mk { x : number; y : number; z : number }.
End Position.

Module Room.
Record t := mk { x : float; z : float; width : float; height : float; type : string }.
End Room.

Module Corridor.
Record t := mk { start : Position.t; end_ : Position.t; width : float }.
End Corridor.

Module Trap.
Record t := mk {
  id : string;
  position : Position.t;
  type : string;
  damage : Z;
  triggered : bool
}.
End Trap.

Module SpawnPoint.
Record t := mk {
  position : Position.t;
  enemy_type : string;
  cooldown : Z;
  last_spawn : Z
}.
End SpawnPoint.

Module Wall.
Record t := mk { x : float; z : float; width : float; height : float; depth : float }.
End Wall.

(** The dictionary returned by [generate_dungeon]. *)
Module Metadata.
Record t := mk { num_rooms : Z; num_traps : Z; num_spawn_points : Z }.
End Metadata.

Module Dungeon.
Record t := mk {
  rooms : list Room.t;
  corridors : list Corridor.t;
  traps : list Trap.t;
  spawnPoints : list SpawnPoint.t;
  walls : list Wall.t;
  level : Z;
  metadata : Metadata.t
}.
End Dungeon.

(** ** DungeonEngine *)

(** The attributes of a [DungeonEngine] object. *)
Module Engine.
Record t := mk { trap_id_counter : Z; spawn_point_id_counter : Z }.
(** [DungeonEngine()] *)
Definition init : t := mk 0 0.
End Engine.

(** What [generate_dungeon] can reach: [self] and the [random] module. *)
Module DungeonWorld.
Record t := mk { self : Engine.t; random : rng }.
Definition with_random {A} (m : M rng A) : M t A :=
  zoom random (λ g w, mk (self w) g) m.
End DungeonWorld.

(** [math.pi] *)
Definition math_pi : float := S754_finite false 7074237752028440 (-51).

(** [a / b] for two ints that binary64 represents exactly (here
    [1 <= a < b <= 8]): the quotient of the two converted operands. *)
Definition int_div_int (a b : Z) : result float :=
  if decide (b = 0) then Raise (ZeroDivisionError "division by zero")
  else Ok (fdiv (Z2F a) (Z2F b)).

Section DungeonEngine.
Import DungeonWorld.

(** [math.cos] and [math.sin] belong to the platform's C library. *)
Variable math_cos math_sin : float → float.

Definition _determine_room_type (index total_rooms : Z) : M rng string :=
  if decide (index = total_rooms - 1) then mret "boss" (* Last room is boss room *)
  else
    roll ← random_random;
    if flt roll (lit 2 10) then mret "treasure" else mret "normal".

Definition _create_trap (room : Room.t) (level : Z) : M DungeonWorld.t Trap.t :=
  let trap_types := ["spike"; "fire"; "arrow"; "poison"] in
  trap_type ← with_random (random_choice trap_types);
  r ← with_random random_random;
  let offset_x := fmul (fmul (fsub r (lit 5 10)) (Room.width room)) (lit 8 10) in
  r ← with_random random_random;
  let offset_z := fmul (fmul (fsub r (lit 5 10)) (Room.height room)) (lit 8 10) in
  _ ← modify (λ w, mk (Engine.mk (Engine.trap_id_counter (self w) + 1)
                         (Engine.spawn_point_id_counter (self w))) (random w));
  trap_id_counter ← gets (Engine.trap_id_counter ∘ self);
  mret (Trap.mk ("trap_" +:+ pretty trap_id_counter)
          (Position.mk (Float (fadd (Room.x room) offset_x)) (Int 0)
             (Float (fadd (Room.z room) offset_z)))
          trap_type (10 + level * 5) false).

Definition _create_spawn_point (room : Room.t) (level : Z) (is_boss : bool)
    : M rng SpawnPoint.t :=
  let enemy_types := if is_boss then ["demon"] else ["zombie"; "skeleton"; "orc"] in
  enemy_type ← random_choice enemy_types;
  r ← random_random;
  let offset_x := fmul (fmul (fsub r (lit 5 10)) (Room.width room)) (lit 7 10) in
  r ← random_random;
  let offset_z := fmul (fmul (fsub r (lit 5 10)) (Room.height room)) (lit 7 10) in
  mret (SpawnPoint.mk
          (Position.mk (Float (fadd (Room.x room) offset_x)) (Int 0)
             (Float (fadd (Room.z room) offset_z)))
          enemy_type (if is_boss then 60000 else 30000) 0).

Definition _generate_room_walls (room : Room.t) : list Wall.t :=
  let wall_thickness := Z2F 1 in
  let wall_height := Z2F 4 in
  let half (v : float) := fdiv v (Z2F 2) in
  [ (* North wall *)
    Wall.mk (Room.x room)
      (fsub (fsub (Room.z room) (half (Room.height room))) (half wall_thickness))
      (fadd (Room.width room) (fmul wall_thickness (Z2F 2))) wall_height wall_thickness;
    (* South wall *)
    Wall.mk (Room.x room)
      (fadd (fadd (Room.z room) (half (Room.height room))) (half wall_thickness))
      (fadd (Room.width room) (fmul wall_thickness (Z2F 2))) wall_height wall_thickness;
    (* East wall *)
    Wall.mk (fadd (fadd (Room.x room) (half (Room.width room))) (half wall_thickness))
      (Room.z room) wall_thickness wall_height (Room.height room);
    (* West wall *)
    Wall.mk (fsub (fsub (Room.x room) (half (Room.width room))) (half wall_thickness))
      (Room.z room) wall_thickness wall_height (Room.height room) ].

(** The loop [for i in range(1, num_rooms)] over the indices still to come. *)
Fixpoint generate_rooms (num_rooms : Z) (indices : list Z)
    (rooms : list Room.t) (corridors : list Corridor.t)
    : M rng (list Room.t * list Corridor.t) :=
  match indices with
  | [] => mret (rooms, corridors)
  | i :: indices =>
      ratio ← lift_result (int_div_int i num_rooms);
      let angle := fmul (fmul ratio math_pi) (Z2F 2) in
      r ← random_random;
      let distance := fadd (Z2F 25) (fmul r (Z2F 10)) in
      room_type ← _determine_room_type i num_rooms;
      r_width ← random_random;
      r_height ← random_random;
      let room :=
        Room.mk (fmul (math_cos angle) distance) (fmul (math_sin angle) distance)
          (fadd (Z2F 10) (fmul r_width (Z2F 8))) (fadd (Z2F 10) (fmul r_height (Z2F 8)))
          room_type in
      let rooms := rooms ++ [room] in
      (* Create corridor from previous room *)
      if decide (i > 0) then
        match rooms !! Z.to_nat (i - 1) with
        | Some prev_room =>
            generate_rooms num_rooms indices rooms
              (corridors ++
                 [Corridor.mk
                    (Position.mk (Float (Room.x prev_room)) (Int 0) (Float (Room.z prev_room)))
                    (Position.mk (Float (Room.x room)) (Int 0) (Float (Room.z room)))
                    (Z2F 3)])
        | None => raise (IndexError "list index out of range")
        end
      else generate_rooms num_rooms indices rooms corridors
  end.

(** The loop [for i in range(num_traps)]. *)
Fixpoint generate_traps (count : nat) (rooms : list Room.t) (level : Z) (traps : list Trap.t)
    : M DungeonWorld.t (list Trap.t) :=
  match count with
  | O => mret traps
  | S count =>
      room ← with_random (random_choice rooms);
      trap ← _create_trap room level;
      generate_traps count rooms level (traps ++ [trap])
  end.

(** The inner loop [for _ in range(spawn_count)]. *)
Fixpoint generate_room_spawn_points (count : nat) (room : Room.t) (level : Z)
    (spawn_points : list SpawnPoint.t) : M rng (list SpawnPoint.t) :=
  match count with
  | O => mret spawn_points
  | S count =>
      sp ← _create_spawn_point room level (bool_decide (Room.type room = "boss"));
      generate_room_spawn_points count room level (spawn_points ++ [sp])
  end.

(** The loop [for room in rooms] that creates the spawn points. *)
Fixpoint generate_spawn_points (todo : list Room.t) (level : Z)
    (spawn_points : list SpawnPoint.t) : M rng (list SpawnPoint.t) :=
  match todo with
  | [] => mret spawn_points
  | room :: todo =>
      if decide (Room.type room ≠ "spawn") then
        spawn_count ← (if decide (Room.type room = "boss") then mret 1
                       else n ← random_randint 0 2; mret (2 + n));
        spawn_points ← generate_room_spawn_points (Z.to_nat spawn_count) room level spawn_points;
        generate_spawn_points todo level spawn_points
      else generate_spawn_points todo level spawn_points
  end.

Definition generate_dungeon (level : Z) : M DungeonWorld.t Dungeon.t :=
  (* Generate main spawn room *)
  let spawn_room := Room.mk (Z2F 0) (Z2F 0) (Z2F 15) (Z2F 15) "spawn" in
  let rooms := [spawn_room] in
  (* Generate additional rooms based on level *)
  let num_rooms := (3 + level `div` 2) `min` 8 in
  r ← with_random (generate_rooms num_rooms (range2 1 num_rooms) rooms []);
  let '(rooms, corridors) := r in
  (* Connect last room back to spawn *)
  corridors ←
    (if decide (1 < length rooms)%nat then
       match last rooms with
       | Some last_room =>
           mret (corridors ++
                   [Corridor.mk
                      (Position.mk (Float (Room.x last_room)) (Int 0) (Float (Room.z last_room)))
                      (Position.mk (Float (Room.x spawn_room)) (Int 0) (Float (Room.z spawn_room)))
                      (Z2F 3)])
       | None => raise (IndexError "list index out of range")
       end
     else mret corridors);
  (* Generate traps based on level *)
  scaled ← lift_result (int_mul_float level (lit 15 10));
  num_traps ← lift_result (int_of_float scaled);
  traps ← generate_traps (Z.to_nat num_traps) rooms level [];
  (* Generate enemy spawn points *)
  spawn_points ← with_random (generate_spawn_points rooms level []);
  (* Generate walls around rooms *)
  let walls := rooms ≫= _generate_room_walls in
  mret (Dungeon.mk rooms corridors traps spawn_points walls level
          (Metadata.mk (Z.of_nat (length rooms)) (Z.of_nat (length traps))
             (Z.of_nat (length spawn_points)))).
End DungeonEngine.

(** ** dungeon_integration.py *)

(** The values of a dungeon document: what [json] reads and writes. *)
Local Set Warnings "-register-all".
Inductive pyval :=
  | PNone
  | PBool (b : bool)
  | PInt (z : Z)
  | PFloat (x : float)
  | PStr (s : string)
  | PList (l : list pyval)
  | PDict (d : gmap string pyval).

Global Instance result_ret : MRet result := λ A a, Ok a.
Global Instance result_bind : MBind result := λ A B f r,
  match r with
  | Ok a => f a
  | Raise e => Raise e
  end.

(** [v[key]] for a string [key] *)
Definition getitem (v : pyval) (key : string) : result pyval :=
  match v with
  | PDict d =>
      match d !! key with
      | Some x => Ok x
      | None => Raise (KeyError key)
      end
  | PList _ => Raise (TypeError "list indices must be integers or slices, not str")
  | PStr _ => Raise (TypeError "string indices must be integers")
  | _ => Raise (TypeError "object is not subscriptable")
  end.

(** [len(v)] *)
Definition len (v : pyval) : result Z :=
  match v with
  | PList l => Ok (Z.of_nat (length l))
  | PDict d => Ok (Z.of_nat (size d))
  | PStr s => Ok (Z.of_nat (String.length s))
  | _ => Raise (TypeError "object has no len()")
  end.

(** [isinstance(v, list)] *)
Definition is_list (v : pyval) : bool :=
  match v with
  | PList _ => true
  | _ => false
  end.

(** [x == n] for a float [x] and an int [n] *)
Definition float_eq_int (x : float) (n : Z) : bool :=
  match x with
  | S754_zero _ => bool_decide (n = 0)
  | S754_finite s m e =>
      if decide (0 ≤ e) then bool_decide (cond_Zopp s (Z.pos m * 2 ^ e) = n)
      else bool_decide (cond_Zopp s (Z.pos m) = n * 2 ^ (- e))
  | _ => false
  end.

(** [v == s] for a string [s], and [v == n] for an int [n] *)
Definition eq_str (v : pyval) (s : string) : bool :=
  match v with
  | PStr t => bool_decide (t = s)
  | _ => false
  end.

Definition eq_int (v : pyval) (n : Z) : bool :=
  match v with
  | PInt z => bool_decide (z = n)
  | PBool b => bool_decide ((if b then 1 else 0) = n)
  | PFloat x => float_eq_int x n
  | _ => false
  end.

Definition required_keys : list string :=
  ["rooms"; "corridors"; "traps"; "spawnPoints"; "walls"; "level"; "metadata"].

(** The loop [for key in required_keys]. *)
Fixpoint check_required_keys (dungeon : gmap string pyval) (keys : list string) : result () :=
  match keys with
  | [] => Ok ()
  | key :: keys =>
      if decide (dungeon !! key = None) then Raise (ValueError ("Missing required key: " +:+ key))
      else check_required_keys dungeon keys
  end.

(** [[r for r in rooms if r['type'] == 'spawn']] *)
Fixpoint spawn_rooms_of (rooms : list pyval) : result (list pyval) :=
  match rooms with
  | [] => Ok []
  | r :: rooms =>
      t ← getitem r "type";
      rest ← spawn_rooms_of rooms;
      if eq_str t "spawn" then Ok (r :: rest) else Ok rest
  end.

Definition validate_dungeon (dungeon : gmap string pyval) : result bool :=
  _ ← check_required_keys dungeon required_keys;
  (* Validate rooms *)
  rooms ← getitem (PDict dungeon) "rooms";
  match rooms with
  | PList room_list =>
      if decide (length room_list = 0%nat) then
        Raise (ValueError "Dungeon must have at least one room")
      else
        (* Check for spawn room *)
        spawn_rooms ← spawn_rooms_of room_list;
        if decide (length spawn_rooms = 0%nat) then
          Raise (ValueError "Dungeon must have a spawn room")
        else
          (* Validate metadata *)
          metadata ← getitem (PDict dungeon) "metadata";
          num_rooms ← getitem metadata "num_rooms";
          if negb (eq_int num_rooms (Z.of_nat (length room_list))) then
            Raise (ValueError "Metadata room count doesn't match actual rooms")
          else
            num_traps ← getitem metadata "num_traps";
            traps ← getitem (PDict dungeon) "traps";
            traps_len ← len traps;
            if negb (eq_int num_traps traps_len) then
              Raise (ValueError "Metadata trap count doesn't match actual traps")
            else
              num_spawn_points ← getitem metadata "num_spawn_points";
              spawn_points ← getitem (PDict dungeon) "spawnPoints";
              spawn_points_len ← len spawn_points;
              if negb (eq_int num_spawn_points spawn_points_len) then
                Raise (ValueError "Metadata spawn point count doesn't match actual spawn points")
              else Ok true
  | _ => Raise (ValueError "Dungeon must have at least one room")
  end.

(** *** The dictionary that [generate_dungeon] returns

    [asdict] turns each dataclass into the dictionary of its fields. *)

Definition number_val (v : number) : pyval :=
  match v with
  | Int z => PInt z
  | Float x => PFloat x
  end.

Definition position_dict (p : Position.t) : pyval :=
  PDict (<["x" := number_val (Position.x p)]>
        (<["y" := number_val (Position.y p)]>
        (<["z" := number_val (Position.z p)]> ∅))).

Definition room_dict (r : Room.t) : pyval :=
  PDict (<["x" := PFloat (Room.x r)]>
        (<["z" := PFloat (Room.z r)]>
        (<["width" := PFloat (Room.width r)]>
        (<["height" := PFloat (Room.height r)]>
        (<["type" := PStr (Room.type r)]> ∅))))).

Definition corridor_dict (c : Corridor.t) : pyval :=
  PDict (<["start" := position_dict (Corridor.start c)]>
        (<["end" := position_dict (Corridor.end_ c)]>
        (<["width" := PFloat (Corridor.width c)]> ∅))).

Definition trap_dict (t : Trap.t) : pyval :=
  PDict (<["id" := PStr (Trap.id t)]>
        (<["position" := position_dict (Trap.position t)]>
        (<["type" := PStr (Trap.type t)]>
        (<["damage" := PInt (Trap.damage t)]>
        (<["triggered" := PBool (Trap.triggered t)]> ∅))))).

Definition spawn_point_dict (s : SpawnPoint.t) : pyval :=
  PDict (<["position" := position_dict (SpawnPoint.position s)]>
        (<["enemy_type" := PStr (SpawnPoint.enemy_type s)]>
        (<["cooldown" := PInt (SpawnPoint.cooldown s)]>
        (<["last_spawn" := PInt (SpawnPoint.last_spawn s)]> ∅)))).

Definition wall_dict (w : Wall.t) : pyval :=
  PDict (<["x" := PFloat (Wall.x w)]>
        (<["z" := PFloat (Wall.z w)]>
        (<["width" := PFloat (Wall.width w)]>
        (<["height" := PFloat (Wall.height w)]>
        (<["depth" := PFloat (Wall.depth w)]> ∅))))).

Definition metadata_dict (m : Metadata.t) : pyval :=
  PDict (<["num_rooms" := PInt (Metadata.num_rooms m)]>
        (<["num_traps" := PInt (Metadata.num_traps m)]>
        (<["num_spawn_points" := PInt (Metadata.num_spawn_points m)]> ∅))).

Definition dungeon_dict (d : Dungeon.t) : gmap string pyval :=
  <["rooms" := PList (room_dict <$> Dungeon.rooms d)]>
  (<["corridors" := PList (corridor_dict <$> Dungeon.corridors d)]>
  (<["traps" := PList (trap_dict <$> Dungeon.traps d)]>
  (<["spawnPoints" := PList (spawn_point_dict <$> Dungeon.spawnPoints d)]>
  (<["walls" := PList (wall_dict <$> Dungeon.walls d)]>
  (<["level" := PInt (Dungeon.level d)]>
  (<["metadata" := metadata_dict (Dungeon.metadata d)]> ∅)))))).

(** ** The specification's wording of the damage formula *)

(** What [random.random()] returns next. *)
Definition next_random (g : rng) : float :=
  binary_normalize 53 1024 (g 0%nat `mod` 2 ^ 53) (-53) false.

(** The damage formula in the words of the specification: the base damage,
    plus [strength * 0.5] for physical damage, plus [intelligence * 0.7] for
    fire, ice, lightning and arcane damage, plus nothing for poison; minus
    [vitality * 0.3] of the defender, floored at 1; doubled after that floor
    on a critical hit. *)
Definition spec_damage (base_damage : Z) (damage_type : DamageType.t)
    (attacker_stats defender_stats : Stats.t) (critical : bool) : result Z :=
  base ← float_of_int base_damage;
  total ← match damage_type with
          | DamageType.PHYSICAL =>
              bonus ← int_mul_float (Stats.strength attacker_stats) (lit 5 10);
              Ok (fadd base bonus)
          | DamageType.FIRE | DamageType.ICE | DamageType.LIGHTNING | DamageType.ARCANE =>
              bonus ← int_mul_float (Stats.intelligence attacker_stats) (lit 7 10);
              Ok (fadd base bonus)
          | DamageType.POISON => Ok base
          end;
  resistance ← int_mul_float (Stats.vitality defender_stats) (lit 3 10);
  let floored := max_1 (fsub total resistance) in
  int_of_number (if critical then number_double floored else floored).

(** ** Sample inputs *)

(** A generator tape used by the examples. *)
Definition sample_rng : rng := λ k, Z.of_nat k * 1234567890123457 + 2 ^ 52.

(** The value of a result, or [d] if it is an exception. *)
Definition from_result {A} (d : A) (r : result A) : A :=
  match r with
  | Ok a => a
  | Raise _ => d
  end.

(** A fight that nobody wins in 100 rounds: every hit takes one point of
    health from a thousand. *)
Definition patient_player : Player.t :=
  Player.mk "player_1" "Hero" 1 1000 1000 50 50 (Stats.mk 10 10 10 10) 100 0 [] [].
Definition patient_enemy : Enemy.t :=
  Enemy.mk "enemy_1000" "zombie" 1 1000 1000 0 (Stats.mk 0 0 0 1000) 20 5.
Definition patient_world : CombatSystem.world :=
  CombatSystem.World patient_player patient_enemy (λ _, 2 ^ 52).
Definition patient_result : CombatResult.t :=
  from_result (CombatResult.mk false 0 0 0 [])
    (CombatSystem.simulate_combat patient_world).1.

Definition sample_potion : LootItem.t :=
  from_result (LootItem.mk "" "" ItemType.POTION ItemRarity.COMMON ∅ 0 None)
    (LootSystem.generate_item ItemRarity.RARE (Some ItemType.POTION) 5 sample_rng).1.

(** [str.upper] on strings of ASCII characters, and a seeding, for the
    examples. *)
Definition upper_char (c : Ascii.ascii) : Ascii.ascii :=
  let n := Ascii.N_of_ascii c in
  if ((97 <=? n) && (n <=? 122))%N then Ascii.ascii_of_N (n - 32) else c.

Fixpoint ascii_upper (s : string) : string :=
  match s with
  | EmptyString => EmptyString
  | String c s => String (upper_char c) (ascii_upper s)
  end.

Definition sample_seeded (seed : Z) : rng := λ k, sample_rng k + seed.

(** The engine and generator that the dungeon examples start from. *)
Definition sample_world : DungeonWorld.t := DungeonWorld.mk Engine.init sample_rng.

(** A dungeon document with two spawn rooms and consistent metadata. *)
Definition two_spawn_dungeon : gmap string pyval :=
  let spawn := PDict (<["x" := PFloat (Z2F 0)]> (<["z" := PFloat (Z2F 0)]>
                     (<["width" := PFloat (Z2F 15)]> (<["height" := PFloat (Z2F 15)]>
                     (<["type" := PStr "spawn"]> ∅))))) in
  <["rooms" := PList [spawn; spawn]]>
  (<["corridors" := PList []]>
  (<["traps" := PList []]>
  (<["spawnPoints" := PList []]>
  (<["walls" := PList []]>
  (<["level" := PInt 1]>
  (<["metadata" := PDict (<["num_rooms" := PInt 2]> (<["num_traps" := PInt 0]>
                         (<["num_spawn_points" := PInt 0]> ∅)))]> ∅)))))).

(** ** Vocabulary of the properties *)

(** A float of magnitude at least 1: finite with an integer part of at least
    1, or infinite. *)
Definition at_least_one (s : bool) (x : float) : Prop :=
  x = S754_infinity s ∨ ∃ m e, x = S754_finite s m e ∧ 1 ≤ Z.shiftl (Z.pos m) e.

(** A computation of [simulate_combat] that leaves the player and the enemy
    as they are. *)
Definition read_only {A} (m : M CombatSystem.world A) : Prop :=
  ∀ w, CombatSystem.player (m w).2 = CombatSystem.player w
       ∧ CombatSystem.enemy (m w).2 = CombatSystem.enemy w.

(** The enemy type that slot [i] of a run over [num_enemies] slots gets:
    the last slot holds a demon from dungeon level 5 on, every other slot an
    enemy chosen among zombie, skeleton and orc. *)
Definition slot_type_ok (num_enemies dungeon_level : Z) (i : nat) (enemy_type : string) : Prop :=
  if decide (Z.of_nat i = num_enemies - 1 ∧ dungeon_level >= 5) then enemy_type = "demon"
  else enemy_type ∈ ["zombie"; "skeleton"; "orc"].

(** What holds between two iterations of the loop of [simulate_dungeon_run],
    [k] iterations in. *)
Record loop_invariant (num_enemies dungeon_level : Z) (k : nat)
    (l : GameSimulator.locals) (w : GameSimulator.world) : Prop := {
  inv_battles : length (GameSimulator.battles w) = k;
  inv_won : ∀ i e c, GameSimulator.battles w !! i = Some (e, c) →
              CombatResult.victory c = true;
  inv_types : ∀ i e c, GameSimulator.battles w !! i = Some (e, c) →
                slot_type_ok num_enemies dungeon_level i (Enemy.type e);
  inv_defeated : EnemyDetail.type <$> GameSimulator.enemies_defeated l
                 = (Enemy.type ∘ fst) <$> GameSimulator.battles w;
  inv_loot : GameSimulator.loot_collected l = Player.inventory (GameSimulator.player l)
}.

(** What holds when the run returns. *)
Definition run_outcome (num_enemies dungeon_level : Z) (slots : nat) (r : RunResult.t)
    (w : GameSimulator.world) : Prop :=
  let battles := GameSimulator.battles w in
  (length battles ≤ slots)%nat
  ∧ (∀ i e c, battles !! i = Some (e, c) →
       slot_type_ok num_enemies dungeon_level i (Enemy.type e))
  ∧ (∀ i e c, battles !! i = Some (e, c) → (S i < length battles)%nat →
       CombatResult.victory c = true)
  ∧ RunResult.lootCollected r = Player.inventory (RunResult.finalStats r)
  ∧ match r with
    | RunResult.Success n details _ _ _ _ =>
        length battles = slots
        ∧ (∀ i e c, battles !! i = Some (e, c) → CombatResult.victory c = true)
        ∧ n = Z.of_nat slots
        ∧ EnemyDetail.type <$> details = (Enemy.type ∘ fst) <$> battles
    | RunResult.Failure reason n _ _ =>
        ∃ e c, last battles = Some (e, c)
               ∧ CombatResult.victory c = false
               ∧ reason = "Defeated by " +:+ Enemy.type e
               ∧ n = Z.of_nat (length battles) - 1
    end.

(** The type of the room with index [i] among [num_rooms] rooms. *)
Definition room_type_ok (num_rooms : Z) (i : nat) (room_type : string) : Prop :=
  if decide (Z.of_nat i = num_rooms - 1) then room_type = "boss"
  else room_type = "treasure" ∨ room_type = "normal".

(** The spawn room that every dungeon starts with. *)
Definition the_spawn_room : Room.t := Room.mk (Z2F 0) (Z2F 0) (Z2F 15) (Z2F 15) "spawn".

(** What [validate_dungeon] checks, one condition per line: the seven keys,
    a non-empty list of rooms, each with a readable type, at least one of
    them a spawn room, and metadata counts that equal the three lengths. *)
Definition acceptable (dungeon : gmap string pyval) : Prop :=
  (∀ key, key ∈ required_keys → is_Some (dungeon !! key))
  ∧ ∃ rooms metadata traps spawn_points num_rooms num_traps num_spawn_points
      traps_len spawn_points_len,
      dungeon !! "rooms" = Some (PList rooms)
      ∧ rooms ≠ []
      ∧ (∀ r, r ∈ rooms → ∃ t, getitem r "type" = Ok t)
      ∧ (∃ r, r ∈ rooms ∧ getitem r "type" = Ok (PStr "spawn"))
      ∧ dungeon !! "metadata" = Some metadata
      ∧ getitem metadata "num_rooms" = Ok num_rooms
      ∧ eq_int num_rooms (Z.of_nat (length rooms)) = true
      ∧ getitem metadata "num_traps" = Ok num_traps
      ∧ dungeon !! "traps" = Some traps
      ∧ len traps = Ok traps_len
      ∧ eq_int num_traps traps_len = true
      ∧ getitem metadata "num_spawn_points" = Ok num_spawn_points
      ∧ dungeon !! "spawnPoints" = Some spawn_points
      ∧ len spawn_points = Ok spawn_points_len
      ∧ eq_int num_spawn_points spawn_points_len = true.

(** A binary64 number that is zero, or finite, in canonical form and of
    magnitude below [2^k]. *)
Definition below_pow2 (k : Z) (x : float) : Prop :=
  match x with
  | S754_zero _ => True
  | S754_finite _ m e =>
      fexp 53 1024 (Z.pos (digits2_pos m) + e) = e ∧ Z.pos (digits2_pos m) + e ≤ k
  | _ => False
  end.

(** An int of magnitude below [2^k]. *)
Definition within (k : Z) (z : Z) : Prop := Z.abs z < 2 ^ k.

(** Stats that [calculate_damage] can turn into floats. *)
Definition stats_within (k : Z) (s : Stats.t) : Prop :=
  within k (Stats.strength s) ∧ within k (Stats.intelligence s) ∧ within k (Stats.vitality s).

(** A player and an enemy whose level, stats and damage
    [simulate_combat] can turn into floats. *)
Definition combat_ready (player : Player.t) (enemy : Enemy.t) : Prop :=
  within 990 (Player.level player) ∧ stats_within 1000 (Player.stats player)
  ∧ within 1000 (Enemy.damage enemy) ∧ stats_within 1000 (Enemy.stats enemy).

(** ** Vocabulary of the further properties *)

(** A blow as [simulate_combat] deals them: physical, of at least one point,
    without a status effect. *)
Definition plain_hit (r : DamageResult.t) : Prop :=
  1 ≤ DamageResult.damage r
  ∧ DamageResult.damage_type r = DamageType.PHYSICAL
  ∧ DamageResult.status_effect r = None.

(** An entry of the combat log: the enemy strikes back exactly when the
    player's blow left it with health above 0, and the health shown is
    never negative. *)
Definition round_entry_ok (entry : RoundInfo.t) : Prop :=
  plain_hit (RoundInfo.playerAttack entry)
  ∧ match RoundInfo.enemyAttack entry, RoundInfo.playerHealth entry with
    | Some hit, Some h => 0 < RoundInfo.enemyHealth entry ∧ plain_hit hit ∧ 0 ≤ h
    | None, None => RoundInfo.enemyHealth entry = 0
    | _, _ => False
    end.

(** The threshold below which the third draw of [calculate_damage] applies
    the status effect of a damage type, if the type has one. *)
Definition status_threshold (dt : DamageType.t) : option float :=
  match dt with
  | DamageType.FIRE => Some (lit 3 10)
  | DamageType.ICE => Some (lit 4 10)
  | DamageType.LIGHTNING => Some (lit 2 10)
  | DamageType.POISON => Some (lit 5 10)
  | DamageType.PHYSICAL | DamageType.ARCANE => None
  end.

(** A fire attack, for the examples. *)
Definition sample_fire_hit : DamageResult.t :=
  from_result (DamageResult.mk 0 DamageType.FIRE false None)
    (CombatSystem.calculate_damage 30 DamageType.FIRE (Stats.mk 10 10 45 10)
       (Stats.mk 10 10 10 5) CombatSystem.default_crit_chance sample_rng).1.

(** What holds of the local variables of [simulate_combat] between two
    rounds, for a fight that started with [p0] and [e0] points of health:
    the log has one entry per round, numbered from 1; every round but the
    last left both sides alive; the last entry shows the running totals; the
    enemy has lost a point per round at least, and the player has gained
    none. *)
Record combat_invariant (p0 e0 : Z) (l : CombatSystem.locals) : Prop := {
  ci_round : CombatSystem.round_num l = Z.of_nat (length (CombatSystem.rounds l));
  ci_numbers : RoundInfo.round <$> CombatSystem.rounds l
               = (λ k, Z.of_nat k + 1) <$> seq 0 (length (CombatSystem.rounds l));
  ci_entries : Forall round_entry_ok (CombatSystem.rounds l);
  ci_alive : ∀ i entry, CombatSystem.rounds l !! i = Some entry →
               (S i < length (CombatSystem.rounds l))%nat →
               0 < RoundInfo.enemyHealth entry
               ∧ ∃ h, RoundInfo.playerHealth entry = Some h ∧ 0 < h;
  ci_last : match last (CombatSystem.rounds l) with
            | Some entry =>
                RoundInfo.enemyHealth entry = 0 `max` CombatSystem.enemy_health l
                ∧ (RoundInfo.playerHealth entry = Some (0 `max` CombatSystem.player_health l)
                   ∨ RoundInfo.playerHealth entry = None
                     ∧ CombatSystem.enemy_health l ≤ 0 ∧ 0 < CombatSystem.player_health l)
            | None => CombatSystem.player_health l = p0 ∧ CombatSystem.enemy_health l = e0
            end;
  ci_enemy : CombatSystem.enemy_health l ≤ e0 - CombatSystem.round_num l;
  ci_player : CombatSystem.player_health l ≤ p0;
  ci_bound : CombatSystem.round_num l ≤ 0 `max` e0
}.

(** The entry of [enemies_defeated] for a battle that was won. *)
Definition enemy_detail (b : Enemy.t * CombatResult.t) : EnemyDetail.t :=
  EnemyDetail.mk (Enemy.type b.1) (Enemy.level b.1) (CombatResult.rounds b.2).

(** The sum of a property of the enemies of a list of battles. *)
Definition sum_over (f : Enemy.t → Z) (battles : list (Enemy.t * CombatResult.t)) : Z :=
  foldr (λ b acc, f b.1 + acc) 0 battles.

(** The player of a run after the battles [won], carrying [loot]: the
    player that [create_player] made, with the health that the last battle
    left, the gold and the experience of the enemies added, and nothing else
    changed. *)
Definition player_after (player_level : Z) (won : list (Enemy.t * CombatResult.t))
    (loot : list LootItem.t) : Player.t :=
  let p := GameSimulator.create_player "Hero" player_level in
  Player.mk (Player.id p) (Player.name p) player_level
    (match last won with
     | Some b => CombatResult.finalPlayerHealth b.2
     | None => Player.health p
     end)
    (Player.max_health p) (Player.mana p) (Player.max_mana p) (Player.stats p)
    (100 * player_level + sum_over Enemy.gold_reward won)
    (sum_over Enemy.experience won)
    [] loot.

(** The player's health never rises from one battle of a run to the next. *)
Definition no_healing (battles : list (Enemy.t * CombatResult.t)) : Prop :=
  ∀ i b b', battles !! i = Some b → battles !! S i = Some b' →
    CombatResult.finalPlayerHealth b'.2 ≤ CombatResult.finalPlayerHealth b.2.

(** What holds of the books of [simulate_dungeon_run] between two battles. *)
Record run_accounts (player_level dungeon_level : Z) (l : GameSimulator.locals)
    (w : GameSimulator.world) : Prop := {
  ra_player : GameSimulator.player l
              = player_after player_level (GameSimulator.battles w)
                  (GameSimulator.loot_collected l);
  ra_details : GameSimulator.enemies_defeated l = enemy_detail <$> GameSimulator.battles w;
  ra_loot : (length (GameSimulator.loot_collected l) ≤ length (GameSimulator.battles w))%nat;
  ra_won : ∀ b, b ∈ GameSimulator.battles w →
             CombatResult.victory b.2 = true ∧ 0 < CombatResult.finalPlayerHealth b.2;
  ra_enemies : ∀ b, b ∈ GameSimulator.battles w →
                 Enemy.level b.1 = dungeon_level ∧ Enemy.health b.1 = Enemy.max_health b.1;
  ra_health : no_healing (GameSimulator.battles w)
}.

(** An orc of level 1, for the examples. *)
Definition sample_orc : Enemy.t :=
  from_result (Enemy.mk "" "" 0 0 0 0 (Stats.mk 0 0 0 0) 0 0)
    (EnemyFactory.create_enemy "orc" 1 sample_rng).1.

(** What the result of [simulate_dungeon_run] says about [battles], the
    fights of the run. *)
Definition run_books (player_level dungeon_level : Z) (r : RunResult.t)
    (battles : list (Enemy.t * CombatResult.t)) : Prop :=
  match r with
  | RunResult.Success n details loot p gold experience =>
      p = player_after player_level battles loot
      ∧ details = enemy_detail <$> battles
      ∧ gold = 100 * player_level + sum_over Enemy.gold_reward battles
      ∧ experience = sum_over Enemy.experience battles
      ∧ (length loot ≤ length battles)%nat
  | RunResult.Failure reason n loot p =>
      ∃ won lost,
        battles = won ++ [lost]
        ∧ p = player_after player_level won loot
        ∧ (length loot ≤ length won)%nat
        ∧ CombatResult.finalPlayerHealth lost.2 = 0
  end.

(** A run that succeeds, for the examples. *)
Definition sample_run : result RunResult.t * GameSimulator.world :=
  GameSimulator.simulate_dungeon_run 30 5 (GameSimulator.World sample_rng []).
Definition sample_run_result : RunResult.t :=
  from_result (RunResult.Failure "" 0 [] (GameSimulator.create_player "" 0)) sample_run.1.

(** The effect that [generate_item] gives to a potion and to a scroll, by
    the base name of the item. *)
Definition consumable_effects (item_type : ItemType.t) : list (string * string) :=
  match item_type with
  | ItemType.POTION =>
      [("Health Potion", "Restores health over time");
       ("Mana Potion", "Restores mana over time");
       ("Strength Elixir", "Temporarily increases strength");
       ("Defense Tonic", "Temporarily increases defense");
       ("Speed Draught", "Increases movement speed")]
  | ItemType.SCROLL =>
      [("Fireball", "Casts Fireball spell");
       ("Lightning", "Casts Lightning spell");
       ("Ice Storm", "Casts Storm spell");
       ("Healing", "Casts Healing spell");
       ("Teleportation", "Casts Teleportation spell");
       ("Summoning", "Casts Summoning spell")]
  | _ => []
  end.

(** The binary64 number [n * 2^e] for a positive [n] below 2^53, in the
    canonical form that the operations return. *)
Definition dyadic (n : positive) (e : Z) : float :=
  let k := 53 - Z.pos (digits2_pos n) in
  S754_finite false (Z.to_pos (Z.pos n * 2 ^ k)) (e - k).

(** Twice the multiplier of a rarity: 1.0, 1.5, 2.0, 3.0 and 5.0 doubled. *)
Definition multiplier_twice (rarity : ItemRarity.t) : Z :=
  match rarity with
  | ItemRarity.COMMON => 2
  | ItemRarity.UNCOMMON => 3
  | ItemRarity.RARE => 4
  | ItemRarity.EPIC => 6
  | ItemRarity.LEGENDARY => 10
  end.

(** The stats of a generated item as integers: what the float products of
    [_generate_stats] come to. [bonus] tells whether the second stat, which
    depends on a draw, is present. *)
Definition item_stats (item_type : ItemType.t) (rarity : ItemRarity.t) (level : Z)
    (bonus : bool) : gmap string Z :=
  let m2 := multiplier_twice rarity in
  match item_type with
  | ItemType.WEAPON =>
      let stats := {[ "damage" := (5 + level) * m2 ]} in
      if bonus then <["critChance" := (5 * m2) `div` 2]> stats else stats
  | ItemType.ARMOR =>
      let stats := {[ "defense" := ((16 + 3 * level) * m2) `div` 4 ]} in
      if bonus then <["health" := 10 * m2]> stats else stats
  | _ => ∅
  end.

(** A legendary weapon for a player of level 5, for the examples. *)
Definition sample_weapon : LootItem.t :=
  from_result (LootItem.mk "" "" ItemType.POTION ItemRarity.COMMON ∅ 0 None)
    (LootSystem.generate_item ItemRarity.LEGENDARY (Some ItemType.WEAPON) 5 sample_rng).1.

(** The corridor that [generate_dungeon] lays from one room to another. *)
Definition corridor_between (a b : Room.t) : Corridor.t :=
  Corridor.mk (Position.mk (Float (Room.x a)) (Int 0) (Float (Room.z a)))
    (Position.mk (Float (Room.x b)) (Int 0) (Float (Room.z b))) (Z2F 3).

(** A corridor from every room of a list to the next one. *)
Definition corridor_chain (rooms : list Room.t) : list Corridor.t :=
  zip_with corridor_between rooms (tail rooms).

(** The chain of corridors closed by one from the last room back to the
    first, if there are two rooms at least. *)
Definition corridor_ring (rooms : list Room.t) : list Corridor.t :=
  match rooms, last rooms with
  | first :: _ :: _, Some final => corridor_chain rooms ++ [corridor_between final first]
  | _, _ => []
  end.

(** The trap that the [i]-th call of [_create_trap] makes on an engine
    whose counter stood at [counter]. *)
Definition trap_ok (level counter : Z) (i : nat) (t : Trap.t) : Prop :=
  Trap.id t = "trap_" +:+ pretty (counter + 1 + Z.of_nat i)
  ∧ Trap.type t ∈ ["spike"; "fire"; "arrow"; "poison"]
  ∧ Trap.damage t = 10 + level * 5
  ∧ Trap.triggered t = false
  ∧ Position.y (Trap.position t) = Int 0.

(** A spawn point of a boss room, or of another room. *)
Definition spawn_point_ok (is_boss : bool) (sp : SpawnPoint.t) : Prop :=
  SpawnPoint.enemy_type sp ∈ (if is_boss then ["demon"] else ["zombie"; "skeleton"; "orc"])
  ∧ SpawnPoint.cooldown sp = (if is_boss then 60000 else 30000)
  ∧ SpawnPoint.last_spawn sp = 0
  ∧ Position.y (SpawnPoint.position sp) = Int 0.

(** The spawn points of one room: none in a spawn room, one in the boss
    room, two to four in any other room. *)
Definition spawn_group_ok (room : Room.t) (group : list SpawnPoint.t) : Prop :=
  if decide (Room.type room = "spawn") then group = []
  else if decide (Room.type room = "boss") then
    length group = 1%nat ∧ Forall (spawn_point_ok true) group
  else (2 ≤ length group ≤ 4)%nat ∧ Forall (spawn_point_ok false) group.

(** ** dungeon_integration.py: [generate_dungeon_json] *)

Section DungeonIntegration.
Variable seeded : Z → rng.
Variable math_cos math_sin : float → float.

(** [engine = DungeonEngine()] followed by [engine.generate_dungeon(level)]:
    the engine is a fresh one at every call, and the result is the
    dictionary that [generate_dungeon] returns. *)
Definition generate_with_new_engine (level : Z) : M rng (gmap string pyval) := λ g,
  let engine := Engine.init in
  let '(r, w) := generate_dungeon math_cos math_sin level (DungeonWorld.mk engine g) in
  (match r with
   | Ok dungeon => Ok (dungeon_dict dungeon)
   | Raise e => Raise e
   end, DungeonWorld.random w).

(** [generate_dungeon_json]; the result is the dictionary that the function
    serialises. *)
Definition generate_dungeon_json (level : Z) (seed : option Z)
    : M rng (gmap string pyval) :=
  _ ← seed_random seeded seed;
  generate_with_new_engine level.
End DungeonIntegration.

(** Two dungeons generated one after the other by the same engine, and a
    dungeon of level -4, for the examples. *)
Definition sample_dungeon_run : result Dungeon.t * DungeonWorld.t :=
  generate_dungeon (λ x, x) (λ x, x) 5 sample_world.
Definition no_dungeon : Dungeon.t := Dungeon.mk [] [] [] [] [] 0 (Metadata.mk 0 0 0).
Definition sample_dungeon : Dungeon.t := from_result no_dungeon sample_dungeon_run.1.
Definition second_dungeon : Dungeon.t :=
  from_result no_dungeon (generate_dungeon (λ x, x) (λ x, x) 3 sample_dungeon_run.2).1.
Definition bare_dungeon : Dungeon.t :=
  from_result no_dungeon (generate_dungeon (λ x, x) (λ x, x) (-4) sample_world).1.

(** A dungeon document whose second room has no type. *)
Definition untyped_room_dungeon : gmap string pyval :=
  <["rooms" := PList [PDict {[ "type" := PStr "spawn" ]}; PDict ∅]]> two_spawn_dungeon.

(** A call of [generate_loot_json] and one of [simulate_combat_json], for the
    examples. *)
Definition sample_loot : list LootItem.t :=
  from_result []
    (generate_loot_json ascii_upper sample_seeded 2 "Rare" (Some "") 5 (Some 7) sample_rng).1.
Definition sample_report : Player.t * Enemy.t * CombatResult.t :=
  from_result (patient_player, patient_enemy, CombatResult.mk false 0 0 0 [])
    (simulate_combat_json sample_seeded 1 3 "orc" None sample_rng).1.

(** An ordinary hit and a critical hit of the same attack, for the
    examples; the generator of the second one draws 0. *)
Definition sample_hit (g : rng) : DamageResult.t :=
  from_result (DamageResult.mk 0 DamageType.PHYSICAL false None)
    (CombatSystem.calculate_damage 25 DamageType.PHYSICAL (Stats.mk 11 10 10 10)
       (Stats.mk 10 7 6 12) CombatSystem.default_crit_chance g).1.
Definition lucky_rng : rng := λ _, 0.

(** The dungeon behind a call of [generate_dungeon_json] with seed 42, for
    the examples. *)
Definition seeded_dungeon_run : result Dungeon.t * DungeonWorld.t :=
  generate_dungeon (λ x, x) (λ x, x) 5 (DungeonWorld.mk Engine.init (sample_seeded 42)).
Definition seeded_dungeon : Dungeon.t := from_result no_dungeon seeded_dungeon_run.1.

(** A blow whose damage is what the damage formula gives for a physical
    attack of [base] points by [attacker] on [defender], critical or not as
    the blow says. *)
Definition blow_by (base : Z) (attacker defender : Stats.t) (hit : DamageResult.t) : Prop :=
  spec_damage base DamageType.PHYSICAL attacker defender (DamageResult.is_critical hit)
  = Ok (DamageResult.damage hit).

(** The blows of a round of the fight between [p] and [e]. *)
Definition round_blows (p : Player.t) (e : Enemy.t) (entry : RoundInfo.t) : Prop :=
  blow_by (20 + Player.level p * 5) (Player.stats p) (Enemy.stats e)
    (RoundInfo.playerAttack entry)
  ∧ match RoundInfo.enemyAttack entry with
    | Some back => blow_by (Enemy.damage e) (Enemy.stats e) (Player.stats p) back
    | None => True
    end.

(** The damage that the player dealt, and the damage that the player took,
    in the rounds of a combat log. *)
Definition damage_dealt (log : list RoundInfo.t) : Z :=
  foldr (λ entry acc, DamageResult.damage (RoundInfo.playerAttack entry) + acc) 0 log.
Definition damage_taken (log : list RoundInfo.t) : Z :=
  foldr (λ entry acc,
           match RoundInfo.enemyAttack entry with
           | Some back => DamageResult.damage back
           | None => 0
           end + acc) 0 log.

(** An item as [generate_item] makes it for [level]: the stats of its type
    and rarity at that level, and the value that goes with them. *)
Definition dropped_at (level : Z) (item : LootItem.t) : Prop :=
  (∃ bonus, LootItem.stats item
            = item_stats (LootItem.type item) (LootItem.rarity item) level bonus)
  ∧ LootItem.value item
    = LootSystem._calculate_value (LootItem.type item) (LootItem.rarity item)
        (LootItem.stats item).

(** ** The damage formula, written out

    The formula of the specification on binary64 numbers, operation by
    operation, with nothing taken from the embedding of [calculate_damage]:
    it is compared with the code in [calculate_damage_formula]. *)

(** The integer part of a binary64 number. *)
Definition truncate (x : spec_float) : Z :=
  match x with
  | S754_finite s m e => cond_Zopp s (Z.shiftl (Z.pos m) e)
  | _ => 0
  end.

(** The binary64 number nearest to an integer, and to a decimal [n/d]. *)
Definition binary64 (z : Z) : spec_float := binary_normalize 53 1024 z 0 false.
Definition decimal (n d : Z) : spec_float := SFdiv 53 1024 (binary64 n) (binary64 d).

(** The base damage with the bonus of the attacker, less the resistance of
    the defender. *)
Definition damage_before_floor (base_damage : Z) (damage_type : DamageType.t)
    (attacker defender : Stats.t) : spec_float :=
  let base := binary64 base_damage in
  let raised :=
    match damage_type with
    | DamageType.PHYSICAL =>
        SFadd 53 1024 base
          (SFmul 53 1024 (binary64 (Stats.strength attacker)) (decimal 5 10))
    | DamageType.POISON => base
    | _ =>
        SFadd 53 1024 base
          (SFmul 53 1024 (binary64 (Stats.intelligence attacker)) (decimal 7 10))
    end in
  SFsub 53 1024 raised (SFmul 53 1024 (binary64 (Stats.vitality defender)) (decimal 3 10)).

(** Floored at 1, doubled after that on a critical hit, and cut to an
    integer. *)
Definition damage_in_words (base_damage : Z) (damage_type : DamageType.t)
    (attacker defender : Stats.t) (critical : bool) : Z :=
  let reduced := damage_before_floor base_damage damage_type attacker defender in
  let floored := if SFltb (binary64 1) reduced then reduced else binary64 1 in
  truncate (if critical then SFmul 53 1024 floored (binary64 2) else floored).

(** ** The value of an item, written out *)

(** The base sell values of the specification. *)
Definition base_sell_value (rarity : ItemRarity.t) : Z :=
  match rarity with
  | ItemRarity.COMMON => 10
  | ItemRarity.UNCOMMON => 25
  | ItemRarity.RARE => 50
  | ItemRarity.EPIC => 100
  | ItemRarity.LEGENDARY => 250
  end.

(** The value of the stat [key], 0 when the item has no such stat. *)
Definition stat_of (stats : gmap string Z) (key : string) : Z :=
  default 0 (stats !! key).

(** The names that a stat of a generated item can have. *)
Definition stat_names : list string := ["damage"; "critChance"; "defense"; "health"].

(** ** A dungeon run, cut short *)

(** [simulate_dungeon_run] with its loop ended after the first [k] slots:
    the player is created, the first [k] indices of [range(num_enemies)] are
    gone through with [num_enemies = 3 + dungeon_level] as in the run, and
    the final [return] follows. *)
Definition first_fights (player_level dungeon_level : Z) (k : nat)
    : M GameSimulator.world RunResult.t :=
  GameSimulator.for_loop (3 + dungeon_level) dungeon_level
    (take k (range (3 + dungeon_level)))
    (GameSimulator.Locals (GameSimulator.create_player "Hero" player_level) [] []).

(** * Properties *)



(** * Binary64 rounding *)

Lemma digits2_pos_size p : digits2_pos p = Pos.size p.
Proof. induction p; simpl; congruence. Qed.

Lemma digits_log2 p : Z.pos (digits2_pos p) = Z.log2 (Z.pos p) + 1.
Proof.
  rewrite digits2_pos_size. destruct p; simpl; try lia.
Qed.

Lemma digits_bounds p :
  2 ^ (Z.pos (digits2_pos p) - 1) ≤ Z.pos p < 2 ^ Z.pos (digits2_pos p).
Proof.
  rewrite digits_log2. replace (Z.log2 (Z.pos p) + 1 - 1) with (Z.log2 (Z.pos p)) by lia.
  replace (Z.log2 (Z.pos p) + 1) with (Z.succ (Z.log2 (Z.pos p))) by lia.
  apply Z.log2_spec. lia.
Qed.

Lemma iter_pos_nat {A} (f : A → A) p x : SpecFloat.iter_pos f p x = Nat.iter (Pos.to_nat p) f x.
Proof.
  revert x. induction p as [p IH|p IH|]; intros x.
  - rewrite Pos2Nat.inj_xI. cbn [SpecFloat.iter_pos]. rewrite !IH.
    replace (S (2 * Pos.to_nat p))%nat with (Pos.to_nat p + (Pos.to_nat p + 1))%nat by lia.
    rewrite !Nat.iter_add. done.
  - rewrite Pos2Nat.inj_xO. cbn [SpecFloat.iter_pos]. rewrite !IH.
    replace (2 * Pos.to_nat p)%nat with (Pos.to_nat p + Pos.to_nat p)%nat by lia.
    rewrite Nat.iter_add. done.
  - done.
Qed.

Lemma shr_1_m r : 0 ≤ shr_m r → shr_m (shr_1 r) = shr_m r `div` 2.
Proof.
  destruct r as [m b s]. cbn [shr_m]. intros Hm. rewrite <- Z.div2_div.
  destruct m as [|[p|p|]|p]; first [done | lia].
Qed.

Lemma shr_iter_m (k : nat) r :
  0 ≤ shr_m r → shr_m (Nat.iter k shr_1 r) = shr_m r `div` 2 ^ Z.of_nat k.
Proof.
  intros Hm. induction k as [|k IH].
  - simpl. rewrite Z.div_1_r. done.
  - rewrite Nat2Z.inj_succ, Z.pow_succ_r by lia. simpl.
    rewrite shr_1_m.
    + rewrite IH. rewrite Z.div_div by lia. f_equal. lia.
    + rewrite IH. apply Z.div_pos; lia.
Qed.

Lemma shr_iter_exact (k : nat) m :
  0 ≤ m → m `mod` 2 ^ Z.of_nat k = 0 →
  Nat.iter k shr_1 (Build_shr_record m false false)
  = Build_shr_record (m `div` 2 ^ Z.of_nat k) false false.
Proof.
  revert m. induction k as [|k IH]; intros m Hm Hdiv.
  - simpl. rewrite Z.div_1_r. done.
  - rewrite Nat.iter_succ_r.
    rewrite Nat2Z.inj_succ, Z.pow_succ_r in * by lia.
    assert (Hm2 : m `mod` 2 = 0).
    { apply Z.mod_divide; [lia|]. apply Z.mod_divide in Hdiv; [|lia].
      destruct Hdiv as [c ->]. exists (c * 2 ^ Z.of_nat k). lia. }
    assert (Hs : shr_1 (Build_shr_record m false false)
                 = Build_shr_record (m `div` 2) false false).
    { rewrite <- Z.div2_div. rewrite Zmod_odd in Hm2.
      destruct m as [|[p|p|]|p]; first [done | lia]. }
    rewrite Hs. rewrite IH.
    + rewrite Z.div_div by lia. done.
    + apply Z.div_pos; lia.
    + apply Z.mod_divide in Hdiv; [|lia]. destruct Hdiv as [c ->].
      replace (c * (2 * 2 ^ Z.of_nat k)) with (c * 2 ^ Z.of_nat k * 2) by lia.
      rewrite Z.div_mul by lia. apply Z.mod_mul. lia.
Qed.

Lemma fexp_eq e : fexp 53 1024 e = (e - 53) `max` (-1074).
Proof. reflexivity. Qed.

Lemma shr_fexp_no_shift m e :
  fexp 53 1024 (Z.pos (digits2_pos m) + e) ≤ e →
  shr_fexp 53 1024 (Z.pos m) e loc_Exact = (Build_shr_record (Z.pos m) false false, e).
Proof.
  intros H. unfold shr_fexp, shr. cbn [Zdigits2 shr_record_of_loc].
  destruct (fexp 53 1024 (Z.pos (digits2_pos m) + e) - e) eqn:E; first [done | lia].
Qed.

Lemma bra_no_shift s m e :
  fexp 53 1024 (Z.pos (digits2_pos m) + e) ≤ e →
  binary_round_aux 53 1024 s (Z.pos m) e loc_Exact
  = if e <=? 971 then S754_finite s m e else S754_infinity s.
Proof.
  intros H. unfold binary_round_aux.
  rewrite (shr_fexp_no_shift m e H).
  cbn [shr_m loc_of_shr_record round_nearest_even].
  rewrite (shr_fexp_no_shift m e H). done.
Qed.

Lemma digits_mul_pow2 q n m :
  0 ≤ n → Z.pos m = Z.pos q * 2 ^ n →
  Z.pos (digits2_pos m) = Z.pos (digits2_pos q) + n.
Proof.
  intros Hn Hm. rewrite !digits_log2, Hm. rewrite Z.log2_mul_pow2 by lia. lia.
Qed.

Lemma bra_exact_shift s m e n q :
  n = fexp 53 1024 (Z.pos (digits2_pos m) + e) - e → 0 < n →
  Z.pos m = Z.pos q * 2 ^ n →
  binary_round_aux 53 1024 s (Z.pos m) e loc_Exact
  = if e + n <=? 971 then S754_finite s q (e + n) else S754_infinity s.
Proof.
  intros Hn Hpos Hm. unfold binary_round_aux.
  assert (Hs : shr_fexp 53 1024 (Z.pos m) e loc_Exact
               = (Build_shr_record (Z.pos q) false false, e + n)).
  { unfold shr_fexp, shr. cbn [Zdigits2 shr_record_of_loc]. rewrite <- Hn.
    destruct n as [|p|p]; try lia.
    rewrite iter_pos_nat, shr_iter_exact; rewrite ?positive_nat_Z; try lia.
    - rewrite Hm, Z.div_mul by lia. done.
    - rewrite Hm. apply Z.mod_mul. lia. }
  rewrite Hs. cbn [shr_m loc_of_shr_record round_nearest_even].
  rewrite shr_fexp_no_shift.
  - done.
  - rewrite (digits_mul_pow2 q n m) in Hn by lia.
    replace (Z.pos (digits2_pos q) + (e + n)) with (Z.pos (digits2_pos q) + n + e) by lia.
    lia.
Qed.

(** The conversion of a positive integer below 2^53 is exact. *)
Lemma Z2F_exact p :
  Z.pos p < 2 ^ 53 →
  let d := Z.pos (digits2_pos p) in
  ∃ q, Z.pos q = Z.pos p * 2 ^ (53 - d) ∧ Z2F (Z.pos p) = S754_finite false q (d - 53).
Proof.
  intros Hp d.
  assert (Hd : 1 ≤ d ≤ 53).
  { pose proof (digits_bounds p) as [Hlo Hhi]. fold d in Hlo, Hhi. split; [lia|].
    destruct (decide (d ≤ 53)) as [|Hgt]; [done|].
    assert (2 ^ 53 ≤ 2 ^ (d - 1)) by (apply Z.pow_le_mono_r; lia). lia. }
  unfold Z2F, binary_normalize, binary_round.
  rewrite Z.add_0_r. fold d. rewrite fexp_eq.
  replace ((d - 53) `max` (-1074)) with (d - 53) by lia.
  unfold shl_align.
  destruct (d - 53 - 0) as [|k|k] eqn:Ek; try lia.
  - (* d = 53 *)
    exists p. split.
    + replace (53 - d) with 0 by lia. lia.
    + rewrite bra_no_shift.
      * replace (d - 53) with 0 by lia. done.
      * fold d. rewrite fexp_eq. lia.
  - (* d < 53 *)
    exists (Pos.iter xO p k).
    assert (Hv : Z.pos (Pos.iter xO p k) = Z.pos p * 2 ^ (53 - d)).
    { replace (53 - d) with (Z.pos k) by lia.
      rewrite <- Z.shiftl_mul_pow2 by lia. cbn [Z.shiftl].
      apply (Pos.iter_swap_gen _ _ Z.pos xO (Z.mul 2)). done. }
    split; [done|].
    rewrite bra_no_shift.
    + assert ((d - 53 <=? 971) = true) as -> by (apply Z.leb_le; lia). done.
    + rewrite (digits_mul_pow2 p (53 - d) _ ltac:(lia) Hv). fold d. rewrite fexp_eq. lia.
Qed.

Lemma float_of_int_pos p :
  Z.pos p < 2 ^ 53 → float_of_int (Z.pos p) = Ok (Z2F (Z.pos p)).
Proof.
  intros Hp. unfold float_of_int.
  destruct (Z2F_exact p Hp) as (q & _ & ->). done.
Qed.

(** [int(level * 1.5)] is the integer part of [3 * level / 2] as long as
    [3 * level] fits in the 53 bits of a binary64 mantissa. *)
Lemma int_of_level_times_1_5 level :
  1 ≤ level → 3 * level < 2 ^ 53 →
  ∃ x, int_mul_float level (lit 15 10) = Ok x ∧ int_of_float x = Ok ((3 * level) `div` 2).
Proof.
  intros Hlo Hhi. destruct level as [|p|p]; try lia.
  unfold int_mul_float. rewrite float_of_int_pos by lia.
  destruct (Z2F_exact p ltac:(lia)) as (q & Hq & ->).
  set (d := Z.pos (digits2_pos p)) in *.
  set (D := Z.pos (digits2_pos (3 * p))).
  assert (Hd : 2 ^ (d - 1) ≤ Z.pos p < 2 ^ d) by apply digits_bounds.
  assert (HD : 2 ^ (D - 1) ≤ Z.pos (3 * p) < 2 ^ D) by apply digits_bounds.
  assert (Hd1 : 1 ≤ d) by (unfold d; lia).
  assert (H3p : Z.pos (3 * p) = 3 * Z.pos p) by lia.
  assert (HdD : d + 1 ≤ D ≤ 53).
  { split.
    - destruct (decide (d + 1 ≤ D)) as [|Hn]; [done|].
      assert (2 ^ D ≤ 2 ^ d) by (apply Z.pow_le_mono_r; lia).
      assert (2 ^ d = 2 * 2 ^ (d - 1)) by (rewrite <- Z.pow_succ_r by lia; f_equal; lia).
      lia.
    - destruct (decide (D ≤ 53)) as [|Hn]; [done|].
      assert (2 ^ 53 ≤ 2 ^ (D - 1)) by (apply Z.pow_le_mono_r; lia). lia. }
  change (lit 15 10) with (S754_finite false 6755399441055744 (-52)).
  cbn [fmul SFmul xorb].
  set (Q := Z.to_pos (Z.pos (3 * p) * 2 ^ (53 - D))).
  assert (HQ : Z.pos Q = Z.pos (3 * p) * 2 ^ (53 - D)).
  { unfold Q. rewrite Z2Pos.id; [done|]. apply Z.mul_pos_pos; [lia|]. apply Z.pow_pos_nonneg; lia. }
  assert (HM : Z.pos (q * 6755399441055744) = Z.pos Q * 2 ^ (D - d + 51)).
  { rewrite HQ, Pos2Z.inj_mul, Hq. change (Z.pos 6755399441055744) with (3 * 2 ^ 51).
    rewrite Pos2Z.inj_mul.
    replace (Z.pos 3 * Z.pos p * 2 ^ (53 - D) * 2 ^ (D - d + 51))
      with (Z.pos 3 * Z.pos p * (2 ^ (53 - D) * 2 ^ (D - d + 51))) by lia.
    rewrite <- Z.pow_add_r by lia.
    replace (Z.pos p * 2 ^ (53 - d) * (3 * 2 ^ 51))
      with (Z.pos 3 * Z.pos p * (2 ^ (53 - d) * 2 ^ 51)) by lia.
    rewrite <- Z.pow_add_r by lia. do 2 f_equal. lia. }
  assert (HdM : Z.pos (digits2_pos (q * 6755399441055744)) = D + 104 - d).
  { rewrite (digits_mul_pow2 Q (D - d + 51) _ ltac:(lia) HM).
    rewrite (digits_mul_pow2 (3 * p) (53 - D) Q ltac:(lia) HQ). fold D. lia. }
  rewrite (bra_exact_shift false _ _ (D - d + 51) Q).
  - assert (((d - 53 + -52 + (D - d + 51)) <=? 971) = true) as -> by (apply Z.leb_le; lia).
    exists (S754_finite false Q (d - 53 + -52 + (D - d + 51))). split; [done|].
    cbn [int_of_float cond_Zopp]. f_equal.
    rewrite Z.shiftl_div_pow2 by lia. rewrite HQ.
    replace (- (d - 53 + -52 + (D - d + 51))) with (53 - D + 1) by lia.
    rewrite Z.pow_add_r by lia. change (2 ^ 1) with 2.
    rewrite (Z.mul_comm (Z.pos (3 * p))). rewrite Z.div_mul_cancel_l; [|lia|].
    + rewrite Pos2Z.inj_mul. done.
    + apply Z.pow_nonzero; lia.
  - rewrite HdM, fexp_eq. lia.
  - lia.
  - done.
Qed.

Lemma shr_fexp_m m e l r e' :
  shr_fexp 53 1024 (Z.pos m) e l = (r, e') →
  let n := fexp 53 1024 (Z.pos (digits2_pos m) + e) - e in
  (n ≤ 0 → shr_m r = Z.pos m ∧ e' = e) ∧
  (0 < n → shr_m r = Z.pos m `div` 2 ^ n ∧ e' = e + n).
Proof.
  intros H n. unfold shr_fexp, shr in H. cbn [Zdigits2] in H. fold n in H.
  assert (Hm : shr_m (shr_record_of_loc (Z.pos m) l) = Z.pos m)
    by (by destruct l as [|[]]).
  destruct n as [|p|p] eqn:En; inversion H; subst; clear H.
  - split; [done|lia].
  - split; [lia|]. intros _. split; [|done].
    rewrite iter_pos_nat, shr_iter_m by (rewrite Hm; lia).
    rewrite Hm, positive_nat_Z. done.
  - split; [done|lia].
Qed.

Lemma round_nearest_even_bounds m l :
  m ≤ round_nearest_even m l ≤ m + 1.
Proof. destruct l as [|[]]; cbn; try lia. destruct (Z.even m); lia. Qed.

Lemma shiftl_ge_1 m e : 2 ^ 52 ≤ m → -52 ≤ e → 1 ≤ Z.shiftl m e.
Proof.
  intros Hm He. destruct (decide (0 ≤ e)).
  - rewrite Z.shiftl_mul_pow2 by lia.
    assert (0 < 2 ^ e) by (apply Z.pow_pos_nonneg; lia). nia.
  - rewrite Z.shiftl_div_pow2 by lia.
    assert (2 ^ (- e) ≤ 2 ^ 52) by (apply Z.pow_le_mono_r; lia).
    assert (0 < 2 ^ (- e)) by (apply Z.pow_pos_nonneg; lia).
    apply Z.div_le_lower_bound; lia.
Qed.

(** Rounding to binary64 never takes a magnitude of at least 1 below 1. *)
Lemma binary_round_aux_at_least_one s m e :
  1 ≤ Z.pos (digits2_pos m) + e →
  at_least_one s (binary_round_aux 53 1024 s (Z.pos m) e loc_Exact).
Proof.
  intros Hge. set (d := Z.pos (digits2_pos m)) in *.
  pose proof (digits_bounds m) as Hd. fold d in Hd.
  destruct (decide (d ≤ 53)) as [Hsmall|Hbig].
  - (* the mantissa fits: nothing is shifted out *)
    rewrite bra_no_shift by (fold d; rewrite fexp_eq; lia).
    destruct (e <=? 971); [right|left; done].
    exists m, e. split; [done|].
    destruct (decide (0 ≤ e)).
    + rewrite Z.shiftl_mul_pow2 by lia.
      assert (0 < 2 ^ e) by (apply Z.pow_pos_nonneg; lia). nia.
    + rewrite Z.shiftl_div_pow2 by lia.
      assert (2 ^ (- e) ≤ 2 ^ (d - 1)) by (apply Z.pow_le_mono_r; lia).
      assert (0 < 2 ^ (- e)) by (apply Z.pow_pos_nonneg; lia).
      apply Z.div_le_lower_bound; lia.
  - (* [d - 53] bits are shifted out *)
    unfold binary_round_aux.
    destruct (shr_fexp 53 1024 (Z.pos m) e loc_Exact) as [mrs' e'] eqn:H1.
    apply shr_fexp_m in H1. fold d in H1. rewrite fexp_eq in H1.
    destruct H1 as [_ H1]. destruct H1 as [Hm1 He']; [lia|].
    replace ((d + e - 53) `max` (-1074) - e) with (d - 53) in Hm1, He' by lia.
    assert (Hpow : 2 ^ d = 2 ^ 53 * 2 ^ (d - 53))
      by (rewrite <- Z.pow_add_r by lia; f_equal; lia).
    assert (Hpow' : 2 ^ (d - 1) = 2 ^ 52 * 2 ^ (d - 53))
      by (rewrite <- Z.pow_add_r by lia; f_equal; lia).
    assert (Hpos : 0 < 2 ^ (d - 53)) by (apply Z.pow_pos_nonneg; lia).
    assert (Hm1b : 2 ^ 52 ≤ shr_m mrs' < 2 ^ 53).
    { rewrite Hm1. split.
      - apply Z.div_le_lower_bound; lia.
      - apply Z.div_lt_upper_bound; lia. }
    pose proof (round_nearest_even_bounds (shr_m mrs') (loc_of_shr_record mrs')) as Hr.
    destruct (round_nearest_even (shr_m mrs') (loc_of_shr_record mrs')) as [|pr|pr] eqn:Er;
      try lia.
    pose proof (digits_bounds pr) as Hdr. set (dr := Z.pos (digits2_pos pr)) in *.
    destruct (shr_fexp 53 1024 (Z.pos pr) e' loc_Exact) as [mrs'' e''] eqn:H2.
    apply shr_fexp_m in H2. fold dr in H2. rewrite fexp_eq in H2.
    assert (Hdr2 : 53 ≤ dr ≤ 54).
    { split.
      - destruct (decide (53 ≤ dr)) as [|Hn]; [done|].
        assert (2 ^ dr ≤ 2 ^ 52) by (apply Z.pow_le_mono_r; lia). lia.
      - destruct (decide (dr ≤ 54)) as [|Hn]; [done|].
        assert (2 ^ 54 ≤ 2 ^ (dr - 1)) by (apply Z.pow_le_mono_r; lia). lia. }
    replace ((dr + e' - 53) `max` (-1074) - e') with (dr - 53) in H2 by lia.
    assert (Hfin : 2 ^ 52 ≤ shr_m mrs'' ∧ -52 ≤ e'').
    { destruct (decide (dr = 53)) as [->|].
      - destruct H2 as [[-> ->] _]; lia.
      - destruct H2 as [_ [-> ->]]; [lia|]. replace (dr - 53) with 1 by lia.
        split; [|lia].
        assert (2 ^ 53 ≤ Z.pos pr).
        { replace 53 with (dr - 1) by lia. lia. }
        apply Z.div_le_lower_bound; lia. }
    destruct (shr_m mrs'') as [|m2|m2] eqn:Em2; try lia.
    destruct (e'' <=? 1024 - 53); [right|left; done].
    exists m2, e''. split; [done|]. apply shiftl_ge_1; lia.
Qed.

Lemma float_gt_int_1_shape x :
  float_gt_int x 1 = true →
  x = S754_infinity false ∨
  ∃ m e, x = S754_finite false m e ∧ 1 ≤ Z.pos (digits2_pos m) + e
         ∧ 1 ≤ Z.shiftl (Z.pos m) e.
Proof.
  destruct x as [s|s| |s m e]; cbn [float_gt_int]; intros H.
  - apply bool_decide_eq_true in H. lia.
  - destruct s; [done|]. by left.
  - done.
  - right. exists m, e. pose proof (digits_bounds m) as Hd.
    set (d := Z.pos (digits2_pos m)) in *.
    destruct (decide (0 ≤ e)) as [He|He]; apply bool_decide_eq_true in H.
    + destruct s; cbn [cond_Zopp] in H.
      { assert (0 < 2 ^ e) by (apply Z.pow_pos_nonneg; lia). nia. }
      split; [done|]. split; [unfold d; lia|].
      rewrite Z.shiftl_mul_pow2 by lia. lia.
    + destruct s; cbn [cond_Zopp] in H.
      { assert (0 < 2 ^ (- e)) by (apply Z.pow_pos_nonneg; lia). lia. }
      split; [done|].
      assert (0 < 2 ^ (- e)) by (apply Z.pow_pos_nonneg; lia).
      split.
      * destruct (decide (1 ≤ d + e)) as [|Hn]; [done|].
        assert (2 ^ d ≤ 2 ^ (- e)) by (apply Z.pow_le_mono_r; lia). lia.
      * rewrite Z.shiftl_div_pow2 by lia. apply Z.div_le_lower_bound; lia.
Qed.

(** [max(1, x)] is at least 1 once converted to an [int], and so is its
    double. *)
Lemma int_of_max_1 x z : int_of_number (max_1 x) = Ok z → 1 ≤ z.
Proof.
  unfold max_1. destruct (float_gt_int x 1) eqn:Hgt; cbn [int_of_number].
  - apply float_gt_int_1_shape in Hgt as [->|(m & e & -> & _ & Hz)]; [done|].
    cbn. intros [= <-]. done.
  - intros [= <-]. done.
Qed.

Lemma int_of_double_max_1 x z : int_of_number (number_double (max_1 x)) = Ok z → 1 ≤ z.
Proof.
  unfold max_1. destruct (float_gt_int x 1) eqn:Hgt; cbn [int_of_number number_double].
  - apply float_gt_int_1_shape in Hgt as [->|(m & e & -> & Hd & _)]; [done|].
    change (Z2F 2) with (S754_finite false 4503599627370496 (-51)).
    cbn [fmul SFmul xorb].
    destruct (binary_round_aux_at_least_one false (m * 4503599627370496) (e + -51))
      as [->|(m' & e' & -> & Hz)].
    + rewrite (digits_mul_pow2 m 52 (m * 4503599627370496)); [lia|lia|].
      rewrite Pos2Z.inj_mul. done.
    + done.
    + cbn. intros [= <-]. done.
  - intros [= <-]. lia.
Qed.

(** * Binary64 operations stay finite on bounded operands *)

Lemma below_pow2_mono a b x : below_pow2 a x → a ≤ b → below_pow2 b x.
Proof. destruct x; cbn; try done. intros [? ?] ?. split; [done|lia]. Qed.

Lemma shr_fexp_zero e l : shr_m (shr_fexp 53 1024 0 e l).1 = 0.
Proof.
  unfold shr_fexp, shr. cbn [Zdigits2].
  assert (Hm : shr_m (shr_record_of_loc 0 l) = 0) by (by destruct l as [|[]]).
  destruct (fexp 53 1024 (0 + e) - e) as [|p|p]; cbn [fst]; try done.
  rewrite iter_pos_nat, shr_iter_m by (rewrite Hm; lia).
  rewrite Hm. apply Z.div_0_l. apply Z.pow_nonzero; lia.
Qed.

Lemma pow2_le_lt_digits a b : 2 ^ (a - 1) ≤ 2 ^ b → 0 ≤ b → a ≤ b + 1.
Proof.
  intros H Hb. destruct (decide (a ≤ b + 1)) as [|Hn]; [done|].
  assert (2 ^ (b + 1) ≤ 2 ^ (a - 1)) by (apply Z.pow_le_mono_r; lia).
  assert (2 ^ (b + 1) = 2 * 2 ^ b) by (rewrite Z.pow_add_r by lia; lia).
  assert (0 < 2 ^ b) by (apply Z.pow_pos_nonneg; lia). lia.
Qed.

(** Rounding a mantissa that has no digit below the exponent of its format:
    the result is zero or canonical, and its magnitude grows by one binary
    order at most. *)
Lemma binary_round_aux_below s m e k :
  e ≤ fexp 53 1024 (Z.pos (digits2_pos m) + e) →
  Z.pos (digits2_pos m) + e ≤ k → -1074 ≤ k → k ≤ 1023 →
  below_pow2 (k + 1) (binary_round_aux 53 1024 s (Z.pos m) e loc_Exact).
Proof.
  intros Hn Hk Hklo Hkhi. set (d := Z.pos (digits2_pos m)) in *.
  pose proof (digits_bounds m) as Hd. fold d in Hd.
  assert (Hd1 : 1 ≤ d) by (unfold d; lia).
  set (F := fexp 53 1024 (d + e)) in *.
  assert (HF : F = (d + e - 53) `max` (-1074)) by (unfold F; by rewrite fexp_eq).
  unfold binary_round_aux.
  destruct (shr_fexp 53 1024 (Z.pos m) e loc_Exact) as [mrs1 e1] eqn:H1.
  apply shr_fexp_m in H1. fold d F in H1.
  assert (Hm1 : shr_m mrs1 = Z.pos m `div` 2 ^ (F - e) ∧ e1 = F).
  { destruct (decide (F - e ≤ 0)).
    - destruct H1 as [[-> ->] _]; [done|]. replace (F - e) with 0 by lia.
      rewrite Z.div_1_r. split; [done|lia].
    - destruct H1 as [_ [-> ->]]; [lia|]. split; [done|lia]. }
  clear H1. destruct Hm1 as [Hm1 ->].
  set (q := (d + e - F) `max` 0).
  assert (Hq : 0 ≤ q ≤ 53) by lia.
  assert (Hm1b : 0 ≤ shr_m mrs1 < 2 ^ q).
  { rewrite Hm1. split; [apply Z.div_pos; [lia|apply Z.pow_pos_nonneg; lia]|].
    apply Z.div_lt_upper_bound; [apply Z.pow_pos_nonneg; lia|].
    rewrite <- Z.pow_add_r by lia.
    assert (2 ^ d ≤ 2 ^ (F - e + q)) by (apply Z.pow_le_mono_r; lia). lia. }
  pose proof (round_nearest_even_bounds (shr_m mrs1) (loc_of_shr_record mrs1)) as Hr.
  destruct (round_nearest_even (shr_m mrs1) (loc_of_shr_record mrs1)) as [|pr|pr] eqn:Er;
    [| |lia].
  - (* rounded to zero *)
    pose proof (shr_fexp_zero F loc_Exact) as Hz.
    destruct (shr_fexp 53 1024 0 F loc_Exact) as [mrs2 e2]. cbn [fst] in Hz.
    by rewrite Hz.
  - pose proof (digits_bounds pr) as Hdr. set (dr := Z.pos (digits2_pos pr)) in *.
    assert (Hdr1 : 1 ≤ dr) by (unfold dr; lia).
    assert (Hdrq : dr ≤ q + 1).
    { apply pow2_le_lt_digits; [|lia]. lia. }
    destruct (shr_fexp 53 1024 (Z.pos pr) F loc_Exact) as [mrs2 e2] eqn:H2.
    apply shr_fexp_m in H2. fold dr in H2. rewrite fexp_eq in H2.
    destruct (decide (dr = 54)) as [Hcarry|Hnocarry].
    + (* the rounding carried into a 54th digit *)
      assert (Hq53 : q = 53) by lia.
      assert (HF' : F = d + e - 53) by lia.
      destruct H2 as [_ [Hm2 ->]]; [lia|].
      replace ((dr + F - 53) `max` (-1074) - F) with 1 in * by lia.
      assert (Hpr : Z.pos pr = 2 ^ 53).
      { rewrite Hq53 in Hm1b. rewrite Hcarry in Hdr.
        change (2 ^ (54 - 1)) with (2 ^ 53) in Hdr. lia. }
      rewrite Hm2, Hpr. change (2 ^ 53 `div` 2 ^ 1) with (Z.pos 4503599627370496).
      assert (((F + 1) <=? 1024 - 53) = true) as -> by (apply Z.leb_le; lia).
      cbn. rewrite fexp_eq. split; lia.
    + assert (Hdr53 : dr ≤ 53) by lia.
      assert (Hno : (dr + F - 53) `max` (-1074) - F ≤ 0) by lia.
      destruct H2 as [[-> ->] _]; [done|].
      assert ((F <=? 1024 - 53) = true) as -> by (apply Z.leb_le; lia).
      cbn. fold dr. rewrite fexp_eq. split; [|lia].
      destruct (decide (F = -1074)); [lia|].
      (* normal range: the quotient kept all of its 53 digits *)
      assert (HF' : F = d + e - 53) by lia.
      assert (Hlow : 2 ^ 52 ≤ shr_m mrs1).
      { rewrite Hm1. apply Z.div_le_lower_bound; [apply Z.pow_pos_nonneg; lia|].
        rewrite <- Z.pow_add_r by lia.
        replace (F - e + 52) with (d - 1) by lia. lia. }
      assert (53 ≤ dr).
      { destruct (decide (53 ≤ dr)) as [|Hlt]; [done|].
        assert (2 ^ dr ≤ 2 ^ 52) by (apply Z.pow_le_mono_r; lia). lia. }
      lia.
Qed.

Lemma pos_iter_xO p k : Z.pos (Pos.iter xO p k) = Z.pos p * 2 ^ Z.pos k.
Proof.
  rewrite <- Z.shiftl_mul_pow2 by lia. cbn [Z.shiftl].
  apply (Pos.iter_swap_gen _ _ Z.pos xO (Z.mul 2)). done.
Qed.

Lemma binary_round_below s p e k :
  Z.pos (digits2_pos p) + e ≤ k → -1074 ≤ k → k ≤ 1023 →
  below_pow2 (k + 1) (binary_round 53 1024 s p e).
Proof.
  intros Hk Hklo Hkhi. unfold binary_round, shl_align.
  set (d := Z.pos (digits2_pos p)) in *.
  destruct (fexp 53 1024 (d + e) - e) as [|n|n] eqn:En.
  - apply binary_round_aux_below; fold d; lia.
  - apply binary_round_aux_below; fold d; lia.
  - assert (Hd : Z.pos (digits2_pos (Pos.iter xO p n)) = d + Z.pos n).
    { apply (digits_mul_pow2 p); [lia|apply pos_iter_xO]. }
    apply binary_round_aux_below; rewrite ?Hd; try lia.
    replace (d + Z.pos n + fexp 53 1024 (d + e)) with (d + e) by lia. lia.
Qed.

Lemma digits_le_of_lt p n : 0 ≤ n → Z.pos p < 2 ^ n → Z.pos (digits2_pos p) ≤ n.
Proof.
  intros Hn Hp. pose proof (digits_bounds p) as Hd.
  destruct (decide (Z.pos (digits2_pos p) ≤ n)) as [|Hgt]; [done|].
  assert (2 ^ n ≤ 2 ^ (Z.pos (digits2_pos p) - 1)) by (apply Z.pow_le_mono_r; lia). lia.
Qed.

Lemma binary_normalize_below z e k sz :
  Z.abs z < 2 ^ (k - e) → e ≤ k → -1074 ≤ k → k ≤ 1023 →
  below_pow2 (k + 1) (binary_normalize 53 1024 z e sz).
Proof.
  intros Hz He Hklo Hkhi. destruct z as [|p|p]; cbn [binary_normalize]; [done| |].
  - apply binary_round_below; try lia.
    pose proof (digits_le_of_lt p (k - e) ltac:(lia) ltac:(lia)). lia.
  - apply binary_round_below; try lia.
    pose proof (digits_le_of_lt p (k - e) ltac:(lia) ltac:(lia)). lia.
Qed.

Lemma Z2F_below z k :
  Z.abs z < 2 ^ k → 0 ≤ k ≤ 1023 → below_pow2 (k + 1) (Z2F z).
Proof.
  intros Hz Hk. unfold Z2F. apply binary_normalize_below; try lia.
  by rewrite Z.sub_0_r.
Qed.

Lemma below_pow2_finite k x : below_pow2 k x → k ≤ 1024 → is_finite x = true.
Proof. by destruct x. Qed.

Lemma float_of_int_below z k :
  Z.abs z < 2 ^ k → 0 ≤ k ≤ 1023 →
  float_of_int z = Ok (Z2F z) ∧ below_pow2 (k + 1) (Z2F z).
Proof.
  intros Hz Hk. pose proof (Z2F_below z k Hz Hk) as Hb. split; [|done].
  unfold float_of_int. by rewrite (below_pow2_finite _ _ Hb) by lia.
Qed.

Lemma digits_mul mx my :
  Z.pos (digits2_pos mx) + Z.pos (digits2_pos my) - 1 ≤ Z.pos (digits2_pos (mx * my))
  ≤ Z.pos (digits2_pos mx) + Z.pos (digits2_pos my).
Proof.
  pose proof (digits_bounds mx) as Hx. pose proof (digits_bounds my) as Hy.
  pose proof (digits_bounds (mx * my)) as Hxy. rewrite Pos2Z.inj_mul in Hxy.
  set (dx := Z.pos (digits2_pos mx)) in *. set (dy := Z.pos (digits2_pos my)) in *.
  set (D := Z.pos (digits2_pos (mx * my))) in *.
  assert (1 ≤ dx ∧ 1 ≤ dy ∧ 1 ≤ D) as (? & ? & ?) by (unfold dx, dy, D; lia).
  assert (Hlo : 2 ^ (dx - 1) * 2 ^ (dy - 1) ≤ Z.pos mx * Z.pos my) by nia.
  assert (Hhi : Z.pos mx * Z.pos my < 2 ^ dx * 2 ^ dy) by nia.
  rewrite <- Z.pow_add_r in Hlo, Hhi by lia.
  split.
  - destruct (decide (dx + dy - 1 ≤ D)) as [|Hn]; [done|].
    assert (2 ^ D ≤ 2 ^ (dx - 1 + (dy - 1))) by (apply Z.pow_le_mono_r; lia). lia.
  - destruct (decide (D ≤ dx + dy)) as [|Hn]; [done|].
    assert (2 ^ (dx + dy) ≤ 2 ^ (D - 1)) by (apply Z.pow_le_mono_r; lia). lia.
Qed.

Lemma fmul_below a b x y :
  below_pow2 a x → below_pow2 b y → -1074 ≤ a + b → a + b ≤ 1023 →
  below_pow2 (a + b + 1) (fmul x y).
Proof.
  intros Hx Hy Hlo Hhi.
  destruct x as [sx|sx| |sx mx ex], y as [sy|sy| |sy my ey]; try done.
  cbn [fmul SFmul]. destruct Hx as [Hcx Hbx], Hy as [Hcy Hby].
  rewrite fexp_eq in Hcx, Hcy.
  pose proof (digits_mul mx my) as HD.
  assert (1 ≤ Z.pos (digits2_pos mx) ∧ 1 ≤ Z.pos (digits2_pos my)) as [? ?] by lia.
  apply binary_round_aux_below; rewrite ?fexp_eq; lia.
Qed.

Lemma shl_align_fst mx ex ez :
  ez ≤ ex → Z.pos (shl_align mx ex ez).1 = Z.pos mx * 2 ^ (ex - ez).
Proof.
  intros He. unfold shl_align. destruct (ez - ex) as [|n|n] eqn:En; cbn [fst]; try lia.
  - replace (ex - ez) with 0 by lia. lia.
  - rewrite pos_iter_xO. f_equal. f_equal. lia.
Qed.

Lemma aligned_below m e ez k :
  ez ≤ e → Z.pos (digits2_pos m) + e ≤ k →
  Z.pos (shl_align m e ez).1 < 2 ^ (k - ez).
Proof.
  intros He Hk. rewrite shl_align_fst by done.
  pose proof (digits_bounds m) as [_ Hd].
  assert (0 < 2 ^ (e - ez)) by (apply Z.pow_pos_nonneg; lia).
  assert (2 ^ Z.pos (digits2_pos m) * 2 ^ (e - ez) ≤ 2 ^ (k - ez)).
  { rewrite <- Z.pow_add_r by lia. apply Z.pow_le_mono_r; lia. }
  nia.
Qed.

(** The exact sum or difference of two aligned mantissas. *)
Lemma aligned_sum_below a b k x y ez :
  0 ≤ x < 2 ^ (a - ez) → 0 ≤ y < 2 ^ (b - ez) → a `max` b + 1 = k → ez ≤ a → ez ≤ b →
  ∀ sx sy, Z.abs (cond_Zopp sx x + cond_Zopp sy y) < 2 ^ (k - ez)
           ∧ Z.abs (cond_Zopp sx x - cond_Zopp sy y) < 2 ^ (k - ez).
Proof.
  intros Hx Hy Hk Ha Hb sx sy.
  assert (2 ^ (a - ez) ≤ 2 ^ (k - ez - 1)) by (apply Z.pow_le_mono_r; lia).
  assert (2 ^ (b - ez) ≤ 2 ^ (k - ez - 1)) by (apply Z.pow_le_mono_r; lia).
  assert (2 ^ (k - ez) = 2 * 2 ^ (k - ez - 1)).
  { rewrite <- Z.pow_succ_r by lia. f_equal. lia. }
  destruct sx, sy; cbn [cond_Zopp]; lia.
Qed.

Lemma fadd_fsub_below a b k x y :
  below_pow2 a x → below_pow2 b y → a `max` b + 1 = k → -1074 ≤ k → k ≤ 1023 →
  below_pow2 (k + 1) (fadd x y) ∧ below_pow2 (k + 1) (fsub x y).
Proof.
  intros Hx Hy Hk Hlo Hhi.
  destruct x as [sx|sx| |sx mx ex], y as [sy|sy| |sy my ey]; try done.
  - cbn. by destruct sx, sy.
  - cbn. destruct Hy as [? ?]. repeat split; try done; lia.
  - cbn. destruct Hx as [? ?]. repeat split; try done; lia.
  - cbn [fadd SFadd fsub SFsub]. destruct Hx as [Hcx Hbx], Hy as [Hcy Hby].
    set (ez := ex `min` ey).
    pose proof (aligned_below mx ex ez a ltac:(lia) Hbx) as Hmx.
    pose proof (aligned_below my ey ez b ltac:(lia) Hby) as Hmy.
    assert (1 ≤ Z.pos (digits2_pos mx) ∧ 1 ≤ Z.pos (digits2_pos my)) as [? ?] by lia.
    destruct (aligned_sum_below a b k (Z.pos (shl_align mx ex ez).1)
                (Z.pos (shl_align my ey ez).1) ez ltac:(lia) ltac:(lia) Hk ltac:(lia)
                ltac:(lia) sx sy) as [Hadd Hsub].
    split; apply binary_normalize_below; try done; lia.
Qed.

Lemma fadd_below a b k x y :
  below_pow2 a x → below_pow2 b y → a `max` b + 1 = k → -1074 ≤ k → k ≤ 1023 →
  below_pow2 (k + 1) (fadd x y).
Proof. intros. by eapply fadd_fsub_below. Qed.

Lemma fsub_below a b k x y :
  below_pow2 a x → below_pow2 b y → a `max` b + 1 = k → -1074 ≤ k → k ≤ 1023 →
  below_pow2 (k + 1) (fsub x y).
Proof. intros. by eapply fadd_fsub_below. Qed.

(** [int(x)] of a bounded float is a bounded int. *)
Lemma int_of_float_below k x :
  below_pow2 k x → 0 ≤ k → ∃ z, int_of_float x = Ok z ∧ Z.abs z < 2 ^ k.
Proof.
  intros Hx Hk. assert (0 < 2 ^ k) by (apply Z.pow_pos_nonneg; lia).
  destruct x as [s|s| |s m e]; try done.
  - exists 0. split; [done|]. cbn. lia.
  - destruct Hx as [_ Hb]. eexists. split; [done|].
    pose proof (digits_bounds m) as [_ Hd]. set (d := Z.pos (digits2_pos m)) in *.
    assert (Habs : ∀ v, 0 ≤ v → Z.abs (cond_Zopp s v) = v) by (intros v ?; destruct s; cbn; lia).
    destruct (decide (0 ≤ e)).
    + rewrite Z.shiftl_mul_pow2 by lia.
      assert (0 < 2 ^ e) by (apply Z.pow_pos_nonneg; lia).
      rewrite Habs by nia.
      assert (2 ^ d * 2 ^ e ≤ 2 ^ k).
      { rewrite <- Z.pow_add_r by (unfold d; lia). apply Z.pow_le_mono_r; lia. }
      nia.
    + rewrite Z.shiftl_div_pow2 by lia.
      assert (0 < 2 ^ (- e)) by (apply Z.pow_pos_nonneg; lia).
      rewrite Habs by (apply Z.div_pos; lia).
      apply Z.div_lt_upper_bound; [done|].
      destruct (decide (0 ≤ d + e)).
      * assert (2 ^ d ≤ 2 ^ (- e) * 2 ^ k).
        { rewrite <- Z.pow_add_r by lia. apply Z.pow_le_mono_r; lia. }
        lia.
      * assert (2 ^ d ≤ 2 ^ (- e)) by (apply Z.pow_le_mono_r; unfold d; lia).
        nia.
Qed.

(** [z * c] and [z + c] for a bounded int [z] and a bounded float [c]. *)
Lemma int_mul_float_below z k c b :
  Z.abs z < 2 ^ k → 0 ≤ k ≤ 1023 → below_pow2 b c →
  -1074 ≤ k + 1 + b → k + 1 + b ≤ 1023 →
  ∃ x, int_mul_float z c = Ok x ∧ below_pow2 (k + b + 2) x.
Proof.
  intros Hz Hk Hc Hlo Hhi. unfold int_mul_float.
  destruct (float_of_int_below z k Hz ltac:(lia)) as [-> Hb].
  eexists. split; [done|].
  replace (k + b + 2) with (k + 1 + b + 1) by lia. by apply fmul_below.
Qed.

Lemma int_add_float_below z k c b n :
  Z.abs z < 2 ^ k → 0 ≤ k → below_pow2 b c → (k + 1) `max` b + 1 = n → n ≤ 1023 →
  ∃ x, int_add_float z c = Ok x ∧ below_pow2 (n + 1) x.
Proof.
  intros Hz Hk Hc Hn Hhi. unfold int_add_float.
  destruct (float_of_int_below z k Hz ltac:(lia)) as [-> Hb].
  eexists. split; [done|]. eapply fadd_below; try done. lia.
Qed.

(** * Reasoning in the monad *)

Lemma bind_Ok {S A B} (m : M S A) (f : A → M S B) s b s' :
  (m ≫= f) s = (Ok b, s') → ∃ a s1, m s = (Ok a, s1) ∧ f a s1 = (Ok b, s').
Proof.
  unfold mbind, M_bind. destruct (m s) as [[a|e] s1]; [eauto|done].
Qed.

Lemma bind_run {S A B} (m : M S A) (f : A → M S B) s a s1 :
  m s = (Ok a, s1) → (m ≫= f) s = f a s1.
Proof. unfold mbind, M_bind. by intros ->. Qed.

Lemma bind_raise {S A B} (m : M S A) (f : A → M S B) s e s1 :
  m s = (Raise e, s1) → (m ≫= f) s = (Raise e, s1).
Proof. unfold mbind, M_bind. by intros ->. Qed.

Lemma lift_result_Ok {S A} (r : result A) (s s' : S) a :
  lift_result r s = (Ok a, s') → r = Ok a ∧ s' = s.
Proof. unfold lift_result. by intros [= -> ->]. Qed.

Lemma lift_result_run {S A} (a : A) (s : S) : lift_result (Ok a) s = (Ok a, s).
Proof. done. Qed.

Lemma lift_result_raise {S A} (e : exn) (s : S) :
  lift_result (Raise e : result A) s = (Raise e, s).
Proof. done. Qed.

Lemma lift_result_bind {S A B} (r : result A) (k : A → M S B) (s : S) a :
  r = Ok a → (lift_result r ≫= k) s = k a s.
Proof. by intros ->. Qed.

Lemma ret_bind {S A B} (a : A) (k : A → M S B) (s : S) : (mret a ≫= k) s = k a s.
Proof. done. Qed.

Lemma pair_Ok_inj {S A} (a b : A) (s s' : S) :
  (Ok a, s) = (Ok b, s') → a = b ∧ s = s'.
Proof. by intros [= -> ->]. Qed.

Lemma mret_Ok {S A} (a b : A) (s s' : S) :
  (mret a : M S A) s = (Ok b, s') → b = a ∧ s' = s.
Proof. by intros [= -> ->]. Qed.

Lemma result_bind_Ok {A B} (r : result A) (f : A → result B) b :
  r ≫= f = Ok b → ∃ a, r = Ok a ∧ f a = Ok b.
Proof. destruct r; [eauto|done]. Qed.

(** Take a successful run apart, one step at a time. *)
Ltac step H :=
  lazymatch type of H with
  | (_ ≫= _) _ = (Ok _, _) =>
      let a := fresh "a" in let s := fresh "s" in let Ha := fresh "Hstep" in
      apply bind_Ok in H as (a & s & Ha & H)
  | (_ ≫= _) = Ok _ =>
      let a := fresh "a" in let Ha := fresh "Hstep" in
      apply result_bind_Ok in H as (a & Ha & H)
  end.

Ltac steps H := repeat step H.

(** Unfold the monad's plumbing, and nothing else. *)
Ltac run :=
  cbv beta iota zeta delta
    [mbind M_bind result_bind lift_result mret M_ret result_ret random_random fst snd].

Ltac case_result :=
  match goal with
  | |- context [match ?x with Ok _ => _ | Raise _ => _ end] =>
      lazymatch x with
      | Ok _ => fail
      | Raise _ => fail
      | _ => destruct x eqn:?
      end
  end.

(** ** The random source *)

Lemma random_random_run g : random_random g = (Ok (next_random g), advance g).
Proof. done. Qed.

Lemma random_randint_run a b g :
  a ≤ b → random_randint a b g = (Ok (a + g 0%nat `mod` (b - a + 1)), advance g).
Proof. intros Hab. unfold random_randint. by rewrite decide_True. Qed.

Lemma random_randint_range a b g n g' :
  random_randint a b g = (Ok n, g') → a ≤ n ≤ b ∧ g' = advance g.
Proof.
  unfold random_randint. case_decide; [|done]. intros [= <- <-].
  pose proof (Z.mod_pos_bound (g 0%nat) (b - a + 1) ltac:(lia)). split; [lia|done].
Qed.

Lemma random_choice_run {A} (seq : list A) g :
  seq ≠ [] → ∃ a, random_choice seq g = (Ok a, advance g) ∧ a ∈ seq.
Proof.
  intros Hne. unfold random_choice.
  assert (Hlen : (0 < length seq)%nat) by (destruct seq; [done|simpl; lia]).
  pose proof (Z.mod_pos_bound (g 0%nat) (Z.of_nat (length seq)) ltac:(lia)) as Hb.
  destruct (lookup_lt_is_Some_2 seq (Z.to_nat (g 0%nat `mod` Z.of_nat (length seq))))
    as [a Ha]; [lia|].
  rewrite Ha, decide_False by done. exists a. split; [done|].
  by eapply list_elem_of_lookup_2.
Qed.

Lemma random_choice_Ok {A} (seq : list A) g a g' :
  random_choice seq g = (Ok a, g') → a ∈ seq ∧ g' = advance g.
Proof.
  unfold random_choice.
  destruct (seq !! _) as [b|] eqn:Hb; [|done]. case_decide; [done|].
  intros [= <- <-]. split; [|done]. by eapply list_elem_of_lookup_2.
Qed.

(** * CombatSystem.calculate_damage *)

Lemma spec_damage_at_least_one b dt a d c z : spec_damage b dt a d c = Ok z → 1 ≤ z.
Proof.
  unfold spec_damage. intros H. steps H. destruct c.
  - by apply int_of_double_max_1 in H.
  - by apply int_of_max_1 in H.
Qed.

(** [calculate_damage] returns what the formula gives, and raises when, and
    only when, the formula does. *)
Lemma calculate_damage_spec b dt a d crit g :
  match spec_damage b dt a d (flt (next_random g) crit) with
  | Ok z =>
      ∃ r g', CombatSystem.calculate_damage b dt a d crit g = (Ok r, g')
              ∧ DamageResult.damage r = z
              ∧ DamageResult.is_critical r = flt (next_random g) crit
              ∧ DamageResult.damage_type r = dt
  | Raise e => ∃ g', CombatSystem.calculate_damage b dt a d crit g = (Raise e, g')
  end.
Proof.
  unfold spec_damage, CombatSystem.calculate_damage, next_random.
  run. destruct (float_of_int b) as [base|e]; [|by eexists].
  assert (Hv : ∀ x c y,
    ∃ v, number_mul_float (if c : bool then number_double (max_1 x) else max_1 x) y = Ok v).
  { intros x c y. unfold max_1. destruct c, (float_gt_int x 1); cbn; eauto. }
  destruct dt; run; repeat (case_result; run); simplify_eq; try (by eexists).
  all: rewrite (random_randint_run 1000 9999) by lia; run.
  all: repeat match goal with
              | |- context [if ?c then _ else _] =>
                  lazymatch c with flt _ (lit _ _) => destruct c end
              end.
  all: repeat match goal with
              | |- context [number_mul_float (if ?c then number_double (max_1 ?x) else _) ?y] =>
                  destruct (Hv x c y) as [? ->]
              end.
  all: try (by eexists _, _).
  all: match goal with
       | H : number_mul_float (if ?c then number_double (max_1 ?x) else _) ?y = Raise _ |- _ =>
           destruct (Hv x c y) as [? Hv']; rewrite Hv' in H; done
       end.
Qed.

(** The formula is exact where binary64 is: 45 * 0.7 is a little less than
    31.5 in binary64, and the damage of a fire attack follows it. *)
Example spec_damage_fire :
  spec_damage 0 DamageType.FIRE (Stats.mk 10 10 45 10) (Stats.mk 10 10 10 5) false = Ok 29.
Proof. vm_compute. reflexivity. Qed.

(** ** [calculate_damage] returns on all inputs below 2^1000 *)

Lemma within_mono a b z : within a z → a ≤ b → within b z.
Proof.
  unfold within. intros Hz Hab.
  assert (2 ^ a ≤ 2 ^ b) by (apply Z.pow_le_mono_r; lia). lia.
Qed.

Lemma within_affine k a c z :
  0 ≤ k → within k z → Z.abs a + Z.abs c < 1024 → within (k + 10) (a + z * c).
Proof.
  unfold within. intros Hk Hz Hac.
  rewrite Z.pow_add_r by lia. change (2 ^ 10) with 1024.
  assert (0 < 2 ^ k) by (apply Z.pow_pos_nonneg; lia).
  assert (Z.abs (z * c) ≤ 2 ^ k * Z.abs c) by (rewrite Z.abs_mul; nia).
  nia.
Qed.

Lemma within_add k a z :
  0 ≤ k → within k z → Z.abs a < 1023 → within (k + 10) (a + z).
Proof.
  intros Hk Hz Ha. rewrite <- (Z.mul_1_r z). apply within_affine; [done|done|lia].
Qed.

(** A closed float is canonical and below a closed bound. *)
Ltac below_closed := vm_compute; split; [reflexivity|intros ?; discriminate].

Ltac in_list := rewrite !elem_of_cons; auto 20.

(** The literals of the source are canonical and smaller than 1. *)
Lemma lit_below_1 n d :
  (n, d) ∈ [(1, 10); (2, 10); (3, 10); (4, 10); (5, 10); (6, 10); (7, 10); (8, 10);
            (5, 100); (95, 100); (99, 100)] →
  below_pow2 0 (lit n d).
Proof.
  rewrite !elem_of_cons, elem_of_nil.
  intros H; repeat (destruct H as [[= -> ->]|H]; [below_closed|]); done.
Qed.

Lemma spec_damage_total b dt a d c :
  within 1000 b → stats_within 1000 a → stats_within 1000 d →
  ∃ z, spec_damage b dt a d c = Ok z.
Proof.
  intros Hb (Hstr & Hint & _) (_ & _ & Hvit). unfold spec_damage.
  destruct (float_of_int_below b 1000 Hb ltac:(lia)) as [-> Hbase].
  cbn [mbind result_bind].
  assert (H05 : below_pow2 0 (lit 5 10)) by (apply lit_below_1; in_list).
  assert (H07 : below_pow2 0 (lit 7 10)) by (apply lit_below_1; in_list).
  assert (H03 : below_pow2 0 (lit 3 10)) by (apply lit_below_1; in_list).
  destruct (int_mul_float_below _ 1000 _ 0 Hstr ltac:(lia) H05 ltac:(lia) ltac:(lia))
    as (xs & Hxs & Hbs).
  destruct (int_mul_float_below _ 1000 _ 0 Hint ltac:(lia) H07 ltac:(lia) ltac:(lia))
    as (xi & Hxi & Hbi).
  destruct (int_mul_float_below _ 1000 _ 0 Hvit ltac:(lia) H03 ltac:(lia) ltac:(lia))
    as (xv & Hxv & Hbv).
  assert (∃ total,
    match dt with
    | DamageType.PHYSICAL =>
        int_mul_float (Stats.strength a) (lit 5 10) ≫= λ bonus, Ok (fadd (Z2F b) bonus)
    | DamageType.POISON => Ok (Z2F b)
    | _ => int_mul_float (Stats.intelligence a) (lit 7 10) ≫= λ bonus, Ok (fadd (Z2F b) bonus)
    end = Ok total ∧ below_pow2 1004 total) as (total & -> & Htotal).
  { destruct dt; rewrite ?Hxs, ?Hxi; cbn [mbind result_bind]; eexists; (split; [done|]).
    all: try (eapply (fadd_below 1001 1002 1003); [done|done|lia|lia|lia]).
    eapply below_pow2_mono; [done|lia]. }
  cbn [mbind result_bind]. rewrite Hxv. cbn [mbind result_bind].
  assert (Hx : below_pow2 1006 (fsub total xv))
    by (eapply (fsub_below 1004 1002 1005); [done|done|lia|lia|lia]).
  assert (H2 : below_pow2 2 (Z2F 2)) by below_closed.
  assert (Hxx : below_pow2 1009 (fmul (fsub total xv) (Z2F 2)))
    by (apply (fmul_below 1006 2); [done|done|lia|lia]).
  unfold max_1.
  destruct c, (float_gt_int _ 1); cbn [number_double int_of_number].
  - destruct (int_of_float_below _ _ Hxx ltac:(lia)) as (z & -> & _). by eexists.
  - by eexists.
  - destruct (int_of_float_below _ _ Hx ltac:(lia)) as (z & -> & _). by eexists.
  - by eexists.
Qed.

(** On inputs below 2^1000 [calculate_damage] returns, and what it returns
    is the damage of the formula. *)
Lemma calculate_damage_total b dt a d crit g :
  within 1000 b → stats_within 1000 a → stats_within 1000 d →
  ∃ r, CombatSystem.calculate_damage b dt a d crit g
       = (Ok r, (CombatSystem.calculate_damage b dt a d crit g).2)
       ∧ 1 ≤ DamageResult.damage r.
Proof.
  intros Hb Ha Hd.
  destruct (spec_damage_total b dt a d (flt (next_random g) crit) Hb Ha Hd) as [z Hz].
  pose proof (calculate_damage_spec b dt a d crit g) as Hspec. rewrite Hz in Hspec.
  destruct Hspec as (r & g' & Hrun & Hdmg & _). exists r. rewrite Hrun. split; [done|].
  rewrite Hdmg. by eapply spec_damage_at_least_one.
Qed.

(** * CombatSystem.simulate_combat *)

Create HintDb read_only.

Section Combat.
Import CombatSystem.

(** ** The loop runs at most 100 times *)

Lemma gets_Ok {S A} (f : S → A) (s s' : S) a :
  gets f s = (Ok a, s') → a = f s ∧ s' = s.
Proof. by intros [= <- <-]. Qed.

Lemma gets_run {S A B} (f : S → A) (k : A → M S B) (s : S) :
  (gets f ≫= k) s = k (f s) s.
Proof. done. Qed.

Lemma loop_body_Ok l w l' w' :
  loop_body l w = (Ok l', w') →
  round_num l' = round_num l + 1
  ∧ length (rounds l') = S (length (rounds l)).
Proof.
  unfold loop_body. intros H. steps H.
  destruct (bool_decide _).
  - steps H. apply mret_Ok in H as [-> _]. cbn. rewrite length_app. cbn. lia.
  - apply mret_Ok in H as [-> _]. cbn. rewrite length_app. cbn. lia.
Qed.

Lemma while_loop_Ok fuel l w l' w' :
  while_loop fuel l w = (Ok l', w') →
  round_num l ≤ round_num l' ≤ round_num l + Z.of_nat fuel
  ∧ Z.of_nat (length (rounds l')) - Z.of_nat (length (rounds l))
    = round_num l' - round_num l
  ∧ (100 ≤ round_num l + Z.of_nat fuel → loop_condition l' = false).
Proof.
  revert l w. induction fuel as [|fuel IH]; intros l w H.
  - apply mret_Ok in H as [-> _]. split; [lia|]. split; [lia|].
    intros Hr. unfold loop_condition.
    rewrite (bool_decide_eq_false_2 (round_num l < 100)) by lia.
    by rewrite andb_false_r.
  - cbn [while_loop] in H. destruct (loop_condition l) eqn:Hc.
    + step H. apply loop_body_Ok in Hstep as [Hr Hlen].
      apply IH in H as (Hb & Hl & Hexit).
      split; [lia|]. split; [lia|]. intros ?. apply Hexit. lia.
    + apply mret_Ok in H as [-> _]. split; [lia|]. split; [lia|]. done.
Qed.

(** Fuel beyond the 100 iterations that the loop condition allows is
    never used. *)
Lemma while_loop_more_fuel fuel extra l w :
  100 ≤ round_num l + Z.of_nat fuel →
  while_loop (fuel + extra) l w = while_loop fuel l w.
Proof.
  revert l w. induction fuel as [|fuel IH]; intros l w Hr.
  - assert (Hc : loop_condition l = false).
    { unfold loop_condition.
      rewrite (bool_decide_eq_false_2 (round_num l < 100)) by lia.
      by rewrite andb_false_r. }
    destruct extra; cbn [while_loop Nat.add]; [done|]. by rewrite Hc.
  - cbn [while_loop Nat.add]. destruct (loop_condition l); [|done].
    destruct (loop_body l w) as [[l1|e] w1] eqn:Hb.
    + rewrite !(bind_run _ _ _ _ _ Hb). apply IH.
      apply loop_body_Ok in Hb. lia.
    + by rewrite !(bind_raise _ _ _ _ _ Hb).
Qed.

(** ** The arguments are only read *)

Lemma read_only_ret {A} (a : A) : read_only (mret a).
Proof. done. Qed.

Lemma read_only_gets {A} (f : world → A) : read_only (gets f).
Proof. done. Qed.

Lemma read_only_with_random {A} (m : M rng A) : read_only (with_random m).
Proof. intros w. unfold with_random, zoom. by destruct (m (random w)). Qed.

Lemma read_only_bind {A B} (m : M world A) (f : A → M world B) :
  read_only m → (∀ a, read_only (f a)) → read_only (m ≫= f).
Proof.
  intros Hm Hf w. unfold mbind, M_bind.
  specialize (Hm w). destruct (m w) as [[a|e] w1]; cbn in *; [|done].
  destruct (Hf a w1) as [-> ->]. done.
Qed.

Lemma read_only_if {A} (c : bool) (m1 m2 : M world A) :
  read_only m1 → read_only m2 → read_only (if c then m1 else m2).
Proof. by destruct c. Qed.

Local Hint Resolve read_only_ret read_only_gets read_only_with_random : read_only.

Ltac read_only :=
  repeat first
    [ apply read_only_bind; [|intros ?]
    | apply read_only_if
    | solve [auto with read_only] ].

Lemma loop_body_read_only l : read_only (loop_body l).
Proof. unfold loop_body. read_only. Qed.

Lemma while_loop_read_only fuel l : read_only (while_loop fuel l).
Proof.
  revert l. induction fuel as [|fuel IH]; intros l; cbn [while_loop].
  - read_only.
  - read_only; first [apply loop_body_read_only | apply IH].
Qed.

Lemma simulate_combat_read_only : read_only simulate_combat.
Proof. unfold simulate_combat. read_only; apply while_loop_read_only. Qed.

(** ** What [simulate_combat] returns *)

Lemma simulate_combat_Ok w r w' :
  simulate_combat w = (Ok r, w') →
  ∃ l, while_loop 100 (Locals [] (Player.health (player w)) (Enemy.health (enemy w)) 0) w
       = (Ok l, w')
       ∧ r = CombatResult.mk (bool_decide (player_health l > 0)) (round_num l)
               (0 `max` player_health l) (0 `max` enemy_health l) (rounds l).
Proof.
  unfold simulate_combat. intros H. steps H.
  apply gets_Ok in Hstep as [-> ->]. apply gets_Ok in Hstep0 as [-> ->].
  apply mret_Ok in H as [-> ->]. eauto.
Qed.

(** ** [simulate_combat] returns for combatants of any realistic size *)

Lemma player_base_damage_within level : within 990 level → within 1000 (20 + level * 5).
Proof.
  unfold within. intros H.
  assert (2 ^ 1000 = 1024 * 2 ^ 990) by reflexivity.
  assert (0 < 2 ^ 990) by (apply Z.pow_pos_nonneg; lia). lia.
Qed.

Lemma with_random_calculate_damage_total b dt a d crit w :
  within 1000 b → stats_within 1000 a → stats_within 1000 d →
  ∃ r w', with_random (calculate_damage b dt a d crit) w = (Ok r, w')
          ∧ player w' = player w ∧ enemy w' = enemy w.
Proof.
  intros Hb Ha Hd.
  destruct (calculate_damage_total b dt a d crit (random w) Hb Ha Hd) as (r & Hr & _).
  unfold with_random, zoom. rewrite Hr. by eexists _, _.
Qed.

Lemma loop_body_total l w :
  combat_ready (player w) (enemy w) →
  ∃ l' w', loop_body l w = (Ok l', w') ∧ player w' = player w ∧ enemy w' = enemy w.
Proof.
  intros (Hlevel & Hps & Hdmg & Hes). unfold loop_body.
  rewrite !gets_run. cbn [compose].
  destruct (with_random_calculate_damage_total (20 + Player.level (player w) * 5)
              DamageType.PHYSICAL (Player.stats (player w)) (Enemy.stats (enemy w))
              default_crit_chance w (player_base_damage_within _ Hlevel) Hps Hes)
    as (r1 & w1 & Hr1 & Hp1 & He1).
  rewrite (bind_run _ _ _ _ _ Hr1).
  destruct (bool_decide _); [|by eexists _, _].
  rewrite !gets_run. cbn [compose]. rewrite Hp1, He1.
  destruct (with_random_calculate_damage_total (Enemy.damage (enemy w))
              DamageType.PHYSICAL (Enemy.stats (enemy w)) (Player.stats (player w))
              default_crit_chance w1 Hdmg Hes Hps)
    as (r2 & w2 & Hr2 & Hp2 & He2).
  rewrite (bind_run _ _ _ _ _ Hr2). eexists _, _. split; [done|]. by rewrite Hp2, He2.
Qed.

Lemma while_loop_total fuel l w :
  combat_ready (player w) (enemy w) → ∃ l' w', while_loop fuel l w = (Ok l', w').
Proof.
  revert l w. induction fuel as [|fuel IH]; intros l w Hw; [by eexists _, _|].
  cbn [while_loop]. destruct (loop_condition l); [|by eexists _, _].
  destruct (loop_body_total l w Hw) as (l1 & w1 & Hb & Hp & He).
  rewrite (bind_run _ _ _ _ _ Hb). apply IH. by rewrite Hp, He.
Qed.

Lemma simulate_combat_total w :
  combat_ready (player w) (enemy w) → ∃ r w', simulate_combat w = (Ok r, w').
Proof.
  intros Hw. unfold simulate_combat. rewrite !gets_run.
  destruct (while_loop_total 100
              (Locals [] (Player.health (player w)) (Enemy.health (enemy w)) 0) w Hw)
    as (l & w' & Hl).
  cbn [compose]. rewrite (bind_run _ _ _ _ _ Hl). by eexists _, _.
Qed.

Lemma simulate_combat_victory w r :
  (simulate_combat w).1 = Ok r →
  CombatResult.victory r = true ↔ CombatResult.finalPlayerHealth r > 0.
Proof.
  destruct (simulate_combat w) as [r0 w'] eqn:H. cbn [fst]. intros ->.
  apply simulate_combat_Ok in H as (l & _ & ->). cbn.
  rewrite bool_decide_eq_true. lia.
Qed.
End Combat.

(** C3. [simulate_combat] runs its loop to the end within 100 rounds: the
    100 iterations of fuel suffice (more fuel changes nothing); for a player
    and an enemy whose level, damage and stats are below 2^990 in absolute
    value it returns a result; and whenever it returns, the loop condition is
    false when the loop is left, the result reports at most 100 rounds, one
    log entry per round, and reports victory exactly when the running total
    of the player's health at loop exit is greater than 0. *)
Theorem simulate_combat_terminates (w : CombatSystem.world) :
  let l0 := CombatSystem.Locals [] (Player.health (CombatSystem.player w))
              (Enemy.health (CombatSystem.enemy w)) 0 in
  (∀ extra, CombatSystem.while_loop (100 + extra) l0 w = CombatSystem.while_loop 100 l0 w)
  ∧ (combat_ready (CombatSystem.player w) (CombatSystem.enemy w) →
     ∃ r w', CombatSystem.simulate_combat w = (Ok r, w'))
  ∧ match CombatSystem.simulate_combat w with
    | (Ok r, w') =>
        ∃ l, CombatSystem.while_loop 100 l0 w = (Ok l, w')
             ∧ CombatSystem.loop_condition l = false
             ∧ CombatResult.rounds r = CombatSystem.round_num l
             ∧ 0 ≤ CombatResult.rounds r ≤ 100
             ∧ Z.of_nat (length (CombatResult.combatLog r)) = CombatResult.rounds r
             ∧ (CombatResult.victory r = true ↔ CombatSystem.player_health l > 0)
             ∧ (CombatResult.victory r = true ↔ CombatResult.finalPlayerHealth r > 0)
    | (Raise _, _) => True
    end.
Proof.
  intros l0. split; [|split].
  - intros extra. apply while_loop_more_fuel. cbn. lia.
  - apply simulate_combat_total.
  - destruct (CombatSystem.simulate_combat w) as [[r|e] w'] eqn:H; [|done].
    apply simulate_combat_Ok in H as (l & Hloop & ->). fold l0 in Hloop.
    exists l. split; [done|].
    apply while_loop_Ok in Hloop as (Hr & Hlen & Hexit). cbn in Hr, Hlen, Hexit |- *.
    split; [apply Hexit; lia|]. split; [done|]. split; [lia|]. split; [lia|].
    rewrite bool_decide_eq_true. split; [done|]. lia.
Qed.

Lemma simulate_combat_terminates_witness :
  ∃ r w', CombatSystem.simulate_combat patient_world = (Ok r, w').
Proof.
  pose proof (simulate_combat_terminates patient_world) as (_ & Htotal & _).
  apply Htotal. unfold combat_ready, stats_within, within.
  repeat split; reflexivity.
Defined.

Example simulate_combat_sample :
  let player := GameSimulator.create_player "Hero" 1 in
  let enemy := Enemy.mk "enemy_1" "zombie" 1 50 50 10 (Stats.mk 10 7 6 12) 20 5 in
  match (CombatSystem.simulate_combat (CombatSystem.World player enemy sample_rng)).1 with
  | Ok r => CombatResult.victory r = true ∧ CombatResult.rounds r = 2
            ∧ CombatResult.finalPlayerHealth r = 88 ∧ CombatResult.finalEnemyHealth r = 0
  | Raise _ => False
  end.
Proof. vm_compute. done. Qed.

(** C4, as stated, fails: the fight of [patient_world] is stopped by the
    bound of 100 rounds with both sides alive, and is reported as a victory. *)
Lemma timeout_reported_as_victory :
  (CombatSystem.simulate_combat patient_world).1 = Ok patient_result
  ∧ CombatResult.rounds patient_result = 100
  ∧ CombatResult.finalPlayerHealth patient_result = 900
  ∧ CombatResult.finalEnemyHealth patient_result = 900
  ∧ CombatResult.victory patient_result = true.
Proof. vm_compute. done. Qed.

(** C4, amended. When the loop is left at the bound of 100 rounds with the
    player's and the enemy's health still greater than 0, the result reports
    victory: [victory] only says that the player's health is greater than 0. *)
Theorem timeout_with_player_alive_is_victory w r :
  (CombatSystem.simulate_combat w).1 = Ok r →
  CombatResult.rounds r = 100 →
  CombatResult.finalPlayerHealth r > 0 →
  CombatResult.finalEnemyHealth r > 0 →
  CombatResult.victory r = true.
Proof.
  intros H _ Hp _. by apply (simulate_combat_victory w r H).
Qed.

Lemma timeout_with_player_alive_is_victory_witness :
  CombatResult.victory patient_result = true.
Proof.
  apply (timeout_with_player_alive_is_victory patient_world patient_result);
    vm_compute; reflexivity.
Defined.

(** C10. [simulate_combat] leaves both of its arguments as they were:
    whatever it returns or raises, every field of the player and of the
    enemy holds the value it held before the call. *)
Theorem simulate_combat_modifies_nothing (w : CombatSystem.world) :
  CombatSystem.player (CombatSystem.simulate_combat w).2 = CombatSystem.player w
  ∧ CombatSystem.enemy (CombatSystem.simulate_combat w).2 = CombatSystem.enemy w.
Proof. apply simulate_combat_read_only. Qed.

(** * LootSystem *)

Lemma sum_values_empty : LootSystem.sum_values ∅ = 0.
Proof. unfold LootSystem.sum_values. by rewrite map_fold_empty. Qed.

Lemma generate_stats_consumable item_type rarity level g stats g' :
  item_type = ItemType.POTION ∨ item_type = ItemType.SCROLL →
  LootSystem._generate_stats item_type rarity level g = (Ok stats, g') →
  stats = ∅.
Proof. by intros [-> | ->] [= <- _]. Qed.

Lemma generate_item_Ok rarity item_type level g item g' :
  LootSystem.generate_item rarity item_type level g = (Ok item, g') →
  ∃ g1 g2,
    LootSystem._generate_stats (LootItem.type item) rarity level g1
      = (Ok (LootItem.stats item), g2)
    ∧ LootItem.rarity item = rarity
    ∧ LootItem.value item
      = LootSystem._calculate_value (LootItem.type item) rarity (LootItem.stats item)
    ∧ (∀ t, item_type = Some t → LootItem.type item = t).
Proof.
  unfold LootSystem.generate_item. intros H. steps H.
  assert (Ht : ∀ t, item_type = Some t → a = t).
  { intros t ->. by apply mret_Ok in Hstep as [-> _]. }
  destruct a; try step H; apply mret_Ok in H as [-> _]; cbn; eauto 10.
Qed.

(** ** [generate_item] returns for levels of any realistic size *)

Lemma multiplier_below rarity :
  below_pow2 3 (RarityValues.multiplier (LootSystem.RARITY_VALUES rarity)).
Proof. destruct rarity; below_closed. Qed.

(** [int(z * x)] for an int [z] and a float [x] of moderate size. *)
Lemma int_of_int_mul_float_total z k x b :
  within k z → 0 ≤ k → below_pow2 b x → 0 ≤ b → k + b + 2 ≤ 1023 →
  ∃ y n, int_mul_float z x = Ok y ∧ int_of_float y = Ok n ∧ within (k + b + 2) n.
Proof.
  intros Hz Hk Hx Hb Hkb.
  destruct (int_mul_float_below z k x b Hz ltac:(lia) Hx ltac:(lia) ltac:(lia))
    as (y & Hy & Hyb).
  destruct (int_of_float_below _ y Hyb ltac:(lia)) as (n & Hn & Hnb).
  by exists y, n.
Qed.

Lemma generate_stats_total item_type rarity level g :
  within 900 level →
  ∃ stats g', LootSystem._generate_stats item_type rarity level g = (Ok stats, g').
Proof.
  intros Hlevel. pose proof (multiplier_below rarity) as Hm.
  unfold LootSystem._generate_stats. destruct item_type; try by eexists _, _.
  - (* weapon *)
    destruct (int_of_int_mul_float_total (10 + level * 2) 910 _ 3
                (within_affine 900 10 2 level ltac:(lia) Hlevel ltac:(lia))
                ltac:(lia) Hm ltac:(lia) ltac:(lia)) as (y & n & Hy & Hn & _).
    rewrite (lift_result_bind _ _ _ _ Hy), (lift_result_bind _ _ _ _ Hn).
    rewrite (bind_run _ _ _ _ _ (random_random_run _)).
    destruct (flt _ _); [|by eexists _, _].
    destruct (int_of_int_mul_float_total 5 3 _ 3 ltac:(by vm_compute)
                ltac:(lia) Hm ltac:(lia) ltac:(lia)) as (y' & n' & Hy' & Hn' & _).
    rewrite (lift_result_bind _ _ _ _ Hy'), (lift_result_bind _ _ _ _ Hn').
    by eexists _, _.
  - (* armor *)
    destruct (int_mul_float_below level 900 (lit 15 10) 1 Hlevel ltac:(lia)
                ltac:(below_closed) ltac:(lia) ltac:(lia)) as (y & Hy & Hyb).
    destruct (int_add_float_below 8 4 y 903 904 ltac:(by vm_compute) ltac:(lia) Hyb
                ltac:(lia) ltac:(lia)) as (base & Hbase & Hbb).
    pose proof (fmul_below _ _ _ _ Hbb Hm ltac:(lia) ltac:(lia)) as Hd.
    destruct (int_of_float_below _ _ Hd ltac:(lia)) as (n & Hn & _).
    rewrite (lift_result_bind _ _ _ _ Hy), (lift_result_bind _ _ _ _ Hbase),
      (lift_result_bind _ _ _ _ Hn).
    rewrite (bind_run _ _ _ _ _ (random_random_run _)).
    destruct (flt _ _); [|by eexists _, _].
    destruct (int_of_int_mul_float_total 20 5 _ 3 ltac:(by vm_compute)
                ltac:(lia) Hm ltac:(lia) ltac:(lia)) as (y' & n' & Hy' & Hn' & _).
    rewrite (lift_result_bind _ _ _ _ Hy'), (lift_result_bind _ _ _ _ Hn').
    by eexists _, _.
Qed.

(** The name of a scroll ends in a word: [name.split()[-1]] is defined. *)
Lemma scroll_name_last_word prefix base_name :
  prefix ∈ LootSystem.ITEM_PREFIXES ItemType.SCROLL →
  base_name ∈ LootSystem.ITEM_TYPES_NAMES ItemType.SCROLL →
  ∃ w, last_word (prefix +:+ " " +:+ base_name) = Ok w.
Proof.
  cbn [LootSystem.ITEM_PREFIXES LootSystem.ITEM_TYPES_NAMES].
  rewrite !elem_of_cons, !elem_of_nil.
  intros Hp Hb.
  repeat (destruct Hp as [->|Hp]); try done;
    repeat (destruct Hb as [->|Hb]); try done; by eexists.
Qed.

Lemma generate_item_name_total item_type rarity g :
  ∃ prefix base_name g',
    LootSystem._generate_item_name item_type rarity g
      = (Ok (prefix +:+ " " +:+ base_name), g')
    ∧ prefix ∈ LootSystem.ITEM_PREFIXES item_type
    ∧ base_name ∈ LootSystem.ITEM_TYPES_NAMES item_type.
Proof.
  unfold LootSystem._generate_item_name.
  destruct (random_choice_run (LootSystem.ITEM_PREFIXES item_type) g) as (p & Hp & Hpin);
    [by destruct item_type|].
  destruct (random_choice_run (LootSystem.ITEM_TYPES_NAMES item_type) (advance g))
    as (b & Hb & Hbin); [by destruct item_type|].
  rewrite (bind_run _ _ _ _ _ Hp), (bind_run _ _ _ _ _ Hb).
  exists p, b. destruct item_type; by eexists.
Qed.

Lemma random_item_type_total g :
  ∃ item_type, LootSystem._random_item_type g = (Ok item_type, advance g).
Proof.
  unfold LootSystem._random_item_type. rewrite (bind_run _ _ _ _ _ (random_random_run _)).
  repeat (destruct (flt _ _); [by eexists|]). by eexists.
Qed.

Lemma generate_item_total rarity item_type level g :
  within 900 level →
  ∃ item g', LootSystem.generate_item rarity item_type level g = (Ok item, g').
Proof.
  intros Hlevel. unfold LootSystem.generate_item.
  assert (∃ t g0, match item_type with
                  | None => LootSystem._random_item_type
                  | Some t => mret t
                  end g = (Ok t, g0)) as (t & g0 & Ht).
  { destruct item_type as [t|]; [by eexists _, _|].
    destruct (random_item_type_total g) as [t Ht]. by eexists _, _. }
  rewrite (bind_run _ _ _ _ _ Ht).
  destruct (generate_item_name_total t rarity g0) as (p & b & g1 & Hname & Hp & Hb).
  rewrite (bind_run _ _ _ _ _ Hname).
  destruct (generate_stats_total t rarity level g1 Hlevel) as (stats & g2 & Hstats).
  rewrite (bind_run _ _ _ _ _ Hstats).
  rewrite (bind_run _ _ _ _ _ (random_randint_run 1000 9999 g2 ltac:(lia))).
  destruct t; try by eexists _, _.
  - (* potion *)
    assert (∃ effect, LootSystem._generate_effect ItemType.POTION (p +:+ " " +:+ b)
                      = Ok effect) as [effect He].
    { unfold LootSystem._generate_effect. repeat (destruct (contains _ _); [by eexists|]).
      by eexists. }
    rewrite (lift_result_bind _ _ _ _ He). by eexists _, _.
  - (* scroll *)
    destruct (scroll_name_last_word p b Hp Hb) as [w Hw].
    assert (He : LootSystem._generate_effect ItemType.SCROLL (p +:+ " " +:+ b)
                 = Ok ("Casts " +:+ w +:+ " spell")).
    { unfold LootSystem._generate_effect. by rewrite Hw. }
    rewrite (lift_result_bind _ _ _ _ He). by eexists _, _.
Qed.

(** The sell values of the rarity table rise with the rank of the rarity. *)
Lemma sell_value_strictly_increasing r1 r2 :
  (ItemRarity.rank r1 < ItemRarity.rank r2)%nat →
  RarityValues.sell_value (LootSystem.RARITY_VALUES r1)
  < RarityValues.sell_value (LootSystem.RARITY_VALUES r2).
Proof. destruct r1, r2; cbn; lia. Qed.

Example generate_item_weapon :
  match (LootSystem.generate_item ItemRarity.LEGENDARY (Some ItemType.WEAPON) 5 sample_rng).1 with
  | Ok item => LootItem.stats item = {[ "damage" := 100 ]} ∧ LootItem.value item = 450
  | Raise _ => False
  end.
Proof. vm_compute. done. Qed.

(** * Enum strings at the boundary *)

(** A closed string is not among a few others. *)
Ltac not_in_list :=
  rewrite !not_elem_of_cons; repeat split; try done; apply not_elem_of_nil.

Lemma rarity_by_name_unknown name :
  name ∉ ["COMMON"; "UNCOMMON"; "RARE"; "EPIC"; "LEGENDARY"] →
  ItemRarity.by_name name = Raise (KeyError name).
Proof.
  intros H. unfold ItemRarity.by_name.
  repeat (case_decide; [subst; exfalso; apply H; set_solver|]). done.
Qed.

Lemma item_type_by_name_unknown name :
  name ∉ ["WEAPON"; "ARMOR"; "POTION"; "SCROLL"] →
  ItemType.by_name name = Raise (KeyError name).
Proof.
  intros H. unfold ItemType.by_name.
  repeat (case_decide; [subst; exfalso; apply H; set_solver|]). done.
Qed.

Lemma enemy_types_unknown enemy_type :
  enemy_type ∉ ["zombie"; "skeleton"; "orc"; "demon"] ↔
  EnemyFactory.ENEMY_TYPES !! enemy_type = None.
Proof.
  unfold EnemyFactory.ENEMY_TYPES. rewrite !lookup_insert_None, lookup_empty.
  rewrite !not_elem_of_cons. split.
  - intros (? & ? & ? & ? & _). done.
  - intros ((((_ & ?) & ?) & ?) & ?). repeat split; try done. apply not_elem_of_nil.
Qed.

Lemma create_enemy_unknown enemy_type level g :
  EnemyFactory.ENEMY_TYPES !! enemy_type = None →
  EnemyFactory.create_enemy enemy_type level g = EnemyFactory.create_enemy "zombie" level g.
Proof.
  intros H. unfold EnemyFactory.create_enemy.
  rewrite (decide_True _ _ H). by rewrite decide_False.
Qed.

Lemma create_enemy_type enemy_type level g e g' :
  EnemyFactory.create_enemy enemy_type level g = (Ok e, g') →
  Enemy.type e
  = if decide (EnemyFactory.ENEMY_TYPES !! enemy_type = None) then "zombie" else enemy_type.
Proof.
  unfold EnemyFactory.create_enemy. intros H. steps H.
  by apply mret_Ok in H as [-> _].
Qed.

(** ** [create_enemy] returns for levels of any realistic size *)

Lemma enemy_template_small enemy_type template :
  EnemyFactory.ENEMY_TYPES !! enemy_type = Some template →
  within 8 (EnemyTemplate.health template) ∧ within 8 (EnemyTemplate.damage template)
  ∧ within 8 (EnemyTemplate.experience template) ∧ within 8 (EnemyTemplate.gold template).
Proof.
  unfold EnemyFactory.ENEMY_TYPES. intros H.
  repeat (apply lookup_insert_Some in H as [[_ <-]|[_ H]];
          [unfold within; cbn; lia|]).
  by rewrite lookup_empty in H.
Qed.

Lemma create_enemy_total enemy_type level g :
  within 900 level →
  ∃ e g', EnemyFactory.create_enemy enemy_type level g = (Ok e, g')
          ∧ within 1000 (Enemy.damage e) ∧ stats_within 1000 (Enemy.stats e).
Proof.
  intros Hlevel. unfold EnemyFactory.create_enemy.
  set (ty := if decide (EnemyFactory.ENEMY_TYPES !! enemy_type = None)
             then "zombie" else enemy_type).
  assert (∃ t, EnemyFactory.ENEMY_TYPES !! ty = Some t) as [t Ht].
  { subst ty. case_decide as Hk; [by eexists|].
    destruct (EnemyFactory.ENEMY_TYPES !! enemy_type); [by eexists|done]. }
  rewrite Ht, ret_bind.
  destruct (enemy_template_small _ _ Ht) as (Hh & Hd & He & Hg).
  assert (Hl1 : within 910 (level - 1)).
  { replace (level - 1) with (-1 + level) by lia. by apply (within_add 900). }
  destruct (int_mul_float_below (level - 1) 910 (lit 3 10) 0 Hl1 ltac:(lia)
              ltac:(below_closed) ltac:(lia) ltac:(lia)) as (x & Hx & Hxb).
  destruct (int_add_float_below 1 1 x 912 913 ltac:(by vm_compute) ltac:(lia) Hxb
              ltac:(lia) ltac:(lia)) as (lm & Hlm & Hlmb).
  destruct (int_of_int_mul_float_total _ 8 lm 914 Hh ltac:(lia) Hlmb ltac:(lia) ltac:(lia))
    as (y1 & n1 & Hy1 & Hn1 & _).
  destruct (int_of_int_mul_float_total _ 8 lm 914 Hd ltac:(lia) Hlmb ltac:(lia) ltac:(lia))
    as (y2 & n2 & Hy2 & Hn2 & Hdamage).
  destruct (int_of_int_mul_float_total _ 8 lm 914 He ltac:(lia) Hlmb ltac:(lia) ltac:(lia))
    as (y3 & n3 & Hy3 & Hn3 & _).
  destruct (int_of_int_mul_float_total _ 8 lm 914 Hg ltac:(lia) Hlmb ltac:(lia) ltac:(lia))
    as (y4 & n4 & Hy4 & Hn4 & _).
  rewrite (lift_result_bind _ _ _ _ Hx), (lift_result_bind _ _ _ _ Hlm),
    (lift_result_bind _ _ _ _ Hy1), (lift_result_bind _ _ _ _ Hn1),
    (lift_result_bind _ _ _ _ Hy2), (lift_result_bind _ _ _ _ Hn2),
    (lift_result_bind _ _ _ _ Hy3), (lift_result_bind _ _ _ _ Hn3),
    (lift_result_bind _ _ _ _ Hy4), (lift_result_bind _ _ _ _ Hn4).
  rewrite (bind_run _ _ _ _ _ (random_randint_run 1000 9999 g ltac:(lia))).
  eexists _, _. split; [done|]. cbn. split; [by eapply within_mono|].
  repeat split; (eapply within_mono; [|by instantiate (1 := 910)]).
  - by apply (within_affine 900).
  - by apply (within_add 900).
  - by apply (within_affine 900).
Qed.

(** C8, as stated, fails for enemy types: ["dragon"] is no enemy type, and
    the factory answers with a zombie instead of an error. *)
Lemma unknown_enemy_type_is_repaired :
  ("dragon" ∉ ["zombie"; "skeleton"; "orc"; "demon"])
  ∧ (match (EnemyFactory.create_enemy "dragon" 1 sample_rng).1 with
     | Ok e => Enemy.type e = "zombie" ∧ Enemy.health e = 50 ∧ Enemy.damage e = 10
     | Raise _ => False
     end)
  ∧ (match (simulate_combat_json sample_seeded 1 1 "dragon" None sample_rng).1 with
     | Ok (_, e, _) => Enemy.type e = "zombie"
     | Raise _ => False
     end).
Proof.
  split; [not_in_list|by vm_compute].
Qed.

(** C8, amended. A rarity string, or a non-empty item-type string, whose
    upper-case form names no member of its enumeration makes
    [generate_loot_json] raise a [ValueError] whose message holds the
    offending string. An enemy-type string outside zombie, skeleton, orc and
    demon is no error: [create_enemy], and [simulate_combat_json] through it,
    treats it as ["zombie"]. *)
Theorem unknown_enum_strings (str_upper : string → string) (seeded : Z → rng) :
  (∀ count rarity item_type level seed g,
     str_upper rarity ∉ ["COMMON"; "UNCOMMON"; "RARE"; "EPIC"; "LEGENDARY"] →
     (generate_loot_json str_upper seeded count rarity item_type level seed g).1
     = Raise (ValueError ("Invalid rarity: " +:+ rarity +:+
                ". Must be one of: common, uncommon, rare, epic, legendary")))
  ∧ (∀ count rarity item_type level seed g,
       str_upper rarity ∈ ["COMMON"; "UNCOMMON"; "RARE"; "EPIC"; "LEGENDARY"] →
       item_type ≠ "" →
       str_upper item_type ∉ ["WEAPON"; "ARMOR"; "POTION"; "SCROLL"] →
       (generate_loot_json str_upper seeded count rarity (Some item_type) level seed g).1
       = Raise (ValueError ("Invalid item type: " +:+ item_type +:+
                  ". Must be one of: weapon, armor, potion, scroll")))
  ∧ (∀ enemy_type level g,
       enemy_type ∉ ["zombie"; "skeleton"; "orc"; "demon"] →
       EnemyFactory.create_enemy enemy_type level g
       = EnemyFactory.create_enemy "zombie" level g
       ∧ (∀ e g', EnemyFactory.create_enemy enemy_type level g = (Ok e, g') →
                  Enemy.type e = "zombie")
       ∧ ∀ player_level seed,
           simulate_combat_json seeded player_level level enemy_type seed g
           = simulate_combat_json seeded player_level level "zombie" seed g).
Proof.
  split; [|split].
  - intros count rarity item_type level seed g Hr.
    unfold generate_loot_json. rewrite (rarity_by_name_unknown _ Hr).
    by destruct seed.
  - intros count rarity item_type level seed g Hr Hne Ht.
    unfold generate_loot_json. rewrite (item_type_by_name_unknown _ Ht).
    rewrite (decide_False _ _ Hne).
    assert (∃ r, ItemRarity.by_name (str_upper rarity) = Ok r) as [r ->].
    { unfold ItemRarity.by_name. repeat (case_decide; [eauto|]).
      exfalso. revert Hr. rewrite !elem_of_cons, elem_of_nil.
      intros [?|[?|[?|[?|[?|[]]]]]]; done. }
    by destruct seed.
  - intros enemy_type level g Hu. apply enemy_types_unknown in Hu.
    split; [by apply create_enemy_unknown|]. split.
    + intros e g' H. apply create_enemy_type in H. by rewrite decide_True in H.
    + intros player_level seed. unfold simulate_combat_json.
      destruct seed; cbn [seed_random]; unfold mbind, M_bind, modify, mret, M_ret;
        by rewrite create_enemy_unknown.
Qed.

Lemma unknown_enum_strings_witness :
  (generate_loot_json ascii_upper sample_seeded 1 "mythic" None 1 None sample_rng).1
  = Raise (ValueError
      "Invalid rarity: mythic. Must be one of: common, uncommon, rare, epic, legendary")
  ∧ (generate_loot_json ascii_upper sample_seeded 1 "rare" (Some "gem") 1 None sample_rng).1
    = Raise (ValueError
        "Invalid item type: gem. Must be one of: weapon, armor, potion, scroll")
  ∧ EnemyFactory.create_enemy "dragon" 1 sample_rng
    = EnemyFactory.create_enemy "zombie" 1 sample_rng.
Proof.
  pose proof (unknown_enum_strings ascii_upper sample_seeded) as (Hr & Ht & He).
  split; [|split].
  - apply Hr. change (ascii_upper "mythic") with "MYTHIC". not_in_list.
  - apply Ht; [|done|].
    + change (ascii_upper "rare") with "RARE". rewrite !elem_of_cons. auto.
    + change (ascii_upper "gem") with "GEM". not_in_list.
  - apply He. not_in_list.
Defined.

(** Known strings are accepted in any case of the letters, and an empty
    item type counts as no item type. *)
Example generate_loot_json_accepts :
  match (generate_loot_json ascii_upper sample_seeded 2 "Rare" (Some "") 5 (Some 7) sample_rng).1 with
  | Ok items => LootItem.rarity <$> items = [ItemRarity.RARE; ItemRarity.RARE]
  | Raise _ => False
  end.
Proof. by vm_compute. Qed.

(** * GameSimulator.simulate_dungeon_run *)

Section DungeonRun.
Import GameSimulator.

Lemma basic_enemy_known enemy_type :
  enemy_type ∈ ["zombie"; "skeleton"; "orc"] →
  EnemyFactory.ENEMY_TYPES !! enemy_type ≠ None.
Proof. rewrite !elem_of_cons, elem_of_nil. intros [->|[->|[->|[]]]]; done. Qed.

Lemma with_random_battles {A} (m : M rng A) w r w' :
  with_random m w = (r, w') → battles w' = battles w.
Proof.
  unfold with_random, zoom. destruct (m (random w)). by intros [= _ <-].
Qed.

Lemma with_random_Ok {A} (m : M rng A) w a w' :
  with_random m w = (Ok a, w') →
  ∃ g', m (random w) = (Ok a, g') ∧ w' = World g' (battles w).
Proof.
  unfold with_random, zoom. destruct (m (random w)) as [r g'].
  intros [= -> <-]. eauto.
Qed.

Lemma call_simulate_combat_Ok player0 enemy0 w c p e w' :
  call_simulate_combat player0 enemy0 w = (Ok (c, p, e), w') →
  battles w' = battles w ++ [(enemy0, c)] ∧ p = player0 ∧ e = enemy0.
Proof.
  unfold call_simulate_combat. intros H. steps H.
  apply mret_Ok in H as [<- ->].
  apply with_random_Ok in Hstep as (g' & Hcall & ->).
  unfold modify in Hstep0.
  unfold CombatSystem.call_simulate_combat in Hcall.
  pose proof (simulate_combat_read_only (CombatSystem.World player0 enemy0 (random w)))
    as [Hp He].
  destruct (CombatSystem.simulate_combat _) as [[c0|?] cw]; [|done].
  cbn in Hp, He. simplify_eq. done.
Qed.

Lemma for_loop_outcome num_enemies dungeon_level n k l w r w' :
  loop_invariant num_enemies dungeon_level k l w →
  for_loop num_enemies dungeon_level (Z.of_nat <$> seq k n) l w = (Ok r, w') →
  run_outcome num_enemies dungeon_level (k + n) r w'.
Proof.
  revert k l w. induction n as [|n IH]; intros k l w Hinv H.
  - (* the loop is over: the final [return] *)
    apply mret_Ok in H as [-> ->]. destruct Hinv.
    unfold run_outcome. cbn. rewrite Nat.add_0_r.
    split; [lia|]. split; [done|]. split; [eauto|]. split; [done|].
    split; [done|]. split; [done|]. split; [|done].
    rewrite <- inv_battles0.
    apply (f_equal length) in inv_defeated0. rewrite !length_fmap in inv_defeated0. lia.
  - cbn [seq fmap list_fmap for_loop] in H. steps H.
    destruct a1 as [[c p0] e0].
    apply call_simulate_combat_Ok in Hstep1 as (Hb1 & -> & ->).
    apply with_random_Ok in Hstep0 as (g0 & Hcreate & ->). cbn in Hb1.
    assert (Hbs : battles s = battles w).
    { clear -Hstep. destruct (_ && _) in Hstep.
      - by apply mret_Ok in Hstep as [_ ->].
      - by apply with_random_battles in Hstep. }
    assert (Htype : slot_type_ok num_enemies dungeon_level k (Enemy.type a0)).
    { apply create_enemy_type in Hcreate. unfold slot_type_ok.
      destruct (_ && _) eqn:E in Hstep.
      - apply mret_Ok in Hstep as [-> _].
        apply andb_true_iff in E as [E1 E2]. apply bool_decide_eq_true in E1, E2.
        rewrite decide_True by done. by rewrite decide_False in Hcreate.
      - apply andb_false_iff in E. rewrite !bool_decide_eq_false in E.
        rewrite decide_False by tauto.
        apply with_random_Ok in Hstep as (? & Hc & _). apply random_choice_Ok in Hc as [Hc _].
        rewrite decide_False in Hcreate by by apply basic_enemy_known.
        by rewrite Hcreate. }
    clear Hstep Hcreate. destruct Hinv. rewrite Hbs in Hb1.
    assert (Hlen1 : length (battles s1) = S k) by (rewrite Hb1, length_app; cbn; lia).
    assert (Htypes1 : ∀ i e c0, battles s1 !! i = Some (e, c0) →
                      slot_type_ok num_enemies dungeon_level i (Enemy.type e)).
    { intros i e c0. rewrite Hb1. intros Hi.
      apply lookup_app_Some in Hi as [Hi|[Hge Hi]]; [by eapply inv_types0|].
      apply list_lookup_singleton_Some in Hi as [Hi [= <- <-]].
      replace i with k by lia. done. }
    destruct (CombatResult.victory c) eqn:Hv; cbn [negb] in H.
    + (* victory: the loop goes on *)
      step H. apply with_random_Ok in Hstep as (g1 & _ & ->). cbn [battles] in *.
      assert (Hwon1 : ∀ i e c0, battles s1 !! i = Some (e, c0) →
                      CombatResult.victory c0 = true).
      { intros i e c0. rewrite Hb1. intros Hi.
        apply lookup_app_Some in Hi as [Hi|[Hge Hi]]; [by eapply inv_won0|].
        by apply list_lookup_singleton_Some in Hi as [Hi [= <- <-]]. }
      replace (k + S n)%nat with (S k + n)%nat by lia.
      destruct (flt a1 (lit 6 10)).
      * steps H. apply with_random_Ok in Hstep as (g2 & _ & ->).
        apply with_random_Ok in Hstep0 as (g3 & _ & ->).
        apply (IH (S k)) in H; [done|].
        split; cbn; try done.
        -- rewrite fmap_app, inv_defeated0, Hb1, fmap_app. done.
        -- by rewrite inv_loot0.
      * apply (IH (S k)) in H; [done|].
        split; cbn; try done.
        rewrite fmap_app, inv_defeated0, Hb1, fmap_app. done.
    + (* defeat: the run returns at once *)
      apply mret_Ok in H as [-> ->]. unfold run_outcome. cbn.
      split; [lia|]. split; [done|]. split.
      { intros i e c0. rewrite Hb1, length_app. cbn. intros Hi Hlt.
        apply lookup_app_Some in Hi as [Hi|[Hge Hi]]; [by eapply inv_won0|]. lia. }
      split; [done|].
      exists a0, c. rewrite Hb1, last_snoc. split; [done|]. split; [done|]. split; [done|].
      rewrite length_app. cbn.
      apply (f_equal length) in inv_defeated0. rewrite !length_fmap in inv_defeated0. lia.
Qed.
(** ** [simulate_dungeon_run] returns for levels of any realistic size *)

Lemma with_random_run {A} (m : M rng A) w a g' :
  m (random w) = (Ok a, g') → with_random m w = (Ok a, World g' (battles w)).
Proof. unfold with_random, zoom. by intros ->. Qed.

Lemma call_simulate_combat_total player0 enemy0 w :
  combat_ready player0 enemy0 →
  ∃ c w', call_simulate_combat player0 enemy0 w = (Ok (c, player0, enemy0), w').
Proof.
  intros Hready. unfold call_simulate_combat.
  pose (cw := CombatSystem.World player0 enemy0 (random w)).
  destruct (simulate_combat_total cw Hready) as (c & cw' & Hc).
  destruct (simulate_combat_read_only cw) as [Hp He]. rewrite Hc in Hp, He. cbn in Hp, He.
  assert (Hcall : CombatSystem.call_simulate_combat player0 enemy0 (random w)
                  = (Ok (c, player0, enemy0), CombatSystem.random cw')).
  { unfold CombatSystem.call_simulate_combat. fold cw. by rewrite Hc, Hp, He. }
  rewrite (bind_run _ _ _ _ _ (with_random_run _ _ _ _ Hcall)).
  by eexists _, _.
Qed.

Lemma for_loop_total num_enemies dungeon_level indices l w :
  within 900 dungeon_level →
  within 990 (Player.level (player l)) → stats_within 1000 (Player.stats (player l)) →
  ∃ r w', for_loop num_enemies dungeon_level indices l w = (Ok r, w').
Proof.
  intros Hd. revert l w.
  induction indices as [|i indices IH]; intros l w Hlevel Hstats; [by eexists _, _|].
  cbn [for_loop].
  assert (∃ enemy_type w0,
            (if bool_decide (i = num_enemies - 1) && bool_decide (dungeon_level >= 5)
             then mret "demon"
             else with_random (random_choice ["zombie"; "skeleton"; "orc"])) w
            = (Ok enemy_type, w0)) as (enemy_type & w0 & Htype).
  { destruct (_ && _); [by eexists _, _|].
    destruct (random_choice_run ["zombie"; "skeleton"; "orc"] (random w)) as (t & Ht & _);
      [done|].
    rewrite (with_random_run _ _ _ _ Ht). by eexists _, _. }
  rewrite (bind_run _ _ _ _ _ Htype).
  destruct (create_enemy_total enemy_type dungeon_level (random w0) Hd)
    as (e & g1 & He & Hdamage & Hestats).
  rewrite (bind_run _ _ _ _ _ (with_random_run _ _ _ _ He)).
  destruct (call_simulate_combat_total (player l) e (World g1 (battles w0)))
    as (c & w2 & Hc); [done|].
  rewrite (bind_run _ _ _ _ _ Hc).
  destruct (negb (CombatResult.victory c)); [by eexists _, _|].
  rewrite (bind_run _ _ _ _ _ (with_random_run _ _ _ _ (random_random_run _))).
  destruct (flt _ _); [|by apply IH].
  rewrite (bind_run _ _ _ _ _ (with_random_run _ _ _ _ (random_random_run _))).
  cbn [random battles].
  destruct (generate_item_total
              (rarity_of_roll (next_random (advance (random w2)))) None dungeon_level
              (advance (advance (random w2))) Hd) as (loot & g3 & Hloot).
  rewrite (bind_run _ _ _ _ _
             (with_random_run _ (World (advance (advance (random w2))) (battles w2))
                _ _ Hloot)).
  by apply IH.
Qed.

Lemma create_player_ready name level :
  within 900 level →
  within 990 (Player.level (create_player name level))
  ∧ stats_within 1000 (Player.stats (create_player name level)).
Proof.
  intros Hlevel. cbn. split; [by eapply within_mono|].
  assert (within 1000 (10 + (level - 1) * 2)).
  { replace (10 + (level - 1) * 2) with (8 + level * 2) by lia.
    eapply within_mono; [by apply (within_affine 900)|lia]. }
  done.
Qed.

Lemma simulate_dungeon_run_total player_level dungeon_level w :
  within 900 player_level → within 900 dungeon_level →
  ∃ r w', simulate_dungeon_run player_level dungeon_level w = (Ok r, w').
Proof.
  intros Hp Hd. unfold simulate_dungeon_run.
  destruct (create_player_ready "Hero" player_level Hp) as [Hlevel Hstats].
  by apply for_loop_total.
Qed.
End DungeonRun.

Example simulate_dungeon_run_success :
  match GameSimulator.simulate_dungeon_run 30 5 (GameSimulator.World sample_rng []) with
  | (Ok r, w) =>
      RunResult.success r = true ∧ RunResult.enemiesDefeated r = 8
      ∧ (Enemy.type ∘ fst) <$> GameSimulator.battles w
        = ["skeleton"; "zombie"; "skeleton"; "zombie"; "orc"; "skeleton"; "zombie"; "demon"]
  | (Raise _, _) => False
  end.
Proof. by vm_compute. Qed.

Example simulate_dungeon_run_failure :
  match GameSimulator.simulate_dungeon_run 10 5 (GameSimulator.World sample_rng []) with
  | (Ok r, w) =>
      RunResult.success r = false ∧ RunResult.enemiesDefeated r = 7
      ∧ (λ b, (Enemy.type b.1, CombatResult.victory b.2)) <$> GameSimulator.battles w
        = [("skeleton", true); ("zombie", true); ("orc", true); ("zombie", true);
           ("zombie", true); ("zombie", true); ("zombie", true); ("demon", false)]
  | (Raise _, _) => False
  end.
Proof. by vm_compute. Qed.

(** * DungeonEngine.generate_dungeon *)

Lemma range2_seq b : range2 1 b = Z.of_nat <$> seq 1 (Z.to_nat (b - 1)).
Proof.
  unfold range2. rewrite <- fmap_S_seq, <- list_fmap_compose.
  apply list_fmap_ext. intros _ k _. cbn. lia.
Qed.

(** The sign of a rounded number is the sign that was asked for. *)
Lemma binary_round_aux_sign s m e l s' m' e' :
  binary_round_aux 53 1024 s m e l = S754_finite s' m' e' → s' = s.
Proof.
  unfold binary_round_aux.
  destruct (shr_fexp 53 1024 m e l) as [mrs1 e1].
  destruct (shr_fexp 53 1024 _ e1 loc_Exact) as [mrs2 e2].
  destruct (shr_m mrs2); [done| |done].
  destruct (e2 <=? 1024 - 53); [|done]. by intros [= <- _ _].
Qed.

(** [int(level * 1.5)] is not negative for a positive level. *)
Lemma int_of_level_times_1_5_nonneg level x n :
  1 ≤ level → int_mul_float level (lit 15 10) = Ok x → int_of_float x = Ok n → 0 ≤ n.
Proof.
  intros Hl. destruct level as [|p|p]; try lia.
  unfold int_mul_float, float_of_int.
  destruct (Z2F (Z.pos p)) as [s|s| |s m e] eqn:Hf; cbn [is_finite]; try done.
  - intros [= <-]. by intros [= <-].
  - unfold Z2F, binary_normalize, binary_round in Hf.
    destruct (shl_align _ _ _) as [mz ez]. apply binary_round_aux_sign in Hf as ->.
    change (lit 15 10) with (S754_finite false 6755399441055744 (-52)).
    intros [= <-]. cbn [fmul SFmul xorb].
    destruct (binary_round_aux _ _ _ _ _ _) as [s|s| |s m' e'] eqn:Hm; cbn; try done.
    + by intros [= <-].
    + apply binary_round_aux_sign in Hm as ->. intros [= <-]. cbn.
      apply Z.shiftl_nonneg. lia.
Qed.

Section DungeonGeneration.
Import DungeonWorld.
Variable math_cos math_sin : float → float.

(** ** Rooms *)

Lemma determine_room_type_run index total_rooms g :
  ∃ t g', _determine_room_type index total_rooms g = (Ok t, g')
          ∧ if decide (index = total_rooms - 1) then t = "boss"
            else t = "treasure" ∨ t = "normal".
Proof.
  unfold _determine_room_type. case_decide.
  - by eexists _, _.
  - run. destruct (flt _ _); eexists _, _; eauto.
Qed.

Lemma generate_rooms_run num_rooms n k rooms corridors g :
  num_rooms ≠ 0 → length rooms = k → (1 ≤ k)%nat →
  ∃ new corridors' g',
    generate_rooms math_cos math_sin num_rooms (Z.of_nat <$> seq k n) rooms corridors g
    = (Ok (rooms ++ new, corridors'), g')
    ∧ length new = n
    ∧ length corridors' = (length corridors + n)%nat
    ∧ ∀ j r, new !! j = Some r → room_type_ok num_rooms (k + j) (Room.type r).
Proof.
  intros Hnum. revert k rooms corridors g.
  induction n as [|n IH]; intros k rooms corridors g Hlen Hk.
  - exists [], corridors, g. rewrite app_nil_r. split; [done|]. split; [done|].
    split; [cbn; lia|]. intros j r. by rewrite lookup_nil.
  - cbn [seq fmap list_fmap generate_rooms].
    unfold int_div_int. rewrite decide_False by done.
    rewrite (bind_run _ _ _ _ _ (lift_result_run _ _)).
    rewrite (bind_run _ _ _ _ _ (random_random_run _)).
    destruct (determine_room_type_run (Z.of_nat k) num_rooms (advance g))
      as (t & g1 & Ht & Htype).
    rewrite (bind_run _ _ _ _ _ Ht).
    rewrite (bind_run _ _ _ _ _ (random_random_run _)).
    rewrite (bind_run _ _ _ _ _ (random_random_run _)).
    cbn zeta. rewrite decide_True by lia.
    set (room := Room.mk _ _ _ _ t).
    destruct (lookup_lt_is_Some_2 (rooms ++ [room]) (Z.to_nat (Z.of_nat k - 1)))
      as [prev ->]; [rewrite length_app; cbn; lia|].
    destruct (IH (S k) (rooms ++ [room])
                (corridors ++ [Corridor.mk
                   (Position.mk (Float (Room.x prev)) (Int 0) (Float (Room.z prev)))
                   (Position.mk (Float (Room.x room)) (Int 0) (Float (Room.z room)))
                   (Z2F 3)]) (advance (advance g1)))
      as (new & corridors' & g' & -> & Hn & Hc & Hts);
      [rewrite length_app; cbn; lia|lia|].
    exists (room :: new), corridors', g'. rewrite <- app_assoc. split; [done|].
    split; [cbn; lia|]. split; [rewrite Hc, length_app; cbn; lia|].
    intros [|j] r; cbn.
    + intros [= <-]. unfold room_type_ok. rewrite Nat.add_0_r. done.
    + intros Hr. apply Hts in Hr. by replace (k + S j)%nat with (S k + j)%nat by lia.
Qed.

(** ** Traps, spawn points and walls *)

Lemma create_trap_run room level w :
  ∃ trap w', _create_trap room level w = (Ok trap, w').
Proof.
  unfold _create_trap.
  destruct (random_choice_run ["spike"; "fire"; "arrow"; "poison"] (random w) ltac:(done))
    as (t & Ht & _).
  unfold with_random, zoom, mbind, M_bind. rewrite Ht. cbn. by eexists _, _.
Qed.

Lemma generate_traps_run count rooms level traps w :
  rooms ≠ [] →
  ∃ traps' w', generate_traps count rooms level traps w = (Ok traps', w')
               ∧ length traps' = (length traps + count)%nat.
Proof.
  intros Hne. revert traps w. induction count as [|count IH]; intros traps w.
  - exists traps, w. split; [done|lia].
  - cbn [generate_traps].
    destruct (random_choice_run rooms (random w) Hne) as (room & Hroom & _).
    assert (Hc : with_random (random_choice rooms) w
                 = (Ok room, mk (self w) (advance (random w)))).
    { unfold with_random, zoom. by rewrite Hroom. }
    rewrite (bind_run _ _ _ _ _ Hc).
    destruct (create_trap_run room level (mk (self w) (advance (random w))))
      as (trap & w1 & Htrap).
    rewrite (bind_run _ _ _ _ _ Htrap).
    destruct (IH (traps ++ [trap]) w1) as (traps' & w' & -> & Hlen).
    exists traps', w'. split; [done|]. rewrite Hlen, length_app. cbn. lia.
Qed.

Lemma create_spawn_point_run room level is_boss g :
  ∃ sp g', _create_spawn_point room level is_boss g = (Ok sp, g').
Proof.
  unfold _create_spawn_point.
  destruct (random_choice_run (if is_boss then ["demon"] else ["zombie"; "skeleton"; "orc"])
              g ltac:(by destruct is_boss)) as (t & Ht & _).
  rewrite (bind_run _ _ _ _ _ Ht). by eexists _, _.
Qed.

Lemma generate_room_spawn_points_run count room level spawn_points g :
  ∃ sps g', generate_room_spawn_points count room level spawn_points g = (Ok sps, g').
Proof.
  revert spawn_points g. induction count as [|count IH]; intros sps g.
  - by eexists _, _.
  - cbn [generate_room_spawn_points].
    destruct (create_spawn_point_run room level (bool_decide (Room.type room = "boss")) g)
      as (sp & g1 & Hsp).
    rewrite (bind_run _ _ _ _ _ Hsp). apply IH.
Qed.

Lemma generate_spawn_points_run todo level spawn_points g :
  ∃ sps g', generate_spawn_points todo level spawn_points g = (Ok sps, g').
Proof.
  revert spawn_points g. induction todo as [|room todo IH]; intros sps g.
  - by eexists _, _.
  - cbn [generate_spawn_points]. case_decide; [|apply IH].
    assert (∃ n g1, (if decide (Room.type room = "boss") then mret 1
                     else random_randint 0 2 ≫= λ n, mret (2 + n)) g = (Ok n, g1))
      as (n & g1 & Hn).
    { case_decide; [by eexists _, _|].
      rewrite (bind_run _ _ _ _ _ (random_randint_run 0 2 g ltac:(lia))). by eexists _, _. }
    rewrite (bind_run _ _ _ _ _ Hn).
    destruct (generate_room_spawn_points_run (Z.to_nat n) room level sps g1)
      as (sps1 & g2 & Hs).
    rewrite (bind_run _ _ _ _ _ Hs). apply IH.
Qed.

Lemma room_walls_length (rooms : list Room.t) :
  length (rooms ≫= _generate_room_walls) = (4 * length rooms)%nat.
Proof.
  induction rooms as [|room rooms IH]; [done|].
  cbn. rewrite IH. lia.
Qed.

(** ** The dungeon *)

(** What [generate_dungeon] computes, step by step; it returns unless
    [int(level * 1.5)] raises. *)
Lemma generate_dungeon_run level w :
  let num_rooms := (3 + level `div` 2) `min` 8 in
  num_rooms ≠ 0 →
  ∃ new corridors,
    length new = Z.to_nat (num_rooms - 1)
    ∧ (∀ j r, new !! j = Some r → room_type_ok num_rooms (1 + j) (Room.type r))
    ∧ match int_mul_float level (lit 15 10) ≫= int_of_float with
      | Ok num_traps =>
          ∃ traps spawn_points w',
            generate_dungeon math_cos math_sin level w
            = (Ok (Dungeon.mk (the_spawn_room :: new) corridors traps spawn_points
                     ((the_spawn_room :: new) ≫= _generate_room_walls) level
                     (Metadata.mk (Z.of_nat (length (the_spawn_room :: new)))
                        (Z.of_nat (length traps)) (Z.of_nat (length spawn_points)))), w')
            ∧ length traps = Z.to_nat num_traps
      | Raise e => ∃ w', generate_dungeon math_cos math_sin level w = (Raise e, w')
      end.
Proof.
  intros num_rooms Hnum. unfold generate_dungeon. fold num_rooms. fold the_spawn_room.
  rewrite range2_seq.
  destruct (generate_rooms_run num_rooms (Z.to_nat (num_rooms - 1)) 1 [the_spawn_room] []
              (random w) Hnum eq_refl ltac:(lia))
    as (new & corridors & g1 & Hrooms & Hlen & _ & Htypes).
  assert (Hr : with_random
                 (generate_rooms math_cos math_sin num_rooms
                    (Z.of_nat <$> seq 1 (Z.to_nat (num_rooms - 1))) [the_spawn_room] []) w
               = (Ok (the_spawn_room :: new, corridors), mk (self w) g1)).
  { unfold with_random, zoom. by rewrite Hrooms. }
  rewrite (bind_run _ _ _ _ _ Hr). cbn beta iota.
  set (rooms := the_spawn_room :: new).
  assert (∃ corridors', (if decide (1 < length rooms)%nat
             then match last rooms with
                  | Some last_room =>
                      mret (corridors ++
                        [Corridor.mk
                           (Position.mk (Float (Room.x last_room)) (Int 0)
                              (Float (Room.z last_room)))
                           (Position.mk (Float (Room.x the_spawn_room)) (Int 0)
                              (Float (Room.z the_spawn_room)))
                           (Z2F 3)])
                  | None => raise (IndexError "list index out of range")
                  end
             else mret corridors) (mk (self w) g1) = (Ok corridors', mk (self w) g1))
    as (corridors' & Hc).
  { case_decide; [|by eexists]. destruct (last rooms) eqn:Hl; [by eexists|].
    by apply last_None in Hl. }
  rewrite (bind_run _ _ _ _ _ Hc).
  exists new, corridors'. split; [done|]. split; [done|].
  destruct (int_mul_float level (lit 15 10)) as [scaled|e]; cbn [mbind result_bind];
    [|rewrite (bind_raise _ _ _ _ _ (lift_result_raise _ _)); by eexists].
  rewrite (bind_run _ _ _ _ _ (lift_result_run _ _)).
  destruct (int_of_float scaled) as [num_traps|e];
    [|rewrite (bind_raise _ _ _ _ _ (lift_result_raise _ _)); by eexists].
  rewrite (bind_run _ _ _ _ _ (lift_result_run _ _)).
  destruct (generate_traps_run (Z.to_nat num_traps) rooms level [] (mk (self w) g1))
    as (traps & w1 & Htraps & Htl); [done|].
  rewrite (bind_run _ _ _ _ _ Htraps).
  destruct (generate_spawn_points_run rooms level [] (random w1)) as (sps & g2 & Hsps).
  assert (Hs : with_random (generate_spawn_points rooms level []) w1
               = (Ok sps, mk (self w1) g2)).
  { unfold with_random, zoom. by rewrite Hsps. }
  rewrite (bind_run _ _ _ _ _ Hs).
  exists traps, sps, (mk (self w1) g2). split; [done|]. done.
Qed.

(** C1. For every level of at least 1, the dungeon that [generate_dungeon]
    returns has exactly [min(3 + level // 2, 8)] rooms; its first room is
    the spawn room at the origin and no other room has type spawn; its last
    room has type boss and no other room has; it has four walls per room;
    and it has [int(level * 1.5)] traps, the product being the binary64 one
    of the source, which is the integer part of [3 * level / 2] as long as
    [3 * level] is below 2^53. The function does return for every level
    below 2^900. *)
Theorem generate_dungeon_shape (level : Z) (w : DungeonWorld.t) :
  1 ≤ level →
  (level < 2 ^ 900 → ∃ d w', generate_dungeon math_cos math_sin level w = (Ok d, w'))
  ∧ ∀ d w', generate_dungeon math_cos math_sin level w = (Ok d, w') →
      Z.of_nat (length (Dungeon.rooms d)) = (3 + level `div` 2) `min` 8
      ∧ (∃ others, Dungeon.rooms d = the_spawn_room :: others
                   ∧ ∀ r, r ∈ others → Room.type r ≠ "spawn")
      ∧ (∃ front boss, Dungeon.rooms d = front ++ [boss]
                       ∧ Room.type boss = "boss"
                       ∧ ∀ r, r ∈ front → Room.type r ≠ "boss")
      ∧ (∃ x, int_mul_float level (lit 15 10) = Ok x
              ∧ int_of_float x = Ok (Z.of_nat (length (Dungeon.traps d))))
      ∧ (3 * level < 2 ^ 53 →
         Z.of_nat (length (Dungeon.traps d)) = (3 * level) `div` 2)
      ∧ length (Dungeon.walls d) = (4 * length (Dungeon.rooms d))%nat.
Proof.
  intros Hlevel.
  assert (Hdiv : 0 ≤ level `div` 2) by (apply Z.div_pos; lia).
  destruct (generate_dungeon_run level w ltac:(lia))
    as (new & corridors & Hlen & Htypes & Hrun).
  set (num_rooms := (3 + level `div` 2) `min` 8) in *.
  split.
  - intros Hsmall.
    destruct (int_of_int_mul_float_total level 900 (lit 15 10) 1
                ltac:(unfold within; lia) ltac:(lia) ltac:(below_closed)
                ltac:(lia) ltac:(lia)) as (x & n & Hx & Hn & _).
    rewrite Hx in Hrun. cbn [mbind result_bind] in Hrun. rewrite Hn in Hrun.
    destruct Hrun as (traps & sps & w' & -> & _). by eexists _, _.
  - intros d w' Hd.
    destruct (int_mul_float level (lit 15 10)) as [x|e] eqn:Hx;
      cbn [mbind result_bind] in Hrun;
      [|destruct Hrun as [? Hrun]; by rewrite Hd in Hrun].
    destruct (int_of_float x) as [num_traps|e] eqn:Hn;
      [|destruct Hrun as [? Hrun]; by rewrite Hd in Hrun].
    destruct Hrun as (traps & sps & w1 & Hrun & Htraps).
    rewrite Hd in Hrun. apply pair_Ok_inj in Hrun as [-> _].
    cbv beta iota delta [Dungeon.rooms Dungeon.traps Dungeon.walls].
    pose proof (int_of_level_times_1_5_nonneg level x num_traps Hlevel Hx Hn) as Hnn.
    split; [cbn [length]; lia|]. split; [|split; [|split; [|split]]].
    + exists new. split; [done|]. intros r Hr.
      apply list_elem_of_lookup in Hr as [j Hj]. apply Htypes in Hj.
      unfold room_type_ok in Hj. case_decide; [by rewrite Hj|]. by destruct Hj as [-> | ->].
    + destruct new as [|boss front _] using rev_ind; [cbn in Hlen; lia|].
      rewrite length_app in Hlen. cbn in Hlen.
      exists (the_spawn_room :: front), boss. split; [done|]. split.
      * specialize (Htypes (length front) boss (list_lookup_middle _ _ _ _ eq_refl)).
        unfold room_type_ok in Htypes. by rewrite decide_True in Htypes by lia.
      * intros r [-> | Hr]%elem_of_cons; [done|].
        apply list_elem_of_lookup in Hr as [j Hj].
        pose proof (lookup_lt_Some _ _ _ Hj) as Hlt.
        specialize (Htypes j r (lookup_app_l_Some _ _ _ _ Hj)).
        unfold room_type_ok in Htypes. rewrite decide_False in Htypes by lia.
        by destruct Htypes as [-> | ->].
    + exists x. split; [done|]. rewrite Htraps, Z2Nat.id by done. done.
    + intros Hsmall.
      destruct (int_of_level_times_1_5 level Hlevel Hsmall) as (x' & Hx' & Hn').
      rewrite Hx in Hx'. injection Hx' as <-. rewrite Hn in Hn'. injection Hn' as ->.
      rewrite Htraps, Z2Nat.id by done. done.
    + apply room_walls_length.
Qed.

(** C5. In every dungeon that [generate_dungeon] returns, the three counts
    of the metadata are the lengths of the lists of rooms, traps and spawn
    points that the dungeon holds. *)
Theorem generate_dungeon_metadata (level : Z) (w : DungeonWorld.t) :
  match generate_dungeon math_cos math_sin level w with
  | (Ok d, _) =>
      Metadata.num_rooms (Dungeon.metadata d) = Z.of_nat (length (Dungeon.rooms d))
      ∧ Metadata.num_traps (Dungeon.metadata d) = Z.of_nat (length (Dungeon.traps d))
      ∧ Metadata.num_spawn_points (Dungeon.metadata d)
        = Z.of_nat (length (Dungeon.spawnPoints d))
  | (Raise _, _) => True
  end.
Proof.
  destruct (generate_dungeon math_cos math_sin level w) as [[d|e] w'] eqn:H; [|done].
  unfold generate_dungeon in H. steps H. destruct a as [rooms corridors].
  steps H. by apply mret_Ok in H as [-> _].
Qed.
End DungeonGeneration.

Lemma generate_dungeon_shape_witness :
  ∃ d w', generate_dungeon (λ x, x) (λ x, x) 5 sample_world = (Ok d, w').
Proof.
  apply (generate_dungeon_shape (λ x, x) (λ x, x) 5 sample_world); [lia|].
  vm_compute. reflexivity.
Defined.

Example generate_dungeon_level_5 :
  match (generate_dungeon (λ x, x) (λ x, x) 5 sample_world).1 with
  | Ok d =>
      Room.type <$> Dungeon.rooms d = ["spawn"; "normal"; "treasure"; "normal"; "boss"]
      ∧ Trap.id <$> Dungeon.traps d
        = ["trap_1"; "trap_2"; "trap_3"; "trap_4"; "trap_5"; "trap_6"; "trap_7"]
      ∧ length (Dungeon.corridors d) = 5%nat
      ∧ length (Dungeon.walls d) = 20%nat
      ∧ Dungeon.metadata d = Metadata.mk 5 7 (Z.of_nat (length (Dungeon.spawnPoints d)))
  | Raise _ => False
  end.
Proof. by vm_compute. Qed.

(** * validate_dungeon *)

Lemma check_required_keys_Ok dungeon keys :
  check_required_keys dungeon keys = Ok () ↔ ∀ key, key ∈ keys → is_Some (dungeon !! key).
Proof.
  induction keys as [|key keys IH]; cbn [check_required_keys].
  - split; [|done]. intros _ key Hk. by apply elem_of_nil in Hk.
  - case_decide as Hkey.
    + split; [done|]. intros H. specialize (H key (list_elem_of_here _ _)).
      rewrite Hkey in H. by destruct H.
    + rewrite IH. split.
      * intros H k [-> | Hk]%elem_of_cons; [|by apply H].
        by apply not_eq_None_Some.
      * intros H k Hk. apply H. by apply list_elem_of_further.
Qed.

Lemma check_required_keys_result dungeon keys r :
  check_required_keys dungeon keys = r → r = Ok () ∨ ∃ msg, r = Raise (ValueError msg).
Proof.
  intros <-. induction keys as [|key keys IH]; cbn [check_required_keys]; [by left|].
  case_decide; [right; by eexists|done].
Qed.

Lemma eq_str_true v s : eq_str v s = true ↔ v = PStr s.
Proof.
  destruct v; cbn; try (split; [done|by intros ?]).
  rewrite bool_decide_eq_true. split; [by intros ->|by intros [= ->]].
Qed.

Lemma spawn_rooms_of_Ok rooms spawn_rooms :
  spawn_rooms_of rooms = Ok spawn_rooms →
  (∀ r, r ∈ rooms → ∃ t, getitem r "type" = Ok t)
  ∧ (spawn_rooms ≠ [] ↔ ∃ r, r ∈ rooms ∧ getitem r "type" = Ok (PStr "spawn")).
Proof.
  revert spawn_rooms. induction rooms as [|room rooms IH]; intros spawn_rooms H.
  - injection H as <-. split.
    + intros r Hr. by apply elem_of_nil in Hr.
    + split; [done|]. intros (r & Hr & _). by apply elem_of_nil in Hr.
  - cbn [spawn_rooms_of] in H. steps H. destruct (IH _ Hstep0) as [IH1 IH2].
    split.
    + intros r [-> | Hr]%elem_of_cons; eauto.
    + destruct (eq_str a "spawn") eqn:Heq; injection H as <-.
      * apply eq_str_true in Heq as ->. split; [|done]. intros _.
        exists room. split; [apply list_elem_of_here|done].
      * rewrite IH2. split.
        -- intros (r & Hr & Ht). exists r. split; [by apply list_elem_of_further|done].
        -- intros (r & [-> | Hr]%elem_of_cons & Ht); [|eauto].
           rewrite Hstep in Ht. injection Ht as ->. done.
Qed.

Lemma spawn_rooms_of_total rooms :
  (∀ r, r ∈ rooms → ∃ t, getitem r "type" = Ok t) →
  ∃ spawn_rooms, spawn_rooms_of rooms = Ok spawn_rooms.
Proof.
  induction rooms as [|room rooms IH]; intros H; [by eexists|].
  cbn [spawn_rooms_of].
  destruct (H room (list_elem_of_here _ _)) as [t ->].
  destruct IH as [l ->]; [intros r Hr; apply H; by apply list_elem_of_further|].
  cbn. destruct (eq_str t "spawn"); by eexists.
Qed.

Lemma getitem_dict_Ok d key v : getitem (PDict d) key = Ok v ↔ d !! key = Some v.
Proof.
  cbn. destruct (d !! key); split; intros H; by simplify_eq.
Qed.

Lemma validate_dungeon_Ok dungeon b :
  validate_dungeon dungeon = Ok b → b = true ∧ acceptable dungeon.
Proof.
  unfold validate_dungeon. intros H. steps H.
  destruct a. pose proof (proj1 (check_required_keys_Ok _ _) Hstep) as Hkeys.
  destruct a0 as [| | | | |rooms|]; try done.
  case_decide as Hlen; [done|]. steps H.
  case_decide as Hspawn; [done|]. steps H.
  destruct (eq_int _ (Z.of_nat _)) eqn:Hrooms in H; [|done]. cbn [negb] in H. steps H.
  destruct (eq_int _ _) eqn:Htraps in H; [|done]. cbn [negb] in H. steps H.
  destruct (eq_int _ _) eqn:Hsps in H; [|done]. cbn [negb] in H. injection H as <-.
  match goal with
  | H : spawn_rooms_of _ = Ok _ |- _ => apply spawn_rooms_of_Ok in H as [Htypes Hs]
  end.
  repeat match goal with
         | H : getitem (PDict _) _ = Ok _ |- _ => apply getitem_dict_Ok in H
         end.
  split; [done|]. split; [done|].
  eexists _, _, _, _, _, _, _, _, _.
  repeat match goal with |- _ ∧ _ => split end; try eassumption.
  - by destruct rooms.
  - apply Hs. by destruct a.
Qed.

Lemma validate_dungeon_acceptable dungeon :
  acceptable dungeon → validate_dungeon dungeon = Ok true.
Proof.
  intros (Hkeys & rooms & metadata & traps & sps & nr & nt & ns & tl & sl
          & Hrooms & Hne & Htypes & Hspawn & Hmeta & Hnr & Hnr' & Hnt & Htraps & Htl & Hnt'
          & Hns & Hsps & Hsl & Hns').
  unfold validate_dungeon.
  rewrite (proj2 (check_required_keys_Ok _ _) Hkeys). cbn [mbind result_bind].
  apply getitem_dict_Ok in Hrooms, Hmeta, Htraps, Hsps. rewrite Hrooms.
  cbn [mbind result_bind].
  rewrite decide_False by by destruct rooms.
  destruct (spawn_rooms_of_total rooms Htypes) as [spawn_rooms Hs]. rewrite Hs.
  cbn [mbind result_bind].
  apply spawn_rooms_of_Ok in Hs as [_ Hs].
  rewrite decide_False by (destruct spawn_rooms; [by apply Hs in Hspawn|done]).
  rewrite Hmeta. cbn [mbind result_bind]. rewrite Hnr. cbn [mbind result_bind].
  rewrite Hnr'. cbn [negb]. rewrite Hnt. cbn [mbind result_bind].
  rewrite Htraps. cbn [mbind result_bind]. rewrite Htl. cbn [mbind result_bind].
  rewrite Hnt'. cbn [negb]. rewrite Hns. cbn [mbind result_bind].
  rewrite Hsps. cbn [mbind result_bind]. rewrite Hsl. cbn [mbind result_bind].
  by rewrite Hns'.
Qed.

(** C9, as stated, fails: a dungeon with two spawn rooms is accepted. *)
Lemma two_spawn_rooms_accepted :
  validate_dungeon two_spawn_dungeon = Ok true
  ∧ (∃ spawn, two_spawn_dungeon !! "rooms" = Some (PList [spawn; spawn])
              ∧ getitem spawn "type" = Ok (PStr "spawn")).
Proof. split; [by vm_compute|]. eexists. split; by vm_compute. Qed.

(** C9, amended. [validate_dungeon] accepts a dungeon exactly when
    [acceptable] holds of it: it has all seven keys; its rooms are a
    non-empty list; every room gives a type (it is a dictionary with the
    key ['type']); at least one room has the type spawn; its metadata gives
    the three counts [num_rooms], [num_traps] and [num_spawn_points]; its
    traps and its spawn points have a length; and the three counts equal
    the lengths of the rooms, the traps and the spawn points. Every other
    dungeon is rejected with a raised error (the function never returns
    false). Two or more spawn rooms are accepted. *)
Theorem validate_dungeon_accepts (dungeon : gmap string pyval) :
  (validate_dungeon dungeon = Ok true ↔ acceptable dungeon)
  ∧ (¬ acceptable dungeon → ∃ e, validate_dungeon dungeon = Raise e).
Proof.
  split.
  - split; [by intros [_ ?]%validate_dungeon_Ok|apply validate_dungeon_acceptable].
  - intros Hn. destruct (validate_dungeon dungeon) as [b|e] eqn:H; [|by eexists].
    by apply validate_dungeon_Ok in H as [_ ?].
Qed.

Lemma validate_dungeon_accepts_witness :
  ∃ e, validate_dungeon (delete "level" two_spawn_dungeon) = Raise e.
Proof.
  apply (validate_dungeon_accepts (delete "level" two_spawn_dungeon)).
  intros [Hkeys _]. destruct (Hkeys "level") as [v Hv].
  - unfold required_keys. rewrite !elem_of_cons. auto 10.
  - by rewrite lookup_delete_eq in Hv.
Defined.

Example validate_dungeon_missing_key :
  validate_dungeon (delete "level" two_spawn_dungeon)
  = Raise (ValueError "Missing required key: level").
Proof. by vm_compute. Qed.

Example validate_dungeon_no_spawn :
  validate_dungeon
    (<["rooms" := PList [PDict {[ "type" := PStr "boss" ]}]]>
       (<["metadata" := PDict (<["num_rooms" := PInt 1]> (<["num_traps" := PInt 0]>
                              (<["num_spawn_points" := PInt 0]> ∅)))]> two_spawn_dungeon))
  = Raise (ValueError "Dungeon must have a spawn room").
Proof. by vm_compute. Qed.

Example validate_dungeon_count_mismatch :
  validate_dungeon (<["traps" := PList [PNone]]> two_spawn_dungeon)
  = Raise (ValueError "Metadata trap count doesn't match actual traps").
Proof. by vm_compute. Qed.

(** * Generated dungeons pass the validation *)

Ltac lookup_key :=
  repeat (rewrite lookup_insert_ne by done); rewrite lookup_insert_eq.

Lemma dungeon_dict_acceptable d others :
  Dungeon.rooms d = the_spawn_room :: others →
  Metadata.num_rooms (Dungeon.metadata d) = Z.of_nat (length (Dungeon.rooms d)) →
  Metadata.num_traps (Dungeon.metadata d) = Z.of_nat (length (Dungeon.traps d)) →
  Metadata.num_spawn_points (Dungeon.metadata d) = Z.of_nat (length (Dungeon.spawnPoints d)) →
  acceptable (dungeon_dict d).
Proof.
  intros Hrooms Hnr Hnt Hns. split.
  - intros key Hkey. unfold required_keys in Hkey.
    rewrite !elem_of_cons, elem_of_nil in Hkey. unfold dungeon_dict.
    destruct Hkey as [->|[->|[->|[->|[->|[->|[->|[]]]]]]]]; lookup_key; eauto.
  - exists (room_dict <$> Dungeon.rooms d), (metadata_dict (Dungeon.metadata d)),
      (PList (trap_dict <$> Dungeon.traps d)),
      (PList (spawn_point_dict <$> Dungeon.spawnPoints d)),
      (PInt (Metadata.num_rooms (Dungeon.metadata d))),
      (PInt (Metadata.num_traps (Dungeon.metadata d))),
      (PInt (Metadata.num_spawn_points (Dungeon.metadata d))),
      (Z.of_nat (length (Dungeon.traps d))), (Z.of_nat (length (Dungeon.spawnPoints d))).
    assert (Htype : ∀ r, getitem (room_dict r) "type" = Ok (PStr (Room.type r))).
    { intros r. unfold room_dict, getitem. by lookup_key. }
    repeat match goal with |- _ ∧ _ => split end.
    all: try (unfold dungeon_dict; lookup_key; done).
    all: try (unfold metadata_dict, getitem; lookup_key; done).
    all: try (cbn [len]; by rewrite length_fmap).
    all: try (cbn [eq_int]; rewrite ?length_fmap; by apply bool_decide_eq_true).
    + by rewrite Hrooms.
    + intros r (r0 & -> & _)%list_elem_of_fmap. rewrite Htype. eauto.
    + exists (room_dict the_spawn_room). rewrite Hrooms. split.
      * rewrite fmap_cons. apply list_elem_of_here.
      * apply Htype.
Qed.

(** Every dungeon generated for a level of at least 1 is accepted by
    [validate_dungeon]. *)
Lemma generated_dungeon_accepted math_cos math_sin level w d w' :
  1 ≤ level →
  generate_dungeon math_cos math_sin level w = (Ok d, w') →
  validate_dungeon (dungeon_dict d) = Ok true.
Proof.
  intros Hlevel Hd.
  assert (Hdiv : 0 ≤ level `div` 2) by (apply Z.div_pos; lia).
  destruct (generate_dungeon_run math_cos math_sin level w ltac:(lia))
    as (new & corridors & _ & _ & Hrun).
  destruct (int_mul_float level (lit 15 10) ≫= int_of_float) as [n|e];
    [|destruct Hrun as [? Hrun]; by rewrite Hd in Hrun].
  destruct Hrun as (traps & sps & w1 & Hrun & _).
  rewrite Hd in Hrun. apply pair_Ok_inj in Hrun as [-> _].
  apply validate_dungeon_acceptable. by eapply dungeon_dict_acceptable.
Qed.

Example generated_dungeon_accepted_level_5 :
  match (generate_dungeon (λ x, x) (λ x, x) 5 sample_world).1 with
  | Ok d => validate_dungeon (dungeon_dict d) = Ok true
  | Raise _ => False
  end.
Proof. by vm_compute. Qed.

(** * Exact binary64 arithmetic on small dyadic numbers

    The products and sums of [LootSystem._generate_stats] involve integers
    and the multipliers 1.0, 1.5, 2.0, 3.0 and 5.0 only; binary64 computes
    them without rounding as long as the results stay below 2^53. *)

Lemma dyadic_mantissa n :
  Z.pos n < 2 ^ 53 →
  let d := Z.pos (digits2_pos n) in
  1 ≤ d ≤ 53
  ∧ Z.pos (Z.to_pos (Z.pos n * 2 ^ (53 - d))) = Z.pos n * 2 ^ (53 - d)
  ∧ Z.pos (digits2_pos (Z.to_pos (Z.pos n * 2 ^ (53 - d)))) = 53.
Proof.
  intros Hn d.
  assert (Hd : 1 ≤ d ≤ 53).
  { split; [unfold d; lia|]. by apply digits_le_of_lt. }
  assert (Hq : Z.pos (Z.to_pos (Z.pos n * 2 ^ (53 - d))) = Z.pos n * 2 ^ (53 - d)).
  { rewrite Z2Pos.id; [done|]. apply Z.mul_pos_pos; [lia|]. apply Z.pow_pos_nonneg; lia. }
  split; [done|]. split; [done|].
  rewrite (digits_mul_pow2 n (53 - d) _ ltac:(lia) Hq). fold d. lia.
Qed.

(** Normalisation is exact on [n * 2^j * 2^e] when [n] is below 2^53. *)
Lemma binary_normalize_dyadic m n j e :
  Z.pos m = Z.pos n * 2 ^ j → 0 ≤ j → Z.pos n < 2 ^ 53 → -1022 ≤ e + j ≤ 971 →
  binary_normalize 53 1024 (Z.pos m) e false = dyadic n (e + j).
Proof.
  intros Hm Hj Hn He.
  destruct (dyadic_mantissa n Hn) as (Hd & Hq & Hdq).
  set (d := Z.pos (digits2_pos n)) in *.
  set (q := Z.to_pos (Z.pos n * 2 ^ (53 - d))) in *.
  assert (HdM : Z.pos (digits2_pos m) = d + j) by by apply (digits_mul_pow2 n).
  unfold dyadic. fold d q.
  unfold binary_normalize, binary_round.
  rewrite HdM, fexp_eq.
  replace ((d + j + e - 53) `max` (-1074)) with (d + j + e - 53) by lia.
  unfold shl_align.
  destruct (d + j + e - 53 - e) as [|k|k] eqn:Ek.
  - (* the mantissa has 53 digits *)
    rewrite bra_no_shift by (rewrite HdM, fexp_eq; lia).
    assert ((e <=? 971) = true) as -> by (apply Z.leb_le; lia).
    f_equal; [|lia]. apply Pos2Z.inj. rewrite Hq, Hm. f_equal. f_equal. lia.
  - (* more than 53 digits: the low bits are zero *)
    rewrite (bra_exact_shift false m e (Z.pos k) q).
    + assert ((e + Z.pos k <=? 971) = true) as -> by (apply Z.leb_le; lia).
      f_equal. lia.
    + rewrite HdM, fexp_eq. lia.
    + lia.
    + rewrite Hq, Hm. rewrite <- Z.mul_assoc, <- Z.pow_add_r by lia. do 2 f_equal. lia.
  - (* fewer than 53 digits: the mantissa is shifted left *)
    assert (Hs : Z.pos (Pos.iter xO m k) = Z.pos q).
    { rewrite pos_iter_xO, Hq, Hm.
      rewrite <- Z.mul_assoc, <- Z.pow_add_r by lia. do 2 f_equal. lia. }
    apply Pos2Z.inj in Hs. rewrite Hs.
    rewrite bra_no_shift by (rewrite Hdq, fexp_eq; lia).
    assert ((d + j + e - 53 <=? 971) = true) as -> by (apply Z.leb_le; lia).
    f_equal. lia.
Qed.

Lemma Z2F_dyadic n : Z.pos n < 2 ^ 53 → Z2F (Z.pos n) = dyadic n 0.
Proof.
  intros Hn. unfold Z2F.
  rewrite (binary_normalize_dyadic n n 0 0); [done|lia|lia|done|lia].
Qed.

Lemma dyadic_shift n j e :
  0 ≤ j → Z.pos n * 2 ^ j < 2 ^ 53 →
  dyadic (Z.to_pos (Z.pos n * 2 ^ j)) e = dyadic n (e + j).
Proof.
  intros Hj Hn.
  assert (Hp : 0 < 2 ^ j) by (apply Z.pow_pos_nonneg; lia).
  assert (Hm : Z.pos (Z.to_pos (Z.pos n * 2 ^ j)) = Z.pos n * 2 ^ j).
  { rewrite Z2Pos.id; [done|]. lia. }
  assert (Hn' : Z.pos n < 2 ^ 53) by nia.
  destruct (dyadic_mantissa n Hn') as (Hd & Hq & _).
  pose proof (digits_mul_pow2 n j _ Hj Hm) as HdM.
  rewrite <- Hm in Hn. destruct (dyadic_mantissa _ Hn) as (HdM' & HqM & _).
  unfold dyadic. rewrite HdM in *.
  set (d := Z.pos (digits2_pos n)) in *.
  f_equal; [|lia]. apply Pos2Z.inj. rewrite HqM, Hq, Hm.
  rewrite <- Z.mul_assoc, <- Z.pow_add_r by lia. do 2 f_equal. lia.
Qed.

Lemma fmul_dyadic a ea b eb :
  Z.pos a * Z.pos b < 2 ^ 53 → -1022 ≤ ea + eb ≤ 971 →
  fmul (dyadic a ea) (dyadic b eb) = dyadic (a * b) (ea + eb).
Proof.
  intros Hab He.
  assert (Ha : Z.pos a < 2 ^ 53) by nia. assert (Hb : Z.pos b < 2 ^ 53) by nia.
  destruct (dyadic_mantissa a Ha) as (Hda & Hqa & Hdqa).
  destruct (dyadic_mantissa b Hb) as (Hdb & Hqb & Hdqb).
  destruct (dyadic_mantissa (a * b) ltac:(lia)) as (Hdc & Hqc & Hdqc).
  unfold dyadic at 1 2.
  set (da := Z.pos (digits2_pos a)) in *. set (db := Z.pos (digits2_pos b)) in *.
  set (qa := Z.to_pos (Z.pos a * 2 ^ (53 - da))) in *.
  set (qb := Z.to_pos (Z.pos b * 2 ^ (53 - db))) in *.
  set (dc := Z.pos (digits2_pos (a * b))) in *.
  set (qc := Z.to_pos (Z.pos (a * b) * 2 ^ (53 - dc))) in *.
  assert (Hdd : da + db - 1 ≤ dc) by apply digits_mul.
  cbn [fmul SFmul xorb].
  assert (HM : Z.pos (qa * qb) = Z.pos qc * 2 ^ (dc + 53 - da - db)).
  { assert (Hp1 : 2 ^ (53 - da) * 2 ^ (53 - db) = 2 ^ (106 - da - db))
      by (rewrite <- Z.pow_add_r by lia; f_equal; lia).
    assert (Hp2 : 2 ^ (53 - dc) * 2 ^ (dc + 53 - da - db) = 2 ^ (106 - da - db))
      by (rewrite <- Z.pow_add_r by lia; f_equal; lia).
    rewrite Pos2Z.inj_mul, Hqa, Hqb, Hqc, Pos2Z.inj_mul.
    transitivity (Z.pos a * Z.pos b * (2 ^ (53 - da) * 2 ^ (53 - db))); [ring|].
    rewrite Hp1, <- Hp2. ring. }
  assert (HdM : Z.pos (digits2_pos (qa * qb)) = dc + 106 - da - db).
  { rewrite (digits_mul_pow2 qc (dc + 53 - da - db) _ ltac:(lia) HM), Hdqc. lia. }
  rewrite (bra_exact_shift false _ _ (dc + 53 - da - db) qc).
  - assert ((ea - (53 - da) + (eb - (53 - db)) + (dc + 53 - da - db) <=? 971) = true)
      as -> by (apply Z.leb_le; lia).
    unfold dyadic. fold dc qc. f_equal. lia.
  - rewrite HdM, fexp_eq. lia.
  - lia.
  - done.
Qed.

Lemma fadd_dyadic a b e :
  Z.pos a + Z.pos b < 2 ^ 53 → -1022 ≤ e ≤ 971 →
  fadd (dyadic a e) (dyadic b e) = dyadic (a + b) e.
Proof.
  intros Hab He.
  destruct (dyadic_mantissa a ltac:(lia)) as (Hda & Hqa & _).
  destruct (dyadic_mantissa b ltac:(lia)) as (Hdb & Hqb & _).
  unfold dyadic at 1 2.
  set (da := Z.pos (digits2_pos a)) in *. set (db := Z.pos (digits2_pos b)) in *.
  set (qa := Z.to_pos (Z.pos a * 2 ^ (53 - da))) in *.
  set (qb := Z.to_pos (Z.pos b * 2 ^ (53 - db))) in *.
  cbn [fadd SFadd cond_Zopp].
  set (ez := (e - (53 - da)) `min` (e - (53 - db))).
  pose proof (shl_align_fst qa (e - (53 - da)) ez ltac:(lia)) as Ha.
  pose proof (shl_align_fst qb (e - (53 - db)) ez ltac:(lia)) as Hb.
  rewrite <- Pos2Z.inj_add.
  rewrite (binary_normalize_dyadic _ (a + b) (e - ez) ez).
  - f_equal. lia.
  - rewrite Pos2Z.inj_add, Ha, Hb, Hqa, Hqb, Pos2Z.inj_add.
    assert (Hpa : 2 ^ (53 - da) * 2 ^ (e - (53 - da) - ez) = 2 ^ (e - ez))
      by (rewrite <- Z.pow_add_r by lia; f_equal; lia).
    assert (Hpb : 2 ^ (53 - db) * 2 ^ (e - (53 - db) - ez) = 2 ^ (e - ez))
      by (rewrite <- Z.pow_add_r by lia; f_equal; lia).
    rewrite <- !Z.mul_assoc, Hpa, Hpb. ring.
  - lia.
  - lia.
  - lia.
Qed.

Lemma int_of_dyadic n e :
  Z.pos n < 2 ^ 53 → int_of_float (dyadic n e) = Ok (Z.shiftl (Z.pos n) e).
Proof.
  intros Hn. destruct (dyadic_mantissa n Hn) as (Hd & Hq & _).
  unfold dyadic. cbn [int_of_float cond_Zopp]. rewrite Hq. f_equal.
  rewrite <- Z.shiftl_mul_pow2 by lia. rewrite Z.shiftl_shiftl by lia. f_equal. lia.
Qed.

(** [int(z * x)] for a positive int [z] and a dyadic float [x]. *)
Lemma int_mul_dyadic z c e :
  0 < z → z * Z.pos c < 2 ^ 53 → -1022 ≤ e ≤ 971 →
  int_mul_float z (dyadic c e) = Ok (dyadic (Z.to_pos z * c) e)
  ∧ int_of_float (dyadic (Z.to_pos z * c) e) = Ok (Z.shiftl (z * Z.pos c) e).
Proof.
  intros Hz Hzc He. destruct z as [|p|p]; try lia. cbn [Z.to_pos].
  assert (Hp : Z.pos p < 2 ^ 53) by nia.
  unfold int_mul_float. rewrite float_of_int_pos, Z2F_dyadic by done.
  rewrite fmul_dyadic by (cbn [Z.add]; lia). split; [done|].
  rewrite int_of_dyadic by lia. done.
Qed.

(** * Further properties of CombatSystem *)

(** ** Status effects of [calculate_damage] *)

Lemma calculate_damage_Ok b dt a d crit g r g' :
  CombatSystem.calculate_damage b dt a d crit g = (Ok r, g') →
  1 ≤ DamageResult.damage r ∧ DamageResult.damage_type r = dt.
Proof.
  intros Hrun. pose proof (calculate_damage_spec b dt a d crit g) as Hspec.
  destruct (spec_damage b dt a d (flt (next_random g) crit)) as [z|e] eqn:Hz.
  - destruct Hspec as (r0 & g0 & Hrun0 & Hdmg & _ & Hdt).
    rewrite Hrun in Hrun0. injection Hrun0 as <- <-.
    split; [|done]. rewrite Hdmg. by eapply spec_damage_at_least_one.
  - destruct Hspec as [g0 Hrun0]. by rewrite Hrun in Hrun0.
Qed.

(** X1. The status effect of a blow depends on the damage type alone and on
    one more draw: physical and arcane damage never carry one and use two
    draws; fire, ice, lightning and poison use a third draw and carry
    burn (5000 ms), slow (4000 ms, value 0.5), stun (2000 ms, value 0) or
    poison (10000 ms) exactly when that draw is below 0.3, 0.4, 0.2 or 0.5.
    The effect's id is [status_n] with [n] between 1000 and 9999, and the
    value of a burn or of a poison is a tenth or a twentieth of the damage
    before it was truncated to an int. *)
Theorem calculate_damage_status_effect b dt a d crit g r g' :
  CombatSystem.calculate_damage b dt a d crit g = (Ok r, g') →
  match status_threshold dt with
  | None => DamageResult.status_effect r = None ∧ g' = advance (advance g)
  | Some threshold =>
      g' = advance (advance (advance g))
      ∧ if flt (next_random (advance (advance g))) threshold then
          ∃ s n total,
            DamageResult.status_effect r = Some s
            ∧ 1000 ≤ n ≤ 9999
            ∧ StatusEffect.id s = "status_" +:+ pretty n
            ∧ int_of_number total = Ok (DamageResult.damage r)
            ∧ match dt with
              | DamageType.FIRE =>
                  StatusEffect.type s = StatusEffectType.BURN
                  ∧ StatusEffect.duration s = 5000
                  ∧ ∃ v, number_mul_float total (lit 1 10) = Ok v
                         ∧ StatusEffect.value s = Float v
              | DamageType.ICE =>
                  StatusEffect.type s = StatusEffectType.SLOW
                  ∧ StatusEffect.duration s = 4000
                  ∧ StatusEffect.value s = Float (lit 5 10)
              | DamageType.LIGHTNING =>
                  StatusEffect.type s = StatusEffectType.STUN
                  ∧ StatusEffect.duration s = 2000
                  ∧ StatusEffect.value s = Int 0
              | _ =>
                  StatusEffect.type s = StatusEffectType.POISON
                  ∧ StatusEffect.duration s = 10000
                  ∧ ∃ v, number_mul_float total (lit 5 100) = Ok v
                         ∧ StatusEffect.value s = Float v
              end
        else DamageResult.status_effect r = None
  end.
Proof.
  unfold CombatSystem.calculate_damage. intros H. steps H.
  apply lift_result_Ok in Hstep as [_ ->].
  assert (s0 = g) as ->.
  { destruct dt; try (by apply mret_Ok in Hstep0 as [_ ->]);
      step Hstep0; apply lift_result_Ok in Hstep as [_ ->];
      by apply mret_Ok in Hstep0 as [_ ->]. }
  apply lift_result_Ok in Hstep1 as [_ ->].
  injection Hstep2 as <- <-.
  apply lift_result_Ok in Hstep3 as [Hint ->].
  apply random_randint_range in Hstep4 as [Hn ->].
  set (total := if flt _ crit then _ else _) in *.
  destruct dt; cbn [status_threshold].
  1, 6: by apply mret_Ok in H as [-> ->].
  all: step H; injection Hstep as <- <-.
  all: fold (next_random (advance (advance g))) in *.
  all: destruct (flt (next_random (advance (advance g))) _);
    [|by apply mret_Ok in H as [-> ->]].
  - step H. apply lift_result_Ok in Hstep as [Hv ->]. apply mret_Ok in H as [-> ->].
    split; [done|]. eexists _, a5, total. cbn. repeat split; try done; try lia.
    by eexists.
  - apply mret_Ok in H as [-> ->]. split; [done|].
    eexists _, a5, total. cbn. repeat split; try done; lia.
  - apply mret_Ok in H as [-> ->]. split; [done|].
    eexists _, a5, total. cbn. repeat split; try done; lia.
  - step H. apply lift_result_Ok in Hstep as [Hv ->]. apply mret_Ok in H as [-> ->].
    split; [done|]. eexists _, a5, total. cbn. repeat split; try done; try lia.
    by eexists.
Qed.

Lemma calculate_damage_status_effect_witness :
  (CombatSystem.calculate_damage 30 DamageType.FIRE (Stats.mk 10 10 45 10)
     (Stats.mk 10 10 10 5) CombatSystem.default_crit_chance sample_rng).2
  = advance (advance (advance sample_rng)).
Proof.
  pose proof (calculate_damage_status_effect 30 DamageType.FIRE (Stats.mk 10 10 45 10)
                (Stats.mk 10 10 10 5) CombatSystem.default_crit_chance sample_rng
                sample_fire_hit
                (CombatSystem.calculate_damage 30 DamageType.FIRE (Stats.mk 10 10 45 10)
                   (Stats.mk 10 10 10 5) CombatSystem.default_crit_chance sample_rng).2
                ltac:(vm_compute; reflexivity)) as Hw.
  exact (proj1 Hw).
Defined.

(** ** Critical hits *)

Lemma spec_damage_floor b dt a d :
  within 1000 b → stats_within 1000 a → stats_within 1000 d →
  ∃ x, below_pow2 1006 x
       ∧ ∀ c, spec_damage b dt a d c
              = int_of_number (if c then number_double (max_1 x) else max_1 x).
Proof.
  intros Hb (Hstr & Hint & _) (_ & _ & Hvit). unfold spec_damage.
  destruct (float_of_int_below b 1000 Hb ltac:(lia)) as [-> Hbase].
  cbn [mbind result_bind].
  assert (H05 : below_pow2 0 (lit 5 10)) by (apply lit_below_1; in_list).
  assert (H07 : below_pow2 0 (lit 7 10)) by (apply lit_below_1; in_list).
  assert (H03 : below_pow2 0 (lit 3 10)) by (apply lit_below_1; in_list).
  destruct (int_mul_float_below _ 1000 _ 0 Hstr ltac:(lia) H05 ltac:(lia) ltac:(lia))
    as (xs & Hxs & Hbs).
  destruct (int_mul_float_below _ 1000 _ 0 Hint ltac:(lia) H07 ltac:(lia) ltac:(lia))
    as (xi & Hxi & Hbi).
  destruct (int_mul_float_below _ 1000 _ 0 Hvit ltac:(lia) H03 ltac:(lia) ltac:(lia))
    as (xv & Hxv & Hbv).
  assert (∃ total,
    match dt with
    | DamageType.PHYSICAL =>
        int_mul_float (Stats.strength a) (lit 5 10) ≫= λ bonus, Ok (fadd (Z2F b) bonus)
    | DamageType.POISON => Ok (Z2F b)
    | _ => int_mul_float (Stats.intelligence a) (lit 7 10) ≫= λ bonus, Ok (fadd (Z2F b) bonus)
    end = Ok total ∧ below_pow2 1004 total) as (total & -> & Htotal).
  { destruct dt; rewrite ?Hxs, ?Hxi; cbn [mbind result_bind]; eexists; (split; [done|]).
    all: try (eapply (fadd_below 1001 1002 1003); [done|done|lia|lia|lia]).
    eapply below_pow2_mono; [done|lia]. }
  cbn [mbind result_bind]. rewrite Hxv. cbn [mbind result_bind].
  exists (fsub total xv). split; [|done].
  eapply (fsub_below 1004 1002 1005); [done|done|lia|lia|lia].
Qed.

Lemma shiftl_succ m e :
  0 ≤ m → 2 * Z.shiftl m e ≤ Z.shiftl m (e + 1) ≤ 2 * Z.shiftl m e + 1.
Proof.
  intros Hm. destruct (decide (0 ≤ e)) as [He|He].
  - rewrite !Z.shiftl_mul_pow2 by lia. rewrite Z.pow_add_r by lia. lia.
  - rewrite !Z.shiftl_div_pow2 by lia.
    replace (- e) with (- (e + 1) + 1) by lia.
    rewrite Z.pow_add_r by lia. change (2 ^ 1) with 2.
    rewrite <- Z.div_div by (try apply Z.pow_pos_nonneg; lia).
    pose proof (Z.div_mod (m `div` 2 ^ (- (e + 1))) 2 ltac:(lia)).
    pose proof (Z.mod_pos_bound (m `div` 2 ^ (- (e + 1))) 2 ltac:(lia)). lia.
Qed.

(** Doubling a float above 1 changes its exponent and nothing else. *)
Lemma double_above_1 x :
  below_pow2 1022 x → float_gt_int x 1 = true →
  ∃ m e, x = S754_finite false m e ∧ fmul x (Z2F 2) = S754_finite false m (e + 1).
Proof.
  intros Hx Hgt.
  destruct (float_gt_int_1_shape x Hgt) as [->|(m & e & -> & Hd & _)]; [done|].
  destruct Hx as [Hcanon Hk]. rewrite fexp_eq in Hcanon.
  exists m, e. split; [done|].
  change (Z2F 2) with (S754_finite false 4503599627370496 (-51)).
  cbn [fmul SFmul xorb].
  assert (HM : Z.pos (m * 4503599627370496) = Z.pos m * 2 ^ 52) by done.
  pose proof (digits_mul_pow2 m 52 _ ltac:(lia) HM) as HdM.
  rewrite (bra_exact_shift false _ _ 52 m); [|rewrite HdM, fexp_eq; lia|lia|done].
  assert ((e + -51 + 52 <=? 971) = true) as -> by (apply Z.leb_le; lia).
  f_equal. lia.
Qed.

(** X21. A critical hit doubles the damage before it is truncated to an
    int: for the same attacker, defender and base damage (of magnitudes
    below 2^1000), the damage of a critical hit is twice the damage of an
    ordinary hit or one more than twice, never less and never more. *)
Theorem critical_hit_doubles b dt a d crit g1 r1 g1' g2 r2 g2' :
  within 1000 b → stats_within 1000 a → stats_within 1000 d →
  CombatSystem.calculate_damage b dt a d crit g1 = (Ok r1, g1') →
  CombatSystem.calculate_damage b dt a d crit g2 = (Ok r2, g2') →
  DamageResult.is_critical r1 = false → DamageResult.is_critical r2 = true →
  2 * DamageResult.damage r1 ≤ DamageResult.damage r2 ≤ 2 * DamageResult.damage r1 + 1.
Proof.
  intros Hb Ha Hd H1 H2 Hc1 Hc2.
  assert (Hspec : ∀ g r g', CombatSystem.calculate_damage b dt a d crit g = (Ok r, g') →
            spec_damage b dt a d (DamageResult.is_critical r) = Ok (DamageResult.damage r)).
  { intros g r g' H. pose proof (calculate_damage_spec b dt a d crit g) as Hs.
    destruct (spec_damage b dt a d (flt (next_random g) crit)) as [z|e] eqn:Hz.
    - destruct Hs as (r0 & g0 & Hr & Hdmg & Hcrit & _). rewrite H in Hr.
      injection Hr as <- <-. by rewrite Hcrit, Hdmg.
    - destruct Hs as [g0 Hr]. by rewrite H in Hr. }
  apply Hspec in H1, H2. rewrite Hc1 in H1. rewrite Hc2 in H2.
  destruct (spec_damage_floor b dt a d Hb Ha Hd) as (x & Hx & Hfloor).
  rewrite Hfloor in H1, H2. unfold max_1 in H1, H2.
  destruct (float_gt_int x 1) eqn:Hgt; cbn [number_double int_of_number] in H1, H2.
  - destruct (double_above_1 x (below_pow2_mono 1006 1022 x Hx ltac:(lia)) Hgt)
      as (m & e & -> & Hdouble).
    rewrite Hdouble in H2. cbn in H1, H2. injection H1 as <-. injection H2 as <-.
    apply shiftl_succ. lia.
  - injection H1 as <-. injection H2 as <-. lia.
Qed.

Lemma critical_hit_doubles_witness :
  2 * DamageResult.damage (sample_hit sample_rng)
  ≤ DamageResult.damage (sample_hit lucky_rng)
  ≤ 2 * DamageResult.damage (sample_hit sample_rng) + 1.
Proof.
  apply (critical_hit_doubles 25 DamageType.PHYSICAL (Stats.mk 11 10 10 10)
           (Stats.mk 10 7 6 12) CombatSystem.default_crit_chance
           sample_rng (sample_hit sample_rng) (advance (advance sample_rng))
           lucky_rng (sample_hit lucky_rng) (advance (advance lucky_rng)));
    try (vm_compute; reflexivity); vm_compute; repeat split; reflexivity.
Defined.

(** 25 + 11 * 0.5 - 12 * 0.3 is 26.9: 26 for an ordinary hit, 53 for a
    critical one. *)
Example critical_hit_sample :
  DamageResult.damage (sample_hit sample_rng) = 26
  ∧ DamageResult.damage (sample_hit lucky_rng) = 53.
Proof. by vm_compute. Qed.

(** ** Numbers too large for a float *)

(** Rounding a magnitude of 2^1024 or more gives an infinity. *)
Lemma binary_round_aux_overflow s m e :
  1025 ≤ Z.pos (digits2_pos m) + e →
  binary_round_aux 53 1024 s (Z.pos m) e loc_Exact = S754_infinity s.
Proof.
  intros Hge. set (d := Z.pos (digits2_pos m)) in *.
  pose proof (digits_bounds m) as Hd. fold d in Hd.
  destruct (decide (d ≤ 53)) as [Hsmall|Hbig].
  - rewrite bra_no_shift by (fold d; rewrite fexp_eq; lia).
    by assert ((e <=? 971) = false) as -> by (apply Z.leb_gt; lia).
  - unfold binary_round_aux.
    destruct (shr_fexp 53 1024 (Z.pos m) e loc_Exact) as [mrs' e'] eqn:H1.
    apply shr_fexp_m in H1. fold d in H1. rewrite fexp_eq in H1.
    destruct H1 as [_ H1]. destruct H1 as [Hm1 He']; [lia|].
    replace ((d + e - 53) `max` (-1074) - e) with (d - 53) in Hm1, He' by lia.
    assert (Hpow' : 2 ^ (d - 1) = 2 ^ 52 * 2 ^ (d - 53))
      by (rewrite <- Z.pow_add_r by lia; f_equal; lia).
    assert (Hpos : 0 < 2 ^ (d - 53)) by (apply Z.pow_pos_nonneg; lia).
    assert (Hm1b : 2 ^ 52 ≤ shr_m mrs').
    { rewrite Hm1. apply Z.div_le_lower_bound; lia. }
    pose proof (round_nearest_even_bounds (shr_m mrs') (loc_of_shr_record mrs')) as Hr.
    destruct (round_nearest_even (shr_m mrs') (loc_of_shr_record mrs')) as [|pr|pr] eqn:Er;
      try lia.
    pose proof (digits_bounds pr) as Hdr. set (dr := Z.pos (digits2_pos pr)) in *.
    destruct (shr_fexp 53 1024 (Z.pos pr) e' loc_Exact) as [mrs'' e''] eqn:H2.
    apply shr_fexp_m in H2. fold dr in H2. rewrite fexp_eq in H2.
    assert (Hdr2 : 53 ≤ dr).
    { destruct (decide (53 ≤ dr)) as [|Hn]; [done|].
      assert (2 ^ dr ≤ 2 ^ 52) by (apply Z.pow_le_mono_r; lia). lia. }
    replace ((dr + e' - 53) `max` (-1074) - e') with (dr - 53) in H2 by lia.
    assert (Hfin : 0 < shr_m mrs'' ∧ 972 ≤ e'').
    { destruct (decide (dr = 53)) as [Heq|Hne].
      - rewrite Heq in H2. destruct H2 as [[-> ->] _]; lia.
      - destruct H2 as [_ [-> ->]]; [lia|]. split; [|lia].
        assert (0 < 2 ^ (dr - 53)) by (apply Z.pow_pos_nonneg; lia).
        assert (2 ^ (dr - 1) = 2 ^ 52 * 2 ^ (dr - 53))
          by (rewrite <- Z.pow_add_r by lia; f_equal; lia).
        apply Z.div_str_pos. lia. }
    destruct (shr_m mrs'') as [|m2|m2] eqn:Em2; try lia.
    by assert ((e'' <=? 1024 - 53) = false) as -> by (apply Z.leb_gt; lia).
Qed.

Lemma float_of_int_overflow z :
  2 ^ 1024 ≤ Z.abs z →
  float_of_int z = Raise (OverflowError "int too large to convert to float").
Proof.
  intros Hz. unfold float_of_int, Z2F, binary_normalize, binary_round.
  assert (Hbig : ∀ p, 2 ^ 1024 ≤ Z.pos p → 1025 ≤ Z.pos (digits2_pos p)).
  { intros p Hp. pose proof (digits_bounds p) as [_ Hhi].
    destruct (decide (1025 ≤ Z.pos (digits2_pos p))) as [|Hn]; [done|].
    assert (2 ^ Z.pos (digits2_pos p) ≤ 2 ^ 1024) by (apply Z.pow_le_mono_r; lia). lia. }
  destruct z as [|p|p]; cbn [Z.abs] in Hz; [done| |];
    specialize (Hbig p Hz); rewrite Z.add_0_r, fexp_eq; unfold shl_align.
  all: destruct ((Z.pos (digits2_pos p) - 53) `max` (-1074) - 0) as [|k|k] eqn:Ek;
    try lia.
  all: by rewrite binary_round_aux_overflow by lia.
Qed.

(** X22. A base damage of magnitude 2^1024 or more is beyond the floats:
    [calculate_damage] raises [OverflowError] on the conversion [float(base_damage)],
    before any draw from the generator. *)
Theorem calculate_damage_overflow b dt a d crit g :
  2 ^ 1024 ≤ Z.abs b →
  CombatSystem.calculate_damage b dt a d crit g
  = (Raise (OverflowError "int too large to convert to float"), g).
Proof.
  intros Hb. unfold CombatSystem.calculate_damage.
  by rewrite (float_of_int_overflow b Hb).
Qed.

Lemma calculate_damage_overflow_witness :
  (CombatSystem.calculate_damage (2 ^ 1024) DamageType.PHYSICAL (Stats.mk 10 10 10 10)
     (Stats.mk 10 10 10 10) CombatSystem.default_crit_chance sample_rng).1
  = Raise (OverflowError "int too large to convert to float").
Proof.
  rewrite (calculate_damage_overflow (2 ^ 1024)); [reflexivity|].
  vm_compute. discriminate.
Defined.

(** ** The combat log of [simulate_combat] *)

Section CombatLog.
Import CombatSystem.

Lemma calculate_damage_physical b a d crit g r g' :
  calculate_damage b DamageType.PHYSICAL a d crit g = (Ok r, g') → plain_hit r.
Proof.
  intros H. destruct (calculate_damage_Ok _ _ _ _ _ _ _ _ H) as [Hd Ht].
  split; [done|]. split; [done|].
  unfold calculate_damage in H. steps H. by apply mret_Ok in H as [-> _].
Qed.

Lemma with_random_physical b a d crit w r w' :
  with_random (calculate_damage b DamageType.PHYSICAL a d crit) w = (Ok r, w') →
  plain_hit r.
Proof.
  unfold with_random, zoom.
  destruct (calculate_damage _ _ _ _ _ _) as [r0 g'] eqn:H. intros [= -> _].
  by eapply calculate_damage_physical.
Qed.

(** One round: the player's blow, and the enemy's if it is still alive. *)
Lemma loop_body_round l w l' w' :
  loop_body l w = (Ok l', w') →
  ∃ hit,
    plain_hit hit
    ∧ round_num l' = round_num l + 1
    ∧ enemy_health l' = enemy_health l - DamageResult.damage hit
    ∧ ((0 < enemy_health l'
        ∧ ∃ back, plain_hit back
             ∧ player_health l' = player_health l - DamageResult.damage back
             ∧ rounds l' = rounds l ++
                 [RoundInfo.mk (round_num l + 1) hit (0 `max` enemy_health l')
                    (Some back) (Some (0 `max` player_health l'))])
       ∨ (enemy_health l' ≤ 0
          ∧ player_health l' = player_health l
          ∧ rounds l' = rounds l ++
              [RoundInfo.mk (round_num l + 1) hit (0 `max` enemy_health l') None None])).
Proof.
  unfold loop_body. intros H. steps H.
  apply with_random_physical in Hstep2 as Hhit. exists a2. split; [done|].
  destruct (bool_decide _) eqn:Halive.
  - apply bool_decide_eq_true in Halive. steps H.
    apply with_random_physical in Hstep6 as Hback.
    apply mret_Ok in H as [-> _]. cbn. split; [done|]. split; [done|].
    left. split; [lia|]. by exists a6.
  - apply bool_decide_eq_false in Halive.
    apply mret_Ok in H as [-> _]. cbn. split; [done|]. split; [done|].
    right. split; [lia|]. done.
Qed.

Lemma loop_body_invariant p0 e0 l w l' w' :
  loop_condition l = true → combat_invariant p0 e0 l →
  loop_body l w = (Ok l', w') → combat_invariant p0 e0 l'.
Proof.
  intros Hc [Hround Hnum Hentries Halive Hlast Henemy Hplayer Hbound] Hbody.
  unfold loop_condition in Hc. rewrite !andb_true_iff, !bool_decide_eq_true in Hc.
  destruct Hc as [[Hp He] _].
  apply loop_body_round in Hbody as (hit & Hhit & Hr & Heh & Hcases).
  pose proof Hhit as (Hhit1 & _).
  assert (Hold : ∀ i entry, rounds l !! i = Some entry →
            0 < RoundInfo.enemyHealth entry
            ∧ ∃ h, RoundInfo.playerHealth entry = Some h ∧ 0 < h).
  { intros i entry Hi. destruct (decide (S i < length (rounds l))%nat) as [Hlt|Hge].
    - by eapply Halive.
    - assert (Hl : last (rounds l) = Some entry).
      { rewrite last_lookup. rewrite <- Hi. f_equal.
        apply lookup_lt_Some in Hi. lia. }
      rewrite Hl in Hlast. destruct Hlast as [Hle [Hlp|(_ & ? & _)]]; [|lia].
      split; [lia|]. eexists. split; [done|]. lia. }
  assert (Hnew : ∀ entry, rounds l' = rounds l ++ [entry] →
            RoundInfo.round entry = round_num l + 1 →
            round_num l' = Z.of_nat (length (rounds l'))
            ∧ RoundInfo.round <$> rounds l'
              = (λ k, Z.of_nat k + 1) <$> seq 0 (length (rounds l'))
            ∧ (∀ i e, rounds l' !! i = Some e → (S i < length (rounds l'))%nat →
                 0 < RoundInfo.enemyHealth e
                 ∧ ∃ h, RoundInfo.playerHealth e = Some h ∧ 0 < h)
            ∧ last (rounds l') = Some entry).
  { intros entry -> Hre. rewrite length_app. cbn [length].
    split; [lia|]. split; [|split].
    - rewrite fmap_app, Hnum, Nat.add_1_r, seq_S, fmap_app. cbn.
      rewrite Hre, Hround. done.
    - intros i e Hi Hlt. apply lookup_app_Some in Hi as [Hi|[Hge Hi]]; [by eapply Hold|].
      apply list_lookup_singleton_Some in Hi as [Hi _]. lia.
    - by rewrite last_snoc. }
  destruct Hcases as [(Halive' & back & Hback & Hph & Hrounds)
                     |(Hdead & Hph & Hrounds)].
  - destruct (Hnew _ Hrounds eq_refl) as (H1 & H2 & H3 & H4).
    pose proof Hback as (Hback1 & _).
    split; try done; try lia.
    + rewrite Hrounds. apply Forall_app. split; [done|].
      apply Forall_singleton. split; [done|]. cbn. split; [lia|]. split; [done|lia].
    + rewrite H4. cbn. split; [done|]. by left.
  - destruct (Hnew _ Hrounds eq_refl) as (H1 & H2 & H3 & H4).
    split; try done; try lia.
    + rewrite Hrounds. apply Forall_app. split; [done|].
      apply Forall_singleton. split; [done|]. cbn. lia.
    + rewrite H4. cbn. split; [done|]. right. split; [done|]. lia.
Qed.

Lemma while_loop_invariant fuel p0 e0 l w l' w' :
  combat_invariant p0 e0 l →
  while_loop fuel l w = (Ok l', w') → combat_invariant p0 e0 l'.
Proof.
  revert l w. induction fuel as [|fuel IH]; intros l w Hinv H.
  - by apply mret_Ok in H as [-> _].
  - cbn [while_loop] in H. destruct (loop_condition l) eqn:Hc.
    + step H. eapply IH; [|done]. by eapply loop_body_invariant.
    + by apply mret_Ok in H as [-> _].
Qed.

Lemma combat_invariant_start p0 e0 : combat_invariant p0 e0 (Locals [] p0 e0 0).
Proof. split; cbn; try done; lia. Qed.

(** What [simulate_combat] returns, with the invariant of its loop at exit. *)
Lemma simulate_combat_exit w r w' :
  simulate_combat w = (Ok r, w') →
  ∃ l, combat_invariant (Player.health (player w)) (Enemy.health (enemy w)) l
       ∧ loop_condition l = false
       ∧ r = CombatResult.mk (bool_decide (player_health l > 0)) (round_num l)
               (0 `max` player_health l) (0 `max` enemy_health l) (rounds l).
Proof.
  intros H. apply simulate_combat_Ok in H as (l & Hloop & ->). exists l.
  split; [|split; [|done]].
  - eapply while_loop_invariant; [apply combat_invariant_start|done].
  - apply while_loop_Ok in Hloop as (_ & _ & Hexit). apply Hexit. cbn. lia.
Qed.
End CombatLog.

(** X2. The combat log has one entry per round, numbered 1, 2, ... in
    order. In every entry the player's blow is physical, of at least one
    point and without status effect; the enemy strikes back, in the same
    way, exactly when the blow left it with health above 0, and the health
    shown is never negative. Every round but the last left both sides alive,
    and the last entry shows the final health of the enemy and, if the enemy
    struck back, of the player. *)
Theorem simulate_combat_log w r w' :
  CombatSystem.simulate_combat w = (Ok r, w') →
  RoundInfo.round <$> CombatResult.combatLog r
  = (λ k, Z.of_nat k + 1) <$> seq 0 (Z.to_nat (CombatResult.rounds r))
  ∧ Forall round_entry_ok (CombatResult.combatLog r)
  ∧ (∀ i entry, CombatResult.combatLog r !! i = Some entry →
       (S i < length (CombatResult.combatLog r))%nat →
       0 < RoundInfo.enemyHealth entry
       ∧ ∃ h, RoundInfo.playerHealth entry = Some h ∧ 0 < h)
  ∧ match last (CombatResult.combatLog r) with
    | Some entry =>
        RoundInfo.enemyHealth entry = CombatResult.finalEnemyHealth r
        ∧ (RoundInfo.playerHealth entry = Some (CombatResult.finalPlayerHealth r)
           ∨ RoundInfo.playerHealth entry = None
             ∧ CombatResult.finalEnemyHealth r = 0 ∧ CombatResult.victory r = true)
    | None => CombatResult.rounds r = 0
    end.
Proof.
  intros H. apply simulate_combat_exit in H as (l & Hinv & _ & ->).
  destruct Hinv as [Hround Hnum Hentries Halive Hlast _ _ _]. cbn.
  split; [by rewrite Hround, Nat2Z.id|]. split; [done|]. split; [done|].
  destruct (last (CombatSystem.rounds l)) as [entry|] eqn:Hl.
  - destruct Hlast as [He [Hp|(Hp & Hdead & Hwin)]]; split; try done; [by left|].
    right. split; [done|]. split; [lia|]. apply bool_decide_eq_true. lia.
  - apply last_None in Hl. rewrite Hl in Hround. done.
Qed.

Lemma simulate_combat_log_witness :
  Forall round_entry_ok (CombatResult.combatLog patient_result).
Proof.
  refine (proj1 (proj2 (simulate_combat_log patient_world patient_result
                          (CombatSystem.simulate_combat patient_world).2 _))).
  vm_compute. reflexivity.
Defined.

(** X3. A fight lasts no more rounds than the enemy has points of health,
    since every blow of the player takes one at least, and the player ends
    with no more health than at the start. A defeat leaves the player at
    0; a victory in fewer than 100 rounds, and any victory over an enemy of
    at most 100 points of health, leaves the enemy at 0: such an enemy is
    never saved by the bound of 100 rounds. *)
Theorem simulate_combat_decided w r w' :
  CombatSystem.simulate_combat w = (Ok r, w') →
  let p0 := Player.health (CombatSystem.player w) in
  let e0 := Enemy.health (CombatSystem.enemy w) in
  CombatResult.rounds r ≤ 0 `max` e0
  ∧ CombatResult.finalPlayerHealth r ≤ 0 `max` p0
  ∧ CombatResult.finalEnemyHealth r ≤ 0 `max` (e0 - CombatResult.rounds r)
  ∧ (CombatResult.victory r = false → CombatResult.finalPlayerHealth r = 0)
  ∧ (CombatResult.victory r = true → CombatResult.rounds r < 100 ∨ e0 ≤ 100 →
     CombatResult.finalEnemyHealth r = 0).
Proof.
  intros H p0 e0. apply simulate_combat_exit in H as (l & Hinv & Hexit & ->).
  destruct Hinv as [_ _ _ _ _ Henemy Hplayer Hbound]. fold p0 in Hplayer.
  fold e0 in Henemy, Hbound. cbn.
  unfold CombatSystem.loop_condition in Hexit.
  rewrite !andb_false_iff, !bool_decide_eq_false in Hexit.
  split; [done|]. split; [lia|]. split; [lia|]. split.
  - rewrite bool_decide_eq_false. lia.
  - rewrite bool_decide_eq_true. lia.
Qed.

Lemma simulate_combat_decided_witness :
  CombatResult.rounds patient_result ≤ 1000.
Proof.
  exact (proj1 (simulate_combat_decided patient_world patient_result
                  (CombatSystem.simulate_combat patient_world).2
                  ltac:(vm_compute; reflexivity))).
Defined.

(** X4. When the player or the enemy comes to the fight with no health
    above 0, there is no fight: [simulate_combat] returns at once, with an
    empty log and zero rounds, without a draw from the generator, and
    reports a victory exactly when the player's health is above 0. *)
Theorem simulate_combat_without_a_fight w :
  Player.health (CombatSystem.player w) ≤ 0 ∨ Enemy.health (CombatSystem.enemy w) ≤ 0 →
  CombatSystem.simulate_combat w
  = (Ok (CombatResult.mk (bool_decide (Player.health (CombatSystem.player w) > 0)) 0
           (0 `max` Player.health (CombatSystem.player w))
           (0 `max` Enemy.health (CombatSystem.enemy w)) []), w).
Proof.
  intros Hdead. unfold CombatSystem.simulate_combat. rewrite !gets_run. cbn [compose].
  assert (Hc : CombatSystem.loop_condition
                 (CombatSystem.Locals [] (Player.health (CombatSystem.player w))
                    (Enemy.health (CombatSystem.enemy w)) 0) = false).
  { unfold CombatSystem.loop_condition. cbn.
    rewrite !andb_false_iff, !bool_decide_eq_false. lia. }
  cbn [CombatSystem.while_loop]. rewrite Hc. done.
Qed.

Lemma simulate_combat_without_a_fight_witness :
  (CombatSystem.simulate_combat
     (CombatSystem.World (GameSimulator.create_player "Hero" (-4)) patient_enemy
        sample_rng)).1
  = Ok (CombatResult.mk false 0 0 1000 []).
Proof.
  rewrite (simulate_combat_without_a_fight
             (CombatSystem.World (GameSimulator.create_player "Hero" (-4)) patient_enemy
                sample_rng)); [reflexivity|].
  left. vm_compute. discriminate.
Defined.

(** ** The blows of a fight *)

Lemma calculate_damage_by_formula b dt a d crit g r g' :
  CombatSystem.calculate_damage b dt a d crit g = (Ok r, g') →
  spec_damage b dt a d (DamageResult.is_critical r) = Ok (DamageResult.damage r)
  ∧ DamageResult.damage_type r = dt.
Proof.
  intros H. pose proof (calculate_damage_spec b dt a d crit g) as Hs.
  destruct (spec_damage b dt a d (flt (next_random g) crit)) as [z|e] eqn:Hz.
  - destruct Hs as (r0 & g0 & Hr & Hdmg & Hcrit & Hdt). rewrite H in Hr.
    injection Hr as <- <-. by rewrite Hcrit, Hdmg.
  - destruct Hs as [g0 Hr]. by rewrite H in Hr.
Qed.

Section CombatBlows.
Import CombatSystem.

Lemma with_random_blow b a d w r w' :
  with_random (calculate_damage b DamageType.PHYSICAL a d default_crit_chance) w
  = (Ok r, w') →
  blow_by b a d r ∧ player w' = player w ∧ enemy w' = enemy w.
Proof.
  unfold with_random, zoom.
  destruct (calculate_damage _ _ _ _ _ _) as [r0 g'] eqn:H. intros [= -> <-].
  by apply calculate_damage_by_formula in H as [H _].
Qed.

Lemma loop_body_blows l w l' w' :
  loop_body l w = (Ok l', w') →
  ∃ entry,
    rounds l' = rounds l ++ [entry]
    ∧ round_blows (player w) (enemy w) entry
    ∧ enemy_health l' = enemy_health l - DamageResult.damage (RoundInfo.playerAttack entry)
    ∧ player_health l' = player_health l
                         - match RoundInfo.enemyAttack entry with
                           | Some back => DamageResult.damage back
                           | None => 0
                           end
    ∧ player w' = player w ∧ enemy w' = enemy w.
Proof.
  unfold loop_body. intros H. steps H.
  apply gets_Ok in Hstep as [-> ->]. apply gets_Ok in Hstep0 as [-> ->].
  apply gets_Ok in Hstep1 as [-> ->].
  apply with_random_blow in Hstep2 as (Hhit & Hp & He).
  destruct (bool_decide _).
  - steps H. apply gets_Ok in Hstep as [-> ->]. apply gets_Ok in Hstep0 as [-> ->].
    apply gets_Ok in Hstep1 as [-> ->].
    apply with_random_blow in Hstep2 as (Hback & Hp' & He').
    apply mret_Ok in H as [-> ->]. eexists. split; [done|]. cbn in *.
    rewrite Hp, He in Hback. split; [done|]. split; [done|]. split; [done|].
    by rewrite Hp', He'.
  - apply mret_Ok in H as [-> ->]. eexists. split; [done|]. cbn.
    split; [done|]. split; [done|]. split; [lia|done].
Qed.

Lemma damage_dealt_snoc log entry :
  damage_dealt (log ++ [entry])
  = damage_dealt log + DamageResult.damage (RoundInfo.playerAttack entry).
Proof. unfold damage_dealt. induction log as [|e log IH]; cbn; [lia|]. rewrite IH. lia. Qed.

Lemma damage_taken_snoc log entry :
  damage_taken (log ++ [entry])
  = damage_taken log + match RoundInfo.enemyAttack entry with
                       | Some back => DamageResult.damage back
                       | None => 0
                       end.
Proof. unfold damage_taken. induction log as [|e log IH]; cbn; [lia|]. rewrite IH. lia. Qed.

Lemma while_loop_blows fuel p0 e0 l w l' w' :
  Forall (round_blows (player w) (enemy w)) (rounds l) →
  enemy_health l = e0 - damage_dealt (rounds l) →
  player_health l = p0 - damage_taken (rounds l) →
  while_loop fuel l w = (Ok l', w') →
  Forall (round_blows (player w) (enemy w)) (rounds l')
  ∧ enemy_health l' = e0 - damage_dealt (rounds l')
  ∧ player_health l' = p0 - damage_taken (rounds l').
Proof.
  revert l w. induction fuel as [|fuel IH]; intros l w Hblows He Hp H.
  - by apply mret_Ok in H as [-> _].
  - cbn [while_loop] in H. destruct (loop_condition l).
    + step H. apply loop_body_blows in Hstep
        as (entry & Hrounds & Hentry & He1 & Hp1 & Hpw & Hew).
      rewrite <- Hpw, <- Hew. eapply IH; [| | |done].
      * rewrite Hpw, Hew, Hrounds. apply Forall_app. split; [done|]. by constructor.
      * rewrite He1, Hrounds, damage_dealt_snoc. lia.
      * rewrite Hp1, Hrounds, damage_taken_snoc. lia.
    + by apply mret_Ok in H as [-> _].
Qed.
End CombatBlows.

(** X23. Every blow in the combat log is a blow of the damage formula: the
    player's is the physical damage of [20 + 5 level] points with the
    player's stats against the enemy's, the enemy's is the physical damage of
    the enemy's damage value with the enemy's stats against the player's,
    each doubled after the floor when the log marks it critical. *)
Theorem simulate_combat_blows w r w' :
  CombatSystem.simulate_combat w = (Ok r, w') →
  Forall (round_blows (CombatSystem.player w) (CombatSystem.enemy w))
    (CombatResult.combatLog r).
Proof.
  intros H. apply simulate_combat_Ok in H as (l & Hloop & ->).
  eapply (while_loop_blows 100 (Player.health (CombatSystem.player w))
            (Enemy.health (CombatSystem.enemy w))) in Hloop as [Hblows _];
    [done|by constructor|cbn; lia|cbn; lia].
Qed.

(** X24. The final healths are the initial ones less the damage of the log:
    the enemy ends with its health minus the sum of the player's blows, the
    player with its health minus the sum of the enemy's blows, each shown as
    0 if that is negative; the fight is a victory exactly when the second
    difference is above 0. *)
Theorem simulate_combat_damage_accounts w r w' :
  CombatSystem.simulate_combat w = (Ok r, w') →
  let log := CombatResult.combatLog r in
  CombatResult.finalEnemyHealth r
  = 0 `max` (Enemy.health (CombatSystem.enemy w) - damage_dealt log)
  ∧ CombatResult.finalPlayerHealth r
    = 0 `max` (Player.health (CombatSystem.player w) - damage_taken log)
  ∧ (CombatResult.victory r = true
     ↔ Player.health (CombatSystem.player w) - damage_taken log > 0).
Proof.
  intros H. apply simulate_combat_Ok in H as (l & Hloop & ->).
  eapply (while_loop_blows 100 (Player.health (CombatSystem.player w))
            (Enemy.health (CombatSystem.enemy w))) in Hloop as (_ & He & Hp);
    [|by constructor|cbn; lia|cbn; lia].
  cbn. rewrite He, Hp, bool_decide_eq_true. done.
Qed.

Lemma simulate_combat_blows_witness :
  Forall (round_blows patient_player patient_enemy) (CombatResult.combatLog patient_result).
Proof.
  refine (simulate_combat_blows patient_world patient_result
            (CombatSystem.simulate_combat patient_world).2 _).
  vm_compute. reflexivity.
Defined.

Lemma simulate_combat_damage_accounts_witness :
  CombatResult.finalEnemyHealth patient_result
  = 0 `max` (1000 - damage_dealt (CombatResult.combatLog patient_result)).
Proof.
  refine (proj1 (simulate_combat_damage_accounts patient_world patient_result
                   (CombatSystem.simulate_combat patient_world).2 _)).
  vm_compute. reflexivity.
Defined.

(** * Further properties of EnemyFactory and GameSimulator *)

(** ** The enemies that [create_enemy] makes *)

Lemma create_enemy_fields enemy_type level g e g' :
  EnemyFactory.create_enemy enemy_type level g = (Ok e, g') →
  Enemy.level e = level
  ∧ Enemy.health e = Enemy.max_health e
  ∧ Enemy.stats e = Stats.mk (8 + level * 2) (6 + level) (5 + level) (10 + level * 2)
  ∧ (∃ n, 1000 ≤ n ≤ 9999 ∧ Enemy.id e = "enemy_" +:+ pretty n)
  ∧ g' = advance g.
Proof.
  unfold EnemyFactory.create_enemy. intros H. steps H.
  apply mret_Ok in H as [-> ->].
  repeat match goal with
         | H : lift_result _ _ = (Ok _, _) |- _ => apply lift_result_Ok in H as [_ ->]
         end.
  match goal with
  | H : random_randint _ _ _ = _ |- _ => apply random_randint_range in H as [Hn ->]
  end.
  assert (s = g) as ->.
  { destruct (EnemyFactory.ENEMY_TYPES !! _); [|done]. by apply mret_Ok in Hstep as [_ ->]. }
  cbn. repeat split; try done. by eexists.
Qed.

Lemma create_enemy_level_1 enemy_type g e g' :
  EnemyFactory.create_enemy enemy_type 1 g = (Ok e, g') →
  ∃ template,
    EnemyFactory.ENEMY_TYPES !! Enemy.type e = Some template
    ∧ Enemy.health e = EnemyTemplate.health template
    ∧ Enemy.damage e = EnemyTemplate.damage template
    ∧ Enemy.experience e = EnemyTemplate.experience template
    ∧ Enemy.gold_reward e = EnemyTemplate.gold template.
Proof.
  unfold EnemyFactory.create_enemy.
  set (ty := if decide (EnemyFactory.ENEMY_TYPES !! enemy_type = None)
             then "zombie" else enemy_type).
  destruct (EnemyFactory.ENEMY_TYPES !! ty) as [t|] eqn:Ht; [|done].
  rewrite ret_bind. intros H. exists t.
  assert (Hcases : t ∈ [EnemyTemplate.mk 50 10 20 5; EnemyTemplate.mk 40 15 25 8;
                        EnemyTemplate.mk 80 20 35 12; EnemyTemplate.mk 200 40 100 50]).
  { revert Ht. unfold EnemyFactory.ENEMY_TYPES. intros Ht.
    repeat (apply lookup_insert_Some in Ht as [[_ <-]|[_ Ht]]; [in_list|]).
    by rewrite lookup_empty in Ht. }
  rewrite !elem_of_cons, elem_of_nil in Hcases.
  steps H. apply mret_Ok in H as [-> _]. cbn.
  apply lift_result_Ok in Hstep as [Hm ->]. vm_compute in Hm. injection Hm as <-.
  apply lift_result_Ok in Hstep0 as [Hm ->]. vm_compute in Hm. injection Hm as <-.
  destruct Hcases as [->|[->|[->|[->|[]]]]].
  all: repeat match goal with
              | H : lift_result (int_mul_float _ _) _ = _ |- _ =>
                  apply lift_result_Ok in H as [H _]; vm_compute in H; injection H as <-
              end.
  all: repeat match goal with
              | H : lift_result (int_of_float _) _ = _ |- _ =>
                  apply lift_result_Ok in H as [H _]; vm_compute in H; injection H as <-
              end.
  all: done.
Qed.

(** X5. Whatever type string it is given, [create_enemy] makes an enemy of
    one of the four known types, of the requested type if that is one of
    them; the enemy has the requested level, full health, the stats
    [8 + 2 level], [6 + level], [5 + level], [10 + 2 level], and an id
    [enemy_n] with [n] between 1000 and 9999, for which one draw is used.
    At level 1 its health, damage, experience and gold are the base values
    of its type. *)
Theorem create_enemy_made enemy_type level g e g' :
  EnemyFactory.create_enemy enemy_type level g = (Ok e, g') →
  Enemy.type e ∈ ["zombie"; "skeleton"; "orc"; "demon"]
  ∧ (enemy_type ∈ ["zombie"; "skeleton"; "orc"; "demon"] → Enemy.type e = enemy_type)
  ∧ Enemy.level e = level
  ∧ Enemy.health e = Enemy.max_health e
  ∧ Enemy.stats e = Stats.mk (8 + level * 2) (6 + level) (5 + level) (10 + level * 2)
  ∧ (∃ n, 1000 ≤ n ≤ 9999 ∧ Enemy.id e = "enemy_" +:+ pretty n)
  ∧ g' = advance g
  ∧ (level = 1 →
     ∃ template,
       EnemyFactory.ENEMY_TYPES !! Enemy.type e = Some template
       ∧ Enemy.health e = EnemyTemplate.health template
       ∧ Enemy.damage e = EnemyTemplate.damage template
       ∧ Enemy.experience e = EnemyTemplate.experience template
       ∧ Enemy.gold_reward e = EnemyTemplate.gold template).
Proof.
  intros H. pose proof (create_enemy_type _ _ _ _ _ H) as Htype.
  destruct (create_enemy_fields _ _ _ _ _ H) as (Hl & Hh & Hs & Hid & Hg).
  split; [|split].
  - rewrite Htype. case_decide as Hk; [in_list|].
    destruct (decide (enemy_type ∈ ["zombie"; "skeleton"; "orc"; "demon"])); [done|].
    by apply enemy_types_unknown in n.
  - intros Hin. rewrite Htype, decide_False; [done|].
    intros Hk. by apply enemy_types_unknown in Hk.
  - repeat (split; [done|]). intros ->. by eapply create_enemy_level_1.
Qed.

Lemma create_enemy_made_witness : Enemy.type sample_orc = "orc".
Proof.
  apply (create_enemy_made "orc" 1 sample_rng sample_orc (advance sample_rng));
    [vm_compute; reflexivity|in_list].
Defined.

(** ** The books of [simulate_dungeon_run] *)

Section RunAccounts.
Import GameSimulator.

Lemma simulate_combat_health w c w' :
  CombatSystem.simulate_combat w = (Ok c, w') →
  0 ≤ CombatResult.finalPlayerHealth c
  ∧ CombatResult.finalPlayerHealth c ≤ 0 `max` Player.health (CombatSystem.player w)
  ∧ (CombatResult.victory c = true → 0 < CombatResult.finalPlayerHealth c)
  ∧ (CombatResult.victory c = false → CombatResult.finalPlayerHealth c = 0).
Proof.
  intros H. apply simulate_combat_exit in H as (l & Hinv & _ & ->).
  destruct Hinv as [_ _ _ _ _ _ Hplayer _]. cbn.
  rewrite bool_decide_eq_true, bool_decide_eq_false. lia.
Qed.

Lemma call_simulate_combat_inv player0 enemy0 w c p e w' :
  call_simulate_combat player0 enemy0 w = (Ok (c, p, e), w') →
  ∃ cw, CombatSystem.simulate_combat (CombatSystem.World player0 enemy0 (random w))
        = (Ok c, cw).
Proof.
  unfold call_simulate_combat. intros H. steps H.
  apply mret_Ok in H as [<- _].
  apply with_random_Ok in Hstep as (g' & Hcall & _).
  unfold CombatSystem.call_simulate_combat in Hcall.
  destruct (CombatSystem.simulate_combat _) as [[c0|?] cw]; [|done].
  injection Hcall as <- _ _ _. by eexists.
Qed.

Lemma sum_over_snoc f bs b : sum_over f (bs ++ [b]) = sum_over f bs + f b.1.
Proof. unfold sum_over. induction bs as [|b0 bs IH]; cbn; [lia|]. rewrite IH. lia. Qed.

Lemma no_healing_snoc bs b :
  no_healing bs →
  (∀ b0, last bs = Some b0 →
     CombatResult.finalPlayerHealth b.2 ≤ CombatResult.finalPlayerHealth b0.2) →
  no_healing (bs ++ [b]).
Proof.
  intros Hbs Hlast i b1 b2 H1 H2.
  apply lookup_app_Some in H2 as [H2|[Hge H2]].
  - apply lookup_lt_Some in H2 as Hlt.
    rewrite lookup_app_l in H1 by lia. by eapply Hbs.
  - apply list_lookup_singleton_Some in H2 as [Hi <-].
    rewrite lookup_app_l in H1 by lia. apply Hlast.
    rewrite last_lookup, <- H1. f_equal. lia.
Qed.

Lemma for_loop_accounts num_enemies player_level dungeon_level indices l w r w' :
  run_accounts player_level dungeon_level l w →
  for_loop num_enemies dungeon_level indices l w = (Ok r, w') →
  run_books player_level dungeon_level r (battles w')
  ∧ no_healing (battles w')
  ∧ ∀ b, b ∈ battles w' →
      Enemy.level b.1 = dungeon_level ∧ Enemy.health b.1 = Enemy.max_health b.1.
Proof.
  revert l w. induction indices as [|i indices IH]; intros l w Hinv H.
  - (* the loop is over: the final [return] *)
    apply mret_Ok in H as [-> ->].
    destruct Hinv as [ra_player0 ra_details0 ra_loot0 ra_won0 ra_enemies0 ra_health0]. cbn.
    split; [|done]. rewrite ra_player0. done.
  - cbn [for_loop] in H. steps H. destruct a1 as [[c p0] e0].
    apply call_simulate_combat_inv in Hstep1 as Hcombat. destruct Hcombat as [cw Hcombat].
    apply simulate_combat_health in Hcombat as (Hc0 & Hcle & Hcwin & Hclost).
    cbn [CombatSystem.player] in Hcle.
    apply call_simulate_combat_Ok in Hstep1 as (Hb1 & -> & ->).
    apply with_random_Ok in Hstep0 as (g0 & Hcreate & ->). cbn in Hb1.
    apply create_enemy_fields in Hcreate as (Hlevel & Hfull & _).
    assert (Hbs : battles s = battles w).
    { clear -Hstep. destruct (_ && _) in Hstep.
      - by apply mret_Ok in Hstep as [_ ->].
      - by apply with_random_battles in Hstep. }
    clear Hstep.
    destruct Hinv as [ra_player0 ra_details0 ra_loot0 ra_won0 ra_enemies0 ra_health0].
    rewrite Hbs in Hb1.
    assert (Hheal : no_healing (battles s1)).
    { rewrite Hb1. apply no_healing_snoc; [done|]. intros b0 Hlast. cbn.
      rewrite ra_player0 in Hcle. cbn in Hcle. rewrite Hlast in Hcle.
      destruct (ra_won0 b0) as [_ Hpos]; [|lia].
      apply last_Some in Hlast as [bs' ->].
      rewrite elem_of_app, list_elem_of_singleton. by right. }
    assert (Henemies : ∀ b, b ∈ battles s1 →
              Enemy.level b.1 = dungeon_level ∧ Enemy.health b.1 = Enemy.max_health b.1).
    { intros b. rewrite Hb1, elem_of_app, list_elem_of_singleton.
      intros [Hb| ->]; [by apply ra_enemies0|done]. }
    destruct (CombatResult.victory c) eqn:Hv; cbn [negb] in H.
    + (* victory: the books are brought up to date *)
      step H. apply with_random_Ok in Hstep as (g1 & _ & ->). cbn [battles] in *.
      assert (Hwon : ∀ b, b ∈ battles s1 →
                CombatResult.victory b.2 = true ∧ 0 < CombatResult.finalPlayerHealth b.2).
      { intros b. rewrite Hb1, elem_of_app, list_elem_of_singleton.
        intros [Hb| ->]; [by apply ra_won0|]. cbn. split; [done|]. by apply Hcwin. }
      assert (Hdetails : enemies_defeated l ++
                [EnemyDetail.mk (Enemy.type a0) (Enemy.level a0) (CombatResult.rounds c)]
              = enemy_detail <$> battles s1).
      { by rewrite Hb1, fmap_app, ra_details0. }
      assert (Hplayer : ∀ loot,
                Player.set_inventory loot
                  (Player.set_gold
                     (Player.gold
                        (Player.set_experience
                           (Player.experience
                              (Player.set_health (CombatResult.finalPlayerHealth c) (player l))
                            + Enemy.experience a0)
                           (Player.set_health (CombatResult.finalPlayerHealth c) (player l)))
                      + Enemy.gold_reward a0)
                     (Player.set_experience
                        (Player.experience
                           (Player.set_health (CombatResult.finalPlayerHealth c) (player l))
                         + Enemy.experience a0)
                        (Player.set_health (CombatResult.finalPlayerHealth c) (player l))))
                = player_after player_level (battles s1) loot).
      { intros loot. rewrite ra_player0, Hb1. unfold player_after.
        rewrite last_snoc, !sum_over_snoc.
        unfold Player.set_inventory, Player.set_gold, Player.set_experience,
          Player.set_health. cbn. f_equal. lia. }
      destruct (flt a1 (lit 6 10)).
      * steps H. apply with_random_Ok in Hstep as (g2 & _ & ->).
        apply with_random_Ok in Hstep0 as (g3 & _ & ->).
        apply IH in H; [done|]. split; cbn [player enemies_defeated loot_collected battles];
          try done.
        -- rewrite <- Hplayer. cbn. by rewrite ra_player0.
        -- rewrite length_app, Hb1, length_app. cbn. lia.
      * apply IH in H; [done|]. split; cbn [player enemies_defeated loot_collected battles];
          try done.
        -- rewrite <- Hplayer. cbn. by rewrite ra_player0.
        -- rewrite Hb1, length_app. cbn. lia.
    + (* defeat: the run returns the books as they are *)
      apply mret_Ok in H as [-> ->]. split; [|done]. cbn.
      exists (battles w), (a0, c). split; [done|]. split; [done|]. split; [done|].
      by apply Hclost.
Qed.

Lemma run_accounts_start player_level dungeon_level g :
  run_accounts player_level dungeon_level
    (Locals (create_player "Hero" player_level) [] []) (World g []).
Proof.
  split; cbn; try done; try (intros b Hb; by apply elem_of_nil in Hb).
  unfold player_after, create_player. cbn. f_equal. lia.
Qed.
End RunAccounts.

(** X6. The books of a dungeon run. The run that succeeds returns the player
    that [create_player] made with three things changed: the health is what
    the last fight left, the gold is [100 * playerLevel] plus the rewards of
    all enemies fought, the experience is the sum of theirs; level, stats,
    maximum health and mana are as created, whatever the experience gained.
    [enemyDetails] lists type, level and rounds of every fight in order,
    [totalGold] and [totalExperience] are the player's, and there is at most
    one item of loot per fight. The run that fails returns the player as the
    fights won before had left it, without gold or experience for the fight
    lost, and the lost fight ended with the player at 0. Every enemy of the
    run has the dungeon's level and came to its fight at full health. *)
Theorem simulate_dungeon_run_books player_level dungeon_level g r w :
  GameSimulator.simulate_dungeon_run player_level dungeon_level (GameSimulator.World g [])
  = (Ok r, w) →
  run_books player_level dungeon_level r (GameSimulator.battles w)
  ∧ ∀ b, b ∈ GameSimulator.battles w →
      Enemy.level b.1 = dungeon_level ∧ Enemy.health b.1 = Enemy.max_health b.1.
Proof.
  unfold GameSimulator.simulate_dungeon_run. intros H.
  eapply for_loop_accounts in H; [|apply run_accounts_start].
  destruct H as (Hbooks & _ & Henemies). done.
Qed.

(** X7. The player is never healed during a run: the health with which the
    player leaves a fight is at most the health with which the player left
    the fight before. *)
Theorem simulate_dungeon_run_no_healing player_level dungeon_level g r w :
  GameSimulator.simulate_dungeon_run player_level dungeon_level (GameSimulator.World g [])
  = (Ok r, w) →
  no_healing (GameSimulator.battles w).
Proof.
  unfold GameSimulator.simulate_dungeon_run. intros H.
  eapply for_loop_accounts in H; [|apply run_accounts_start].
  by destruct H as (_ & Hheal & _).
Qed.

Lemma simulate_dungeon_run_books_witness :
  run_books 30 5 sample_run_result (GameSimulator.battles sample_run.2).
Proof.
  refine (proj1 (simulate_dungeon_run_books 30 5 sample_rng sample_run_result
                   sample_run.2 _)).
  vm_compute. reflexivity.
Defined.

Lemma simulate_dungeon_run_no_healing_witness :
  no_healing (GameSimulator.battles sample_run.2).
Proof.
  refine (simulate_dungeon_run_no_healing 30 5 sample_rng sample_run_result
            sample_run.2 _).
  vm_compute. reflexivity.
Defined.

(** A hero of level 30 in a dungeon of level 5: seven enemies fall at the
    first blow, the demon costs 152 points of health. *)
Example simulate_dungeon_run_sample_books :
  match sample_run_result with
  | RunResult.Success n _ loot p gold experience =>
      n = 8 ∧ gold = 3220 ∧ experience = 594 ∧ Player.level p = 30
      ∧ (CombatResult.finalPlayerHealth ∘ snd) <$> GameSimulator.battles sample_run.2
        = [680; 680; 680; 680; 680; 680; 680; 528]
  | _ => False
  end.
Proof. vm_compute. done. Qed.

(** * Further properties of LootSystem *)

(** ** The items that [generate_item] makes *)

Lemma generate_item_name_Ok item_type rarity g name g' :
  LootSystem._generate_item_name item_type rarity g = (Ok name, g') →
  ∃ prefix base_name,
    name = prefix +:+ " " +:+ base_name
    ∧ prefix ∈ LootSystem.ITEM_PREFIXES item_type
    ∧ base_name ∈ LootSystem.ITEM_TYPES_NAMES item_type.
Proof.
  unfold LootSystem._generate_item_name. intros H. steps H.
  apply random_choice_Ok in Hstep as [Hp _]. apply random_choice_Ok in Hstep0 as [Hb _].
  exists a, a0. destruct item_type; by apply mret_Ok in H as [-> _].
Qed.

Lemma generate_effect_table item_type prefix base_name :
  item_type = ItemType.POTION ∨ item_type = ItemType.SCROLL →
  prefix ∈ LootSystem.ITEM_PREFIXES item_type →
  base_name ∈ LootSystem.ITEM_TYPES_NAMES item_type →
  ∃ effect,
    LootSystem._generate_effect item_type (prefix +:+ " " +:+ base_name) = Ok effect
    ∧ (base_name, effect) ∈ consumable_effects item_type.
Proof.
  intros [-> | ->]; cbn [LootSystem.ITEM_PREFIXES LootSystem.ITEM_TYPES_NAMES
                         consumable_effects];
    rewrite !elem_of_cons, !elem_of_nil; intros Hp Hb.
  all: repeat (destruct Hp as [->|Hp]); try done.
  all: repeat (destruct Hb as [->|Hb]); try done.
  all: eexists; (split; [vm_compute; reflexivity|]).
  all: repeat first [apply list_elem_of_here|apply list_elem_of_further].
Qed.

Lemma generate_stats_shape item_type rarity level g stats g' :
  LootSystem._generate_stats item_type rarity level g = (Ok stats, g') →
  match item_type with
  | ItemType.WEAPON =>
      ∃ damage, stats = {[ "damage" := damage ]}
                ∨ ∃ crit, stats = <["critChance" := crit]> {[ "damage" := damage ]}
  | ItemType.ARMOR =>
      ∃ defense, stats = {[ "defense" := defense ]}
                 ∨ ∃ health, stats = <["health" := health]> {[ "defense" := defense ]}
  | _ => stats = ∅
  end.
Proof.
  unfold LootSystem._generate_stats. intros H.
  destruct item_type; try by apply mret_Ok in H as [-> _].
  - steps H. exists a0. destruct (flt _ _).
    + steps H. apply mret_Ok in H as [-> _]. right. by eexists.
    + apply mret_Ok in H as [-> _]. by left.
  - steps H. exists a1. destruct (flt _ _).
    + steps H. apply mret_Ok in H as [-> _]. right. by eexists.
    + apply mret_Ok in H as [-> _]. by left.
Qed.

(** X8. An item that [generate_item] returns has the rarity asked for, the
    type asked for if one was given, an id [item_n] with [n] between 1000
    and 9999, and a name made of a prefix and a base name of the tables of
    its type, with a space between. A weapon carries a damage and possibly a
    critical chance, an armor a defense and possibly a health bonus, and
    neither has an effect; a potion and a scroll carry no stats and the
    effect that goes with their base name: the one of a scroll names the
    last word of its base name, so that an Ice Storm scroll casts Storm. *)
Theorem generate_item_made rarity item_type level g item g' :
  LootSystem.generate_item rarity item_type level g = (Ok item, g') →
  LootItem.rarity item = rarity
  ∧ (∀ t, item_type = Some t → LootItem.type item = t)
  ∧ (∃ n, 1000 ≤ n ≤ 9999 ∧ LootItem.id item = "item_" +:+ pretty n)
  ∧ ∃ prefix base_name,
      LootItem.name item = prefix +:+ " " +:+ base_name
      ∧ prefix ∈ LootSystem.ITEM_PREFIXES (LootItem.type item)
      ∧ base_name ∈ LootSystem.ITEM_TYPES_NAMES (LootItem.type item)
      ∧ match LootItem.type item with
        | ItemType.WEAPON =>
            LootItem.effect item = None
            ∧ ∃ damage,
                LootItem.stats item = {[ "damage" := damage ]}
                ∨ ∃ crit, LootItem.stats item
                          = <["critChance" := crit]> {[ "damage" := damage ]}
        | ItemType.ARMOR =>
            LootItem.effect item = None
            ∧ ∃ defense,
                LootItem.stats item = {[ "defense" := defense ]}
                ∨ ∃ health, LootItem.stats item
                            = <["health" := health]> {[ "defense" := defense ]}
        | consumable =>
            LootItem.stats item = ∅
            ∧ ∃ effect, LootItem.effect item = Some effect
                        ∧ (base_name, effect) ∈ consumable_effects consumable
        end.
Proof.
  unfold LootSystem.generate_item. intros H. steps H.
  assert (Ht : ∀ t, item_type = Some t → a = t).
  { intros t ->. by apply mret_Ok in Hstep as [-> _]. }
  apply generate_item_name_Ok in Hstep0 as (prefix & base_name & -> & Hp & Hb).
  apply generate_stats_shape in Hstep1 as Hshape.
  apply random_randint_range in Hstep2 as [Hn _].
  destruct a.
  1, 2: apply mret_Ok in H as [-> _]; cbn; (split; [done|]); (split; [done|]);
    (split; [by eexists|]); by exists prefix, base_name.
  all: step H;
    match goal with
    | Hl : lift_result _ _ = _ |- _ => apply lift_result_Ok in Hl as [He _]
    end;
    apply mret_Ok in H as [-> _];
    cbn; (split; [done|]); (split; [done|]); (split; [by eexists|]);
    exists prefix, base_name; (split; [done|]); (split; [done|]); (split; [done|]);
    (split; [done|]).
  - destruct (generate_effect_table ItemType.POTION prefix base_name) as (e & He' & Hin);
      [by left|done|done|].
    rewrite He in He'. injection He' as ->. by exists e.
  - destruct (generate_effect_table ItemType.SCROLL prefix base_name) as (e & He' & Hin);
      [by right|done|done|].
    rewrite He in He'. injection He' as ->. by exists e.
Qed.

Lemma generate_item_made_witness : LootItem.rarity sample_potion = ItemRarity.RARE.
Proof.
  refine (proj1 (generate_item_made ItemRarity.RARE (Some ItemType.POTION) 5 sample_rng
                   sample_potion
                   (LootSystem.generate_item ItemRarity.RARE (Some ItemType.POTION) 5
                      sample_rng).2 _)).
  vm_compute. reflexivity.
Defined.

(** ** The stats of generated items, in integers *)

Lemma multiplier_dyadic rarity :
  RarityValues.multiplier (LootSystem.RARITY_VALUES rarity)
  = dyadic (Z.to_pos (multiplier_twice rarity)) (-1).
Proof. destruct rarity; vm_compute; reflexivity. Qed.

Lemma multiplier_twice_bounds rarity : 2 ≤ multiplier_twice rarity ≤ 10.
Proof. destruct rarity; cbn; lia. Qed.

Lemma shiftl_minus a n : 0 ≤ n → Z.shiftl a (- n) = a `div` 2 ^ n.
Proof. intros Hn. rewrite Z.shiftl_opp_r. by apply Z.shiftr_div_pow2. Qed.

(** [int(z * multiplier)] for a positive int [z]. *)
Lemma int_times_multiplier z rarity :
  0 < z → z * 10 < 2 ^ 53 →
  ∃ x, int_mul_float z (RarityValues.multiplier (LootSystem.RARITY_VALUES rarity)) = Ok x
       ∧ int_of_float x = Ok ((z * multiplier_twice rarity) `div` 2).
Proof.
  intros Hz Hb. pose proof (multiplier_twice_bounds rarity) as Hm.
  rewrite multiplier_dyadic.
  destruct (int_mul_dyadic z (Z.to_pos (multiplier_twice rarity)) (-1)) as [Hx Hn];
    [lia|rewrite Z2Pos.id by lia; nia|lia|].
  eexists. split; [done|]. rewrite Hn, Z2Pos.id by lia.
  by rewrite (shiftl_minus _ 1).
Qed.

Lemma generate_stats_values item_type rarity level g stats g' :
  1 ≤ level < 2 ^ 48 →
  LootSystem._generate_stats item_type rarity level g = (Ok stats, g') →
  ∃ bonus, stats = item_stats item_type rarity level bonus.
Proof.
  intros Hlevel. pose proof (multiplier_twice_bounds rarity) as Hm.
  unfold LootSystem._generate_stats, item_stats.
  destruct item_type; try (intros H; apply mret_Ok in H as [-> _]; by exists false).
  - (* weapon *)
    destruct (int_times_multiplier (10 + level * 2) rarity) as (x & Hx & Hn);
      [lia|change (2 ^ 53) with (32 * 2 ^ 48); lia|].
    replace ((10 + level * 2) * multiplier_twice rarity)
      with ((5 + level) * multiplier_twice rarity * 2) in Hn by lia.
    rewrite Z.div_mul in Hn by lia.
    destruct (int_times_multiplier 5 rarity) as (y & Hy & Hc); [lia|done|].
    rewrite (lift_result_bind _ _ _ _ Hx), (lift_result_bind _ _ _ _ Hn).
    rewrite (bind_run _ _ _ _ _ (random_random_run _)).
    destruct (flt _ _).
    + rewrite (lift_result_bind _ _ _ _ Hy), (lift_result_bind _ _ _ _ Hc).
      intros H. apply mret_Ok in H as [-> _]. by exists true.
    + intros H. apply mret_Ok in H as [-> _]. by exists false.
  - (* armor *)
    destruct level as [|p|p]; try lia.
    assert (Hh : int_mul_float (Z.pos p) (lit 15 10) = Ok (dyadic (p * 3) (-1))).
    { change (lit 15 10) with (dyadic 3 (-1)).
      by destruct (int_mul_dyadic (Z.pos p) 3 (-1)) as [-> _]; [lia|lia|lia|]. }
    assert (Hb : int_add_float 8 (dyadic (p * 3) (-1)) = Ok (dyadic (16 + p * 3) (-1))).
    { unfold int_add_float. change (float_of_int 8) with (Ok (dyadic 16 (-1))).
      cbv beta iota. rewrite fadd_dyadic by lia. done. }
    assert (Hd : int_of_float
                   (fmul (dyadic (16 + p * 3) (-1))
                      (RarityValues.multiplier (LootSystem.RARITY_VALUES rarity)))
                 = Ok (((16 + 3 * Z.pos p) * multiplier_twice rarity) `div` 4)).
    { rewrite multiplier_dyadic, fmul_dyadic;
        [|rewrite Z2Pos.id by lia; change (2 ^ 53) with (32 * 2 ^ 48); nia|lia].
      rewrite int_of_dyadic
        by (rewrite Pos2Z.inj_mul, Z2Pos.id by lia; change (2 ^ 53) with (32 * 2 ^ 48); nia).
      rewrite (shiftl_minus _ 2) by lia. rewrite Pos2Z.inj_mul, Z2Pos.id by lia.
      do 2 f_equal. lia. }
    destruct (int_times_multiplier 20 rarity) as (y & Hy & Hc); [lia|done|].
    rewrite (lift_result_bind _ _ _ _ Hh), (lift_result_bind _ _ _ _ Hb),
      (lift_result_bind _ _ _ _ Hd).
    rewrite (bind_run _ _ _ _ _ (random_random_run _)).
    replace (20 * multiplier_twice rarity) with (10 * multiplier_twice rarity * 2) in Hc
      by lia.
    rewrite Z.div_mul in Hc by lia.
    destruct (flt _ _).
    + rewrite (lift_result_bind _ _ _ _ Hy), (lift_result_bind _ _ _ _ Hc).
      intros H. apply mret_Ok in H as [-> _]. by exists true.
    + intros H. apply mret_Ok in H as [-> _]. by exists false.
Qed.

Lemma sum_values_insert k v (stats : gmap string Z) :
  stats !! k = None →
  LootSystem.sum_values (<[k := v]> stats) = LootSystem.sum_values stats + v.
Proof.
  intros Hk. unfold LootSystem.sum_values.
  rewrite map_fold_insert_L; [done| |done]. intros. lia.
Qed.

Lemma sum_values_singleton k v : LootSystem.sum_values {[ k := v ]} = v.
Proof.
  rewrite <- insert_empty, sum_values_insert by done. rewrite sum_values_empty. lia.
Qed.

(** X9. The stats of a generated item in integers, for levels from 1 to
    2^48, where binary64 computes them without rounding. With [m2] twice the
    multiplier of the rarity (2, 3, 4, 6, 10): a weapon has damage
    [(5 + level) * m2] and, on half of the draws, a critical chance
    [5 * m2 // 2]; an armor has defense [(16 + 3 * level) * m2 // 4] and, on
    half of the draws, a health bonus [10 * m2]; potions and scrolls have no
    stats. The value of the item is the sell value of its rarity plus twice
    the sum of these numbers. *)
Theorem generate_item_stats rarity item_type level g item g' :
  1 ≤ level < 2 ^ 48 →
  LootSystem.generate_item rarity item_type level g = (Ok item, g') →
  ∃ bonus,
    LootItem.stats item = item_stats (LootItem.type item) rarity level bonus
    ∧ LootItem.value item
      = RarityValues.sell_value (LootSystem.RARITY_VALUES rarity)
        + 2 * match LootItem.type item with
              | ItemType.WEAPON =>
                  (5 + level) * multiplier_twice rarity
                  + (if bonus then (5 * multiplier_twice rarity) `div` 2 else 0)
              | ItemType.ARMOR =>
                  ((16 + 3 * level) * multiplier_twice rarity) `div` 4
                  + (if bonus then 10 * multiplier_twice rarity else 0)
              | _ => 0
              end.
Proof.
  intros Hlevel H.
  apply generate_item_Ok in H as (g1 & g2 & Hstats & _ & Hvalue & _).
  apply generate_stats_values in Hstats as [bonus Hstats]; [|done].
  exists bonus. split; [done|].
  rewrite Hvalue, Hstats. unfold LootSystem._calculate_value, item_stats.
  destruct (LootItem.type item), bonus;
    rewrite ?sum_values_insert, ?sum_values_singleton, ?sum_values_empty by done; lia.
Qed.

Lemma generate_item_stats_witness :
  ∃ bonus, LootItem.stats sample_weapon
           = item_stats (LootItem.type sample_weapon) ItemRarity.LEGENDARY 5 bonus.
Proof.
  destruct (generate_item_stats ItemRarity.LEGENDARY (Some ItemType.WEAPON) 5 sample_rng
              sample_weapon
              (LootSystem.generate_item ItemRarity.LEGENDARY (Some ItemType.WEAPON) 5
                 sample_rng).2
              ltac:(lia) ltac:(vm_compute; reflexivity)) as (bonus & Hstats & _).
  by exists bonus.
Defined.

Example sample_weapon_stats :
  LootItem.stats sample_weapon = {[ "damage" := 100 ]} ∧ LootItem.value sample_weapon = 450.
Proof. by vm_compute. Qed.

(** ** The loot of a run *)

Section RunLoot.
Import GameSimulator.

Lemma for_loop_loot (P : LootItem.t → Prop) num_enemies dungeon_level indices l w r w' :
  (∀ rarity g item g',
     LootSystem.generate_item rarity None dungeon_level g = (Ok item, g') → P item) →
  Forall P (loot_collected l) →
  for_loop num_enemies dungeon_level indices l w = (Ok r, w') →
  Forall P (RunResult.lootCollected r).
Proof.
  intros Hgen. revert l w. induction indices as [|i indices IH]; intros l w Hloot H.
  - by apply mret_Ok in H as [-> _].
  - cbn [for_loop] in H. steps H. destruct a1 as [[c p0] e0].
    destruct (CombatResult.victory c); cbn [negb] in H.
    + step H. destruct (flt a1 (lit 6 10)).
      * steps H.
        match goal with
        | Hdrop : with_random (LootSystem.generate_item _ _ _) _ = _ |- _ =>
            apply with_random_Ok in Hdrop as (g' & Hitem & _)
        end.
        apply Hgen in Hitem. eapply IH; [|done]. cbn.
        apply Forall_app. split; [done|]. by constructor.
      * eapply IH; [|done]. done.
    + by apply mret_Ok in H as [-> _].
Qed.
End RunLoot.

(** X25. The loot of a run is made for the dungeon's level, whatever the
    player's: for a dungeon level from 1 to 2^48, every item collected has
    the stats that [generate_item] gives its type and rarity at the
    dungeon's level, and the value computed from them. This holds of
    failed runs too. *)
Theorem simulate_dungeon_run_loot player_level dungeon_level w r w' :
  1 ≤ dungeon_level < 2 ^ 48 →
  GameSimulator.simulate_dungeon_run player_level dungeon_level w = (Ok r, w') →
  Forall (dropped_at dungeon_level) (RunResult.lootCollected r).
Proof.
  intros Hlevel H. unfold GameSimulator.simulate_dungeon_run in H.
  eapply for_loop_loot in H; [done| |by constructor].
  intros rarity g item g' Hitem.
  apply generate_item_Ok in Hitem as (g1 & g2 & Hstats & Hrarity & Hvalue & _).
  subst rarity. apply generate_stats_values in Hstats as [bonus Hstats]; [|done].
  split; [by exists bonus|done].
Qed.

Lemma simulate_dungeon_run_loot_witness :
  Forall (dropped_at 5) (RunResult.lootCollected sample_run_result).
Proof.
  refine (simulate_dungeon_run_loot 30 5 (GameSimulator.World sample_rng [])
            sample_run_result sample_run.2 _ _).
  - lia.
  - vm_compute. reflexivity.
Defined.

(** * Further properties of looter_shooter_integration.py *)

Section IntegrationItems.
Variable str_upper : string → string.
Variable seeded : Z → rng.

Lemma generate_items_Ok count rarity item_type level items g items' g' :
  generate_items count rarity item_type level items g = (Ok items', g') →
  ∃ new, items' = items ++ new
         ∧ length new = count
         ∧ Forall (λ item, LootItem.rarity item = rarity
                           ∧ ∀ t, item_type = Some t → LootItem.type item = t) new.
Proof.
  revert items g. induction count as [|count IH]; intros items g H.
  - apply mret_Ok in H as [-> _]. exists []. by rewrite app_nil_r.
  - cbn [generate_items] in H. step H.
    apply generate_item_Ok in Hstep as (_ & _ & _ & Hr & _ & Ht).
    apply IH in H as (new & -> & Hlen & Hnew).
    exists (a :: new). rewrite <- app_assoc. split; [done|]. split; [cbn; lia|].
    by constructor.
Qed.

(** X19. [generate_loot_json] returns exactly [count] items, and none when
    [count] is 0 or negative. All of them have the rarity that the rarity
    string names in upper case, and, when an item type is given and is not
    the empty string, the type that it names; with no item type, or an
    empty one, every item gets a type of its own draw. *)
Theorem generate_loot_json_items count rarity item_type level seed g items g' :
  generate_loot_json str_upper seeded count rarity item_type level seed g = (Ok items, g') →
  length items = Z.to_nat count
  ∧ ∃ r, ItemRarity.by_name (str_upper rarity) = Ok r
         ∧ Forall (λ item,
             LootItem.rarity item = r
             ∧ match item_type with
               | Some s =>
                   s = "" ∨ ItemType.by_name (str_upper s) = Ok (LootItem.type item)
               | None => True
               end) items.
Proof.
  unfold generate_loot_json. intros H. steps H.
  destruct (ItemRarity.by_name (str_upper rarity)) as [r|] eqn:Hr; [|done].
  apply mret_Ok in Hstep0 as [-> _].
  apply generate_items_Ok in H as (new & -> & Hlen & Hnew). cbn [app].
  split; [done|]. exists r. split; [done|].
  eapply Forall_impl; [done|]. intros item [Hrarity Htype]. split; [done|].
  destruct item_type as [name|]; [|done].
  case_decide; [by left|]. right.
  destruct (ItemType.by_name (str_upper name)) as [t|] eqn:Ht; [|done].
  apply mret_Ok in Hstep1 as [-> _]. by rewrite (Htype t).
Qed.

(** X20. The player and the enemy that [simulate_combat_json] reports are
    the ones that went into the fight: a hero of the player level as
    [create_player] makes it and an enemy of the enemy level, both at full
    health whatever the fight did to them; what the fight did is in the
    combat result alone. *)
Theorem simulate_combat_json_reports player_level enemy_level enemy_type seed g p e c g' :
  simulate_combat_json seeded player_level enemy_level enemy_type seed g
  = (Ok (p, e, c), g') →
  p = GameSimulator.create_player "Hero" player_level
  ∧ Player.health p = Player.max_health p
  ∧ Enemy.level e = enemy_level
  ∧ Enemy.health e = Enemy.max_health e
  ∧ ∃ g0 w, CombatSystem.simulate_combat (CombatSystem.World p e g0) = (Ok c, w).
Proof.
  unfold simulate_combat_json. intros H. steps H. destruct a1 as [[c0 p0] e0].
  apply mret_Ok in H as [[= -> -> ->] _].
  apply create_enemy_fields in Hstep0 as (Hlevel & Hfull & _).
  unfold CombatSystem.call_simulate_combat in Hstep1.
  pose proof (simulate_combat_read_only
                (CombatSystem.World (GameSimulator.create_player "Hero" player_level) a0 s0))
    as [Hp He].
  destruct (CombatSystem.simulate_combat _) as [[c1|?] w] eqn:Hc; [|done].
  cbn in Hp, He. injection Hstep1 as <- <- <- _. rewrite Hp, He.
  split; [done|]. split; [done|]. split; [done|]. split; [done|]. by eexists _, _.
Qed.
End IntegrationItems.

Lemma generate_loot_json_items_witness : length sample_loot = 2%nat.
Proof.
  refine (proj1 (generate_loot_json_items ascii_upper sample_seeded 2 "Rare" (Some "") 5
                   (Some 7) sample_rng sample_loot
                   (generate_loot_json ascii_upper sample_seeded 2 "Rare" (Some "") 5
                      (Some 7) sample_rng).2 _)).
  vm_compute. reflexivity.
Defined.

Lemma simulate_combat_json_reports_witness :
  Enemy.health sample_report.1.2 = Enemy.max_health sample_report.1.2.
Proof.
  refine (proj1 (proj2 (proj2 (proj2
            (simulate_combat_json_reports sample_seeded 1 3 "orc" None sample_rng
               sample_report.1.1 sample_report.1.2 sample_report.2
               (simulate_combat_json sample_seeded 1 3 "orc" None sample_rng).2 _))))).
  vm_compute. reflexivity.
Defined.

(** A hero of level 1 loses to an orc of level 3, and is reported with the
    100 points of health of a hero of level 1. *)
Example simulate_combat_json_sample :
  CombatResult.victory sample_report.2 = false
  ∧ CombatResult.finalPlayerHealth sample_report.2 = 0
  ∧ Player.health sample_report.1.1 = 100
  ∧ Enemy.health sample_report.1.2 = 128.
Proof. by vm_compute. Qed.

(** * Further properties of DungeonEngine *)

Section DungeonParts.
Import DungeonWorld.
Variable math_cos math_sin : float → float.

(** ** Corridors *)

Lemma corridor_chain_snoc rooms prev room :
  last rooms = Some prev →
  corridor_chain (rooms ++ [room]) = corridor_chain rooms ++ [corridor_between prev room].
Proof.
  unfold corridor_chain. induction rooms as [|a rooms IH]; [done|].
  destruct rooms as [|b rooms].
  - intros [= ->]. done.
  - intros Hl. cbn [app tail zip_with] in *. rewrite IH by done. done.
Qed.

Lemma generate_rooms_made num_rooms n k rooms g :
  n = 0%nat ∨ num_rooms ≠ 0 → length rooms = k → (1 ≤ k)%nat →
  ∃ new g',
    generate_rooms math_cos math_sin num_rooms (Z.of_nat <$> seq k n) rooms
      (corridor_chain rooms) g
    = (Ok (rooms ++ new, corridor_chain (rooms ++ new)), g')
    ∧ length new = n
    ∧ ∀ j r, new !! j = Some r → room_type_ok num_rooms (k + j) (Room.type r).
Proof.
  revert k rooms g.
  induction n as [|n IH]; intros k rooms g Hnum Hlen Hk.
  - exists [], g. rewrite app_nil_r. split; [done|]. split; [done|].
    intros j r. by rewrite lookup_nil.
  - destruct Hnum as [|Hnum]; [done|].
    cbn [seq fmap list_fmap generate_rooms].
    unfold int_div_int. rewrite decide_False by done.
    rewrite (bind_run _ _ _ _ _ (lift_result_run _ _)).
    rewrite (bind_run _ _ _ _ _ (random_random_run _)).
    destruct (determine_room_type_run (Z.of_nat k) num_rooms (advance g))
      as (t & g1 & Ht & Htype).
    rewrite (bind_run _ _ _ _ _ Ht).
    rewrite (bind_run _ _ _ _ _ (random_random_run _)).
    rewrite (bind_run _ _ _ _ _ (random_random_run _)).
    cbn zeta. rewrite decide_True by lia.
    set (room := Room.mk _ _ _ _ t).
    destruct (last rooms) as [prev|] eqn:Hlast;
      [|apply last_None in Hlast; subst rooms; cbn in Hlen; lia].
    assert (Hprev : (rooms ++ [room]) !! Z.to_nat (Z.of_nat k - 1) = Some prev).
    { rewrite lookup_app_l by lia. rewrite last_lookup in Hlast.
      rewrite <- Hlast. f_equal. lia. }
    rewrite Hprev. fold (corridor_between prev room).
    rewrite <- (corridor_chain_snoc rooms prev room Hlast).
    destruct (IH (S k) (rooms ++ [room]) (advance (advance g1)))
      as (new & g' & Hrun & Hn & Hts);
      [by right|rewrite length_app; cbn; lia|lia|].
    exists (room :: new), g'. rewrite <- !app_assoc in Hrun. rewrite Hrun.
    split; [done|]. split; [cbn; lia|].
    intros [|j] r; cbn.
    + intros [= <-]. unfold room_type_ok. rewrite Nat.add_0_r. done.
    + intros Hr. apply Hts in Hr. by replace (k + S j)%nat with (S k + j)%nat by lia.
Qed.

(** ** Traps *)

Lemma create_trap_made room level w :
  ∃ trap g',
    _create_trap room level w
    = (Ok trap, mk (Engine.mk (Engine.trap_id_counter (self w) + 1)
                      (Engine.spawn_point_id_counter (self w))) g')
    ∧ trap_ok level (Engine.trap_id_counter (self w)) 0 trap.
Proof.
  unfold _create_trap.
  destruct (random_choice_run ["spike"; "fire"; "arrow"; "poison"] (random w) ltac:(done))
    as (t & Ht & Hin).
  unfold with_random, zoom, mbind, M_bind. rewrite Ht. cbn.
  eexists _, _. split; [done|]. split; [|done]. cbn. by rewrite Z.add_0_r.
Qed.

Lemma generate_traps_made count rooms level traps w :
  rooms ≠ [] →
  ∃ new g',
    generate_traps count rooms level traps w
    = (Ok (traps ++ new),
       mk (Engine.mk (Engine.trap_id_counter (self w) + Z.of_nat count)
             (Engine.spawn_point_id_counter (self w))) g')
    ∧ length new = count
    ∧ ∀ i t, new !! i = Some t → trap_ok level (Engine.trap_id_counter (self w)) i t.
Proof.
  intros Hne. revert traps w. induction count as [|count IH]; intros traps w.
  - exists [], (random w). rewrite app_nil_r, Z.add_0_r. destruct w as [[c sc] g].
    split; [done|]. split; [done|]. intros i t. by rewrite lookup_nil.
  - cbn [generate_traps].
    destruct (random_choice_run rooms (random w) Hne) as (room & Hroom & _).
    assert (Hc : with_random (random_choice rooms) w
                 = (Ok room, mk (self w) (advance (random w)))).
    { unfold with_random, zoom. by rewrite Hroom. }
    rewrite (bind_run _ _ _ _ _ Hc).
    destruct (create_trap_made room level (mk (self w) (advance (random w))))
      as (trap & g1 & Htrap & Hok).
    rewrite (bind_run _ _ _ _ _ Htrap). cbn [self] in *.
    destruct (IH (traps ++ [trap])
                (mk (Engine.mk (Engine.trap_id_counter (self w) + 1)
                       (Engine.spawn_point_id_counter (self w))) g1))
      as (new & g' & Hrun & Hlen & Hnew).
    cbn [self Engine.trap_id_counter Engine.spawn_point_id_counter] in *.
    exists (trap :: new), g'. rewrite Hrun, <- app_assoc. split.
    { replace (Engine.trap_id_counter (self w) + Z.of_nat (S count))
        with (Engine.trap_id_counter (self w) + 1 + Z.of_nat count) by lia. done. }
    split; [cbn; lia|].
    intros [|i] t; cbn.
    + by intros [= <-].
    + intros Hi. apply Hnew in Hi. destruct Hi as (Hid & ?). split; [|done].
      rewrite Hid. do 2 f_equal. lia.
Qed.

(** ** Spawn points *)

Lemma create_spawn_point_made room level is_boss g :
  ∃ sp g', _create_spawn_point room level is_boss g = (Ok sp, g')
           ∧ spawn_point_ok is_boss sp.
Proof.
  unfold _create_spawn_point.
  destruct (random_choice_run (if is_boss then ["demon"] else ["zombie"; "skeleton"; "orc"])
              g ltac:(by destruct is_boss)) as (t & Ht & Hin).
  rewrite (bind_run _ _ _ _ _ Ht). by eexists _, _.
Qed.

Lemma generate_room_spawn_points_made count room level spawn_points g :
  ∃ new g',
    generate_room_spawn_points count room level spawn_points g
    = (Ok (spawn_points ++ new), g')
    ∧ length new = count
    ∧ Forall (spawn_point_ok (bool_decide (Room.type room = "boss"))) new.
Proof.
  revert spawn_points g. induction count as [|count IH]; intros sps g.
  - exists [], g. by rewrite app_nil_r.
  - cbn [generate_room_spawn_points].
    destruct (create_spawn_point_made room level (bool_decide (Room.type room = "boss")) g)
      as (sp & g1 & Hsp & Hok).
    rewrite (bind_run _ _ _ _ _ Hsp).
    destruct (IH (sps ++ [sp]) g1) as (new & g' & Hrun & Hlen & Hnew).
    exists (sp :: new), g'. rewrite Hrun, <- app_assoc. split; [done|].
    split; [cbn; lia|]. by constructor.
Qed.

Lemma generate_spawn_points_made todo level spawn_points g :
  ∃ groups g',
    generate_spawn_points todo level spawn_points g
    = (Ok (spawn_points ++ concat groups), g')
    ∧ Forall2 spawn_group_ok todo groups.
Proof.
  revert spawn_points g. induction todo as [|room todo IH]; intros sps g.
  - exists [], g. cbn. rewrite app_nil_r. split; [done|constructor].
  - cbn [generate_spawn_points]. case_decide as Hspawn.
    + assert (∃ n g1, (if decide (Room.type room = "boss") then mret 1
                       else random_randint 0 2 ≫= λ n, mret (2 + n)) g = (Ok n, g1)
                      ∧ if decide (Room.type room = "boss") then n = 1 else 2 ≤ n ≤ 4)
        as (n & g1 & Hn & Hcount).
      { case_decide; [by eexists _, _|].
        rewrite (bind_run _ _ _ _ _ (random_randint_run 0 2 g ltac:(lia))).
        eexists _, _. split; [done|].
        pose proof (Z.mod_pos_bound (g 0%nat) (2 - 0 + 1) ltac:(lia)). lia. }
      rewrite (bind_run _ _ _ _ _ Hn).
      destruct (generate_room_spawn_points_made (Z.to_nat n) room level sps g1)
        as (group & g2 & Hs & Hlen & Hgroup).
      rewrite (bind_run _ _ _ _ _ Hs).
      destruct (IH (sps ++ group) g2) as (groups & g' & Hrun & Hgroups).
      exists (group :: groups), g'. rewrite Hrun. cbn [concat]. rewrite <- app_assoc.
      split; [done|]. constructor; [|done].
      unfold spawn_group_ok. rewrite decide_False by done.
      destruct (decide (Room.type room = "boss")) as [Hboss|Hboss].
      * rewrite bool_decide_eq_true_2 in Hgroup by done. split; [lia|done].
      * rewrite bool_decide_eq_false_2 in Hgroup by done. split; [lia|done].
    + destruct (IH sps g) as (groups & g' & Hrun & Hgroups).
      exists ([] :: groups), g'. rewrite Hrun. split; [done|].
      constructor; [|done]. unfold spawn_group_ok. rewrite decide_True; [done|].
      by destruct (decide (Room.type room = "spawn")).
Qed.

(** ** The dungeon, part by part *)

Lemma generate_dungeon_made level w :
  let num_rooms := (3 + level `div` 2) `min` 8 in
  let counter := Engine.trap_id_counter (self w) in
  ∃ new,
    length new = Z.to_nat (num_rooms - 1)
    ∧ (∀ j r, new !! j = Some r → room_type_ok num_rooms (1 + j) (Room.type r))
    ∧ match int_mul_float level (lit 15 10) ≫= int_of_float with
      | Ok num_traps =>
          ∃ traps groups g',
            generate_dungeon math_cos math_sin level w
            = (Ok (Dungeon.mk (the_spawn_room :: new)
                     (corridor_ring (the_spawn_room :: new)) traps (concat groups)
                     ((the_spawn_room :: new) ≫= _generate_room_walls) level
                     (Metadata.mk (Z.of_nat (length (the_spawn_room :: new)))
                        (Z.of_nat (length traps)) (Z.of_nat (length (concat groups))))),
               mk (Engine.mk (counter + Z.of_nat (Z.to_nat num_traps))
                     (Engine.spawn_point_id_counter (self w))) g')
            ∧ length traps = Z.to_nat num_traps
            ∧ (∀ i t, traps !! i = Some t → trap_ok level counter i t)
            ∧ Forall2 spawn_group_ok (the_spawn_room :: new) groups
      | Raise e =>
          ∃ g', generate_dungeon math_cos math_sin level w = (Raise e, mk (self w) g')
      end.
Proof.
  intros num_rooms counter. unfold generate_dungeon. fold num_rooms. fold the_spawn_room.
  rewrite range2_seq.
  destruct (generate_rooms_made num_rooms (Z.to_nat (num_rooms - 1)) 1 [the_spawn_room]
              (random w) ltac:(lia) eq_refl ltac:(lia))
    as (new & g1 & Hrooms & Hlen & Htypes).
  change (corridor_chain [the_spawn_room]) with (@nil Corridor.t) in Hrooms.
  assert (Hr : with_random
                 (generate_rooms math_cos math_sin num_rooms
                    (Z.of_nat <$> seq 1 (Z.to_nat (num_rooms - 1))) [the_spawn_room] []) w
               = (Ok (the_spawn_room :: new, corridor_chain (the_spawn_room :: new)),
                  mk (self w) g1)).
  { unfold with_random, zoom. by rewrite Hrooms. }
  rewrite (bind_run _ _ _ _ _ Hr). cbn beta iota.
  set (rooms := the_spawn_room :: new).
  assert (Hc : (if decide (1 < length rooms)%nat
             then match last rooms with
                  | Some last_room =>
                      mret (corridor_chain rooms ++
                        [Corridor.mk
                           (Position.mk (Float (Room.x last_room)) (Int 0)
                              (Float (Room.z last_room)))
                           (Position.mk (Float (Room.x the_spawn_room)) (Int 0)
                              (Float (Room.z the_spawn_room)))
                           (Z2F 3)])
                  | None => raise (IndexError "list index out of range")
                  end
             else mret (corridor_chain rooms)) (mk (self w) g1)
             = (Ok (corridor_ring rooms), mk (self w) g1)).
  { subst rooms. destruct new as [|r new']; [done|].
    rewrite decide_True by (cbn; lia). unfold corridor_ring.
    destruct (last (the_spawn_room :: r :: new')) eqn:Hl; [done|].
    by apply last_None in Hl. }
  rewrite (bind_run _ _ _ _ _ Hc).
  exists new. split; [done|]. split; [done|].
  destruct (int_mul_float level (lit 15 10)) as [scaled|e]; cbn [mbind result_bind];
    [|rewrite (bind_raise _ _ _ _ _ (lift_result_raise _ _)); by eexists].
  rewrite (bind_run _ _ _ _ _ (lift_result_run _ _)).
  destruct (int_of_float scaled) as [num_traps|e];
    [|rewrite (bind_raise _ _ _ _ _ (lift_result_raise _ _)); by eexists].
  rewrite (bind_run _ _ _ _ _ (lift_result_run _ _)).
  destruct (generate_traps_made (Z.to_nat num_traps) rooms level [] (mk (self w) g1))
    as (traps & g2 & Htraps & Htl & Hok); [done|].
  rewrite (bind_run _ _ _ _ _ Htraps). cbn [self] in *.
  destruct (generate_spawn_points_made rooms level [] g2) as (groups & g3 & Hsps & Hgroups).
  assert (Hs : with_random (generate_spawn_points rooms level [])
                 (mk (Engine.mk (Engine.trap_id_counter (self w) + Z.of_nat (Z.to_nat num_traps))
                        (Engine.spawn_point_id_counter (self w))) g2)
               = (Ok (concat groups),
                  mk (Engine.mk (Engine.trap_id_counter (self w) + Z.of_nat (Z.to_nat num_traps))
                        (Engine.spawn_point_id_counter (self w))) g3)).
  { unfold with_random, zoom. cbn [random self]. by rewrite Hsps. }
  rewrite (bind_run _ _ _ _ _ Hs).
  exists traps, groups, g3. split; [done|]. done.
Qed.

(** What a dungeon that [generate_dungeon] returned is made of. *)
Lemma generate_dungeon_Ok level w d w' :
  generate_dungeon math_cos math_sin level w = (Ok d, w') →
  let num_rooms := (3 + level `div` 2) `min` 8 in
  let counter := Engine.trap_id_counter (self w) in
  ∃ new num_traps groups,
    int_mul_float level (lit 15 10) ≫= int_of_float = Ok num_traps
    ∧ length new = Z.to_nat (num_rooms - 1)
    ∧ (∀ j r, new !! j = Some r → room_type_ok num_rooms (1 + j) (Room.type r))
    ∧ d = Dungeon.mk (the_spawn_room :: new) (corridor_ring (the_spawn_room :: new))
            (Dungeon.traps d) (concat groups)
            ((the_spawn_room :: new) ≫= _generate_room_walls) level
            (Metadata.mk (Z.of_nat (length (the_spawn_room :: new)))
               (Z.of_nat (length (Dungeon.traps d))) (Z.of_nat (length (concat groups))))
    ∧ self w' = Engine.mk (counter + Z.of_nat (length (Dungeon.traps d)))
                  (Engine.spawn_point_id_counter (self w))
    ∧ length (Dungeon.traps d) = Z.to_nat num_traps
    ∧ (∀ i t, Dungeon.traps d !! i = Some t → trap_ok level counter i t)
    ∧ Forall2 spawn_group_ok (the_spawn_room :: new) groups.
Proof.
  intros H num_rooms counter.
  destruct (generate_dungeon_made level w) as (new & Hlen & Htypes & Hrun).
  destruct (int_mul_float level (lit 15 10) ≫= int_of_float) as [num_traps|e].
  - destruct Hrun as (traps & groups & g' & Hrun & Htl & Hok & Hgroups).
    rewrite H in Hrun. apply pair_Ok_inj in Hrun as [-> ->].
    exists new, num_traps, groups. cbn. by rewrite Htl.
  - destruct Hrun as [g' Hrun]. by rewrite H in Hrun.
Qed.

Lemma corridors_width (rooms others : list Room.t) :
  Forall (λ c, Corridor.width c = Z2F 3) (zip_with corridor_between rooms others).
Proof.
  revert others. induction rooms as [|a rooms IH]; intros [|b others]; cbn;
    try constructor; [done|apply IH].
Qed.

(** X10. The corridors of a dungeon form a ring through its rooms: a
    corridor of width 3 leads from every room to the room generated next,
    and one more from the last room back to the spawn room, so that a
    dungeon of two or more rooms has as many corridors as rooms; a dungeon
    that consists of the spawn room alone has none. *)
Theorem generate_dungeon_corridors level w d w' :
  generate_dungeon math_cos math_sin level w = (Ok d, w') →
  Dungeon.corridors d = corridor_ring (Dungeon.rooms d)
  ∧ ((1 < length (Dungeon.rooms d))%nat →
     length (Dungeon.corridors d) = length (Dungeon.rooms d))
  ∧ Forall (λ c, Corridor.width c = Z2F 3) (Dungeon.corridors d).
Proof.
  intros H. apply generate_dungeon_Ok in H as (new & n & groups & _ & _ & _ & -> & _).
  cbn [Dungeon.corridors Dungeon.rooms]. split; [done|].
  unfold corridor_ring. destruct new as [|r new]; [split; [cbn; lia|constructor]|].
  destruct (last (the_spawn_room :: r :: new)) as [final|] eqn:Hl;
    [|by apply last_None in Hl].
  split.
  - intros _. unfold corridor_chain. rewrite length_app, length_zip_with.
    cbn [length tail]. lia.
  - apply Forall_app. split; [apply corridors_width|by repeat constructor].
Qed.

Lemma trap_id_inj (a b : Z) :
  "trap_" +:+ pretty a = "trap_" +:+ pretty b → a = b.
Proof. intros H. apply (inj pretty). by simplify_eq/=. Qed.

(** X11. The traps of a dungeon are numbered by the engine: the [i]-th trap
    has the id [trap_(c + 1 + i)], where [c] is the engine's counter before
    the call, and the counter has advanced by the number of traps when the
    call returns, while the counter of spawn points is never touched. Each
    trap is a spike, fire, arrow or poison trap with damage [10 + 5 level],
    not triggered, at height 0; the ids of a dungeon are pairwise
    different. *)
Theorem generate_dungeon_traps level w d w' :
  generate_dungeon math_cos math_sin level w = (Ok d, w') →
  (∀ i t, Dungeon.traps d !! i = Some t →
     trap_ok level (Engine.trap_id_counter (self w)) i t)
  ∧ self w' = Engine.mk (Engine.trap_id_counter (self w)
                         + Z.of_nat (length (Dungeon.traps d)))
                (Engine.spawn_point_id_counter (self w))
  ∧ NoDup (Trap.id <$> Dungeon.traps d).
Proof.
  intros H.
  apply generate_dungeon_Ok in H as (new & n & groups & _ & _ & _ & _ & Hw & _ & Hok & _).
  split; [done|]. split; [done|].
  apply NoDup_alt. intros i j x. rewrite !list_lookup_fmap.
  destruct (Dungeon.traps d !! i) as [ti|] eqn:Hi; [|done].
  destruct (Dungeon.traps d !! j) as [tj|] eqn:Hj; [|done].
  apply Hok in Hi as [Hi _]. apply Hok in Hj as [Hj _]. cbn.
  intros [= <-] [= Hij]. rewrite Hi, Hj in Hij. apply trap_id_inj in Hij. lia.
Qed.

(** X12. Trap ids stay unique over the life of an engine: the traps of two
    dungeons generated one after the other by the same engine have pairwise
    different ids. *)
Theorem generate_dungeon_twice level1 level2 w d1 w1 d2 w2 :
  generate_dungeon math_cos math_sin level1 w = (Ok d1, w1) →
  generate_dungeon math_cos math_sin level2 w1 = (Ok d2, w2) →
  NoDup (Trap.id <$> (Dungeon.traps d1 ++ Dungeon.traps d2)).
Proof.
  intros H1 H2.
  apply generate_dungeon_Ok in H1 as (_ & _ & _ & _ & _ & _ & _ & Hw1 & _ & Hok1 & _).
  apply generate_dungeon_Ok in H2 as (_ & _ & _ & _ & _ & _ & _ & _ & _ & Hok2 & _).
  rewrite Hw1 in Hok2. cbn [Engine.trap_id_counter] in Hok2.
  set (c := Engine.trap_id_counter (self w)) in *.
  assert (Hid : ∀ i t, (Dungeon.traps d1 ++ Dungeon.traps d2) !! i = Some t →
            Trap.id t = "trap_" +:+ pretty (c + 1 + Z.of_nat i)).
  { intros i t Hi. apply lookup_app_Some in Hi as [Hi|[Hge Hi]].
    - by apply Hok1 in Hi as [Hi _].
    - apply Hok2 in Hi as [Hi _]. rewrite Hi. do 2 f_equal. lia. }
  apply NoDup_alt. intros i j x. rewrite !list_lookup_fmap.
  destruct ((Dungeon.traps d1 ++ Dungeon.traps d2) !! i) as [ti|] eqn:Hi; [|done].
  destruct ((Dungeon.traps d1 ++ Dungeon.traps d2) !! j) as [tj|] eqn:Hj; [|done].
  apply Hid in Hi. apply Hid in Hj. cbn.
  intros [= <-] [= Hij]. rewrite Hi, Hj in Hij. apply trap_id_inj in Hij. lia.
Qed.

(** ** Spawn points *)

Lemma spawn_groups_bounds num_rooms k new groups :
  (∀ j r, new !! j = Some r → room_type_ok num_rooms (k + j) (Room.type r)) →
  Forall2 spawn_group_ok new groups →
  Z.of_nat (k + length new) = num_rooms → (1 ≤ length new)%nat →
  (2 * (length new - 1) + 1 ≤ length (concat groups) ≤ 4 * (length new - 1) + 1)%nat.
Proof.
  intros Htypes Hgroups. revert k Htypes.
  induction Hgroups as [|room group new groups Hgroup Hgroups IH]; intros k Htypes Hk Hlen.
  - cbn in Hlen. lia.
  - pose proof (Htypes 0%nat room eq_refl) as Hroom. unfold room_type_ok in Hroom.
    cbn [concat length]. rewrite length_app.
    destruct new as [|next new].
    + apply Forall2_nil_inv_l in Hgroups as ->. cbn [concat length] in *.
      rewrite decide_True in Hroom by lia.
      unfold spawn_group_ok in Hgroup. rewrite Hroom in Hgroup.
      rewrite decide_False, decide_True in Hgroup by done. lia.
    + rewrite decide_False in Hroom by (cbn [length] in Hk; lia).
      unfold spawn_group_ok in Hgroup.
      rewrite decide_False, decide_False in Hgroup by by destruct Hroom as [-> | ->].
      specialize (IH (S k)). cbn [length] in *.
      destruct IH as [Hlo Hhi]; [|lia|lia|lia].
      intros j r Hj. replace (S k + j)%nat with (k + S j)%nat by lia. by apply Htypes.
Qed.

(** X13. The spawn points of a dungeon come room by room, in the order of
    the rooms: none for the spawn room, one for the boss room, which spawns
    a demon every 60000 ms, and two to four for every other room, which
    spawn zombies, skeletons or orcs every 30000 ms; all lie at height 0 and
    have never spawned. A dungeon of level 1 or more with [n] rooms has
    therefore between [2 n - 3] and [4 n - 7] spawn points. *)
Theorem generate_dungeon_spawn_points level w d w' :
  generate_dungeon math_cos math_sin level w = (Ok d, w') →
  ∃ groups,
    Dungeon.spawnPoints d = concat groups
    ∧ Forall2 spawn_group_ok (Dungeon.rooms d) groups
    ∧ (1 ≤ level →
       (2 * length (Dungeon.rooms d) - 3 ≤ length (Dungeon.spawnPoints d)
        ≤ 4 * length (Dungeon.rooms d) - 7)%nat).
Proof.
  intros H.
  apply generate_dungeon_Ok in H
    as (new & n & groups & _ & Hlen & Htypes & -> & _ & _ & _ & Hgroups).
  exists groups. cbn [Dungeon.spawnPoints Dungeon.rooms]. split; [done|]. split; [done|].
  intros Hlevel.
  assert (Hdiv : 0 ≤ level `div` 2) by (apply Z.div_pos; lia).
  apply Forall2_cons_inv_l in Hgroups as (group & groups' & Hgroup & Hgroups & ->).
  unfold spawn_group_ok in Hgroup. rewrite decide_True in Hgroup by done. subst group.
  cbn [concat app length].
  pose proof (spawn_groups_bounds _ 1 new groups' Htypes Hgroups) as Hb.
  destruct Hb as [Hlo Hhi]; lia.
Qed.

(** ** Levels below 1 *)

Lemma int_of_nonpositive_times level x y n :
  level ≤ 0 → (∃ m e, x = S754_finite false m e) →
  int_mul_float level x = Ok y → int_of_float y = Ok n → n ≤ 0.
Proof.
  intros Hlevel (m & e & ->). unfold int_mul_float, float_of_int.
  destruct level as [|p|p]; try lia.
  - cbn. intros [= <-] [= <-]. done.
  - unfold Z2F, binary_normalize, binary_round.
    destruct (shl_align _ _ _) as [mz ez].
    destruct (binary_round_aux 53 1024 true (Z.pos mz) ez loc_Exact)
      as [s|s| |s m' e'] eqn:Hf; cbn [is_finite]; try done.
    + intros [= <-]. cbn. by intros [= <-].
    + apply binary_round_aux_sign in Hf as ->. intros [= <-]. cbn [fmul SFmul xorb].
      destruct (binary_round_aux _ _ _ _ _ _) as [s|s| |s m2 e2] eqn:Hm; cbn; try done.
      * by intros [= <-].
      * apply binary_round_aux_sign in Hm as ->. intros [= <-]. cbn.
        pose proof (Z.shiftl_nonneg (Z.pos m2) e2). lia.
Qed.

(** X14. Levels below 1 are not refused. A dungeon of level 0 or less has no
    traps, and the engine's counter stays where it was; a dungeon of level
    -4 or less consists of the spawn room alone, with its four walls and
    without corridors, spawn points or boss room. *)
Theorem generate_dungeon_low_level level w d w' :
  generate_dungeon math_cos math_sin level w = (Ok d, w') →
  (level ≤ 0 → Dungeon.traps d = [] ∧ self w' = self w)
  ∧ (level ≤ -4 →
     Dungeon.rooms d = [the_spawn_room] ∧ Dungeon.corridors d = []
     ∧ Dungeon.spawnPoints d = [] ∧ Dungeon.walls d = _generate_room_walls the_spawn_room
     ∧ Dungeon.metadata d = Metadata.mk 1 0 0).
Proof.
  intros H.
  apply generate_dungeon_Ok in H
    as (new & n & groups & Hn & Hlen & _ & Hd & Hw & Htl & _ & Hgroups).
  assert (Htraps : level ≤ 0 → Dungeon.traps d = []).
  { intros Hlevel. apply length_zero_iff_nil. rewrite Htl.
    destruct (int_mul_float level (lit 15 10)) as [x|] eqn:Hx; [|done].
    cbn [mbind result_bind] in Hn.
    pose proof (int_of_nonpositive_times level (lit 15 10) x n Hlevel
                  ltac:(by eexists _, _) Hx Hn). lia. }
  split.
  - intros Hlevel. split; [by apply Htraps|].
    rewrite Hw, (Htraps Hlevel). cbn. rewrite Z.add_0_r. by destruct (self w).
  - intros Hlevel.
    assert (new = []) as ->.
    { apply length_zero_iff_nil. rewrite Hlen.
      pose proof (Z.div_le_upper_bound level 2 (-2) ltac:(lia) ltac:(lia)). lia. }
    apply Forall2_cons_inv_l in Hgroups as (group & groups' & Hgroup & Hgroups & ->).
    apply Forall2_nil_inv_l in Hgroups as ->.
    unfold spawn_group_ok in Hgroup. rewrite decide_True in Hgroup by done. subst group.
    rewrite Hd. cbn. rewrite (Htraps ltac:(lia)). done.
Qed.

(** ** Validation *)

Lemma generate_dungeon_acceptable level w d w' :
  generate_dungeon math_cos math_sin level w = (Ok d, w') → acceptable (dungeon_dict d).
Proof.
  intros H.
  apply generate_dungeon_Ok in H as (new & n & groups & _ & _ & _ & Hd & _).
  apply (dungeon_dict_acceptable d new); by rewrite Hd.
Qed.

(** X15. Whatever the level and the state of the engine, the dictionary of
    a dungeon that [generate_dungeon] returns passes [validate_dungeon]. *)
Theorem generated_dungeon_valid level w d w' :
  generate_dungeon math_cos math_sin level w = (Ok d, w') →
  validate_dungeon (dungeon_dict d) = Ok true.
Proof.
  intros H. apply validate_dungeon_acceptable. by eapply generate_dungeon_acceptable.
Qed.
End DungeonParts.

Lemma generate_dungeon_corridors_witness :
  Dungeon.corridors sample_dungeon = corridor_ring (Dungeon.rooms sample_dungeon).
Proof.
  refine (proj1 (generate_dungeon_corridors (λ x, x) (λ x, x) 5 sample_world
                   sample_dungeon sample_dungeon_run.2 _)).
  vm_compute. reflexivity.
Defined.

Lemma generate_dungeon_traps_witness : NoDup (Trap.id <$> Dungeon.traps sample_dungeon).
Proof.
  refine (proj2 (proj2 (generate_dungeon_traps (λ x, x) (λ x, x) 5 sample_world
                          sample_dungeon sample_dungeon_run.2 _))).
  vm_compute. reflexivity.
Defined.

Lemma generate_dungeon_twice_witness :
  NoDup (Trap.id <$> (Dungeon.traps sample_dungeon ++ Dungeon.traps second_dungeon)).
Proof.
  refine (generate_dungeon_twice (λ x, x) (λ x, x) 5 3 sample_world
            sample_dungeon sample_dungeon_run.2 second_dungeon
            (generate_dungeon (λ x, x) (λ x, x) 3 sample_dungeon_run.2).2 _ _);
    vm_compute; reflexivity.
Defined.

Example generate_dungeon_twice_ids :
  Trap.id <$> (Dungeon.traps sample_dungeon ++ Dungeon.traps second_dungeon)
  = ["trap_1"; "trap_2"; "trap_3"; "trap_4"; "trap_5"; "trap_6"; "trap_7";
     "trap_8"; "trap_9"; "trap_10"; "trap_11"].
Proof. vm_compute. reflexivity. Qed.

Lemma generate_dungeon_spawn_points_witness :
  (2 * length (Dungeon.rooms sample_dungeon) - 3
   ≤ length (Dungeon.spawnPoints sample_dungeon)
   ≤ 4 * length (Dungeon.rooms sample_dungeon) - 7)%nat.
Proof.
  destruct (generate_dungeon_spawn_points (λ x, x) (λ x, x) 5 sample_world
              sample_dungeon sample_dungeon_run.2 ltac:(vm_compute; reflexivity))
    as (groups & _ & _ & Hbounds).
  apply Hbounds. lia.
Defined.

Lemma generate_dungeon_low_level_witness :
  Dungeon.rooms bare_dungeon = [the_spawn_room] ∧ Dungeon.traps bare_dungeon = [].
Proof.
  destruct (generate_dungeon_low_level (λ x, x) (λ x, x) (-4) sample_world bare_dungeon
              (generate_dungeon (λ x, x) (λ x, x) (-4) sample_world).2
              ltac:(vm_compute; reflexivity)) as [Htraps Hbare].
  split; [apply Hbare; lia|apply Htraps; lia].
Defined.

Lemma generated_dungeon_valid_witness :
  validate_dungeon (dungeon_dict sample_dungeon) = Ok true.
Proof.
  refine (generated_dungeon_valid (λ x, x) (λ x, x) 5 sample_world sample_dungeon
            sample_dungeon_run.2 _).
  vm_compute. reflexivity.
Defined.

(** ** [generate_dungeon_json] *)

(** X16. The document that [generate_dungeon_json] produces is the
    dictionary of a dungeon whose traps are numbered from [trap_1], since
    every call works with an engine of its own, and it passes
    [validate_dungeon]. *)
Theorem generate_dungeon_json_valid seeded math_cos math_sin level seed g doc g' :
  generate_dungeon_json seeded math_cos math_sin level seed g = (Ok doc, g') →
  validate_dungeon doc = Ok true
  ∧ ∃ d, doc = dungeon_dict d
         ∧ ∀ i t, Dungeon.traps d !! i = Some t →
             Trap.id t = "trap_" +:+ pretty (1 + Z.of_nat i).
Proof.
  unfold generate_dungeon_json. intros H. step H. clear Hstep.
  unfold generate_with_new_engine in H.
  destruct (generate_dungeon math_cos math_sin level (DungeonWorld.mk Engine.init s))
    as [[d|e] w] eqn:Hd; [|done].
  injection H as <- _. split.
  - apply validate_dungeon_acceptable. by eapply generate_dungeon_acceptable.
  - exists d. split; [done|]. intros i t Hi.
    apply generate_dungeon_Ok in Hd as (_ & _ & _ & _ & _ & _ & _ & _ & _ & Hok & _).
    by apply Hok in Hi as [Hi _].
Qed.

Lemma generate_dungeon_json_valid_witness :
  validate_dungeon (dungeon_dict seeded_dungeon) = Ok true.
Proof.
  refine (proj1 (generate_dungeon_json_valid sample_seeded (λ x, x) (λ x, x) 5 (Some 42)
                   sample_rng (dungeon_dict seeded_dungeon)
                   (DungeonWorld.random seeded_dungeon_run.2) _)).
  assert (Hrun : seeded_dungeon_run = (Ok seeded_dungeon, seeded_dungeon_run.2))
    by (vm_compute; reflexivity).
  unfold generate_dungeon_json, generate_with_new_engine, seed_random, modify.
  unfold mbind, M_bind. fold seeded_dungeon_run. rewrite Hrun. reflexivity.
Defined.

(** * Further properties of validate_dungeon *)

Lemma check_required_keys_first dungeon before key after :
  (∀ k, k ∈ before → is_Some (dungeon !! k)) → dungeon !! key = None →
  check_required_keys dungeon (before ++ key :: after)
  = Raise (ValueError ("Missing required key: " +:+ key)).
Proof.
  intros Hbefore Hkey. induction before as [|k before IH]; cbn [app check_required_keys].
  - by rewrite decide_True.
  - rewrite decide_False.
    + apply IH. intros k' Hk'. apply Hbefore. by apply list_elem_of_further.
    + apply not_eq_None_Some, Hbefore, list_elem_of_here.
Qed.

(** X17. A dungeon that lacks required keys is rejected with a [ValueError]
    that names the first missing key in the order rooms, corridors, traps,
    spawnPoints, walls, level, metadata, whatever else is wrong with it. *)
Theorem validate_dungeon_missing_key_first dungeon before key after :
  required_keys = before ++ key :: after →
  (∀ k, k ∈ before → is_Some (dungeon !! k)) → dungeon !! key = None →
  validate_dungeon dungeon = Raise (ValueError ("Missing required key: " +:+ key)).
Proof.
  intros Hkeys Hbefore Hkey. unfold validate_dungeon.
  rewrite Hkeys, (check_required_keys_first _ _ _ _ Hbefore Hkey). done.
Qed.

Lemma validate_dungeon_missing_key_first_witness :
  validate_dungeon (delete "traps" (delete "level" two_spawn_dungeon))
  = Raise (ValueError "Missing required key: traps").
Proof.
  apply (validate_dungeon_missing_key_first _ ["rooms"; "corridors"] "traps"
           ["spawnPoints"; "walls"; "level"; "metadata"]); [reflexivity| |reflexivity].
  intros k Hk. rewrite !elem_of_cons, elem_of_nil in Hk.
  destruct Hk as [->|[->|[]]]; vm_compute; eauto.
Defined.

Lemma spawn_rooms_of_raise good room rest e :
  (∀ r, r ∈ good → ∃ t, getitem r "type" = Ok t) →
  getitem room "type" = Raise e →
  spawn_rooms_of (good ++ room :: rest) = Raise e.
Proof.
  intros Hgood Hroom. induction good as [|r good IH]; cbn [app spawn_rooms_of].
  - by rewrite Hroom.
  - destruct (Hgood r (list_elem_of_here _ _)) as [t ->]. cbn [mbind result_bind].
    rewrite IH; [done|]. intros r' Hr'. apply Hgood. by apply list_elem_of_further.
Qed.

(** X18. Not every rejection is a [ValueError]. When all seven keys are
    there and the rooms are a list in which some room cannot give its type
    (it has no key ['type'], or it is no dictionary), while every room
    before it can, [validate_dungeon] raises what the lookup raises: a
    [KeyError] for a room without the key. *)
Theorem validate_dungeon_room_without_type dungeon good room rest e :
  (∀ k, k ∈ required_keys → is_Some (dungeon !! k)) →
  dungeon !! "rooms" = Some (PList (good ++ room :: rest)) →
  (∀ r, r ∈ good → ∃ t, getitem r "type" = Ok t) →
  getitem room "type" = Raise e →
  validate_dungeon dungeon = Raise e
  ∧ (∀ fields, room = PDict fields → e = KeyError "type").
Proof.
  intros Hkeys Hrooms Hgood Hroom. split.
  - unfold validate_dungeon.
    rewrite (proj2 (check_required_keys_Ok _ _) Hkeys). cbn [mbind result_bind].
    rewrite (proj2 (getitem_dict_Ok _ _ _) Hrooms). cbn [mbind result_bind].
    rewrite decide_False by (rewrite length_app; cbn; lia).
    by rewrite (spawn_rooms_of_raise _ _ _ _ Hgood Hroom).
  - intros fields ->. cbn in Hroom. destruct (fields !! "type"); by simplify_eq.
Qed.

Lemma validate_dungeon_room_without_type_witness :
  validate_dungeon untyped_room_dungeon = Raise (KeyError "type").
Proof.
  apply (validate_dungeon_room_without_type untyped_room_dungeon
           [PDict {[ "type" := PStr "spawn" ]}] (PDict ∅) []).
  - intros k Hk. unfold required_keys in Hk. rewrite !elem_of_cons, elem_of_nil in Hk.
    destruct Hk as [->|[->|[->|[->|[->|[->|[->|[]]]]]]]]; vm_compute; eauto.
  - reflexivity.
  - intros r Hr. apply list_elem_of_singleton in Hr as ->. by eexists.
  - reflexivity.
Defined.

(** * The damage formula, written out *)

Lemma int_mul_float_value z k c :
  Z.abs z < 2 ^ k → 0 ≤ k ≤ 1023 → int_mul_float z c = Ok (fmul (Z2F z) c).
Proof.
  intros Hz Hk. unfold int_mul_float.
  by destruct (float_of_int_below z k Hz Hk) as [-> _].
Qed.

(** Below 2^1000 no conversion overflows, and the formula of
    [spec_damage] is the floor, the doubling and the truncation of
    [damage_before_floor]. *)
Lemma spec_damage_written_out b dt a d :
  within 1000 b → stats_within 1000 a → stats_within 1000 d →
  below_pow2 1006 (damage_before_floor b dt a d)
  ∧ ∀ c, spec_damage b dt a d c
         = int_of_number (if c : bool
                          then number_double (max_1 (damage_before_floor b dt a d))
                          else max_1 (damage_before_floor b dt a d)).
Proof.
  intros Hb (Hstr & Hint & _) (_ & _ & Hvit).
  assert (H05 : below_pow2 0 (lit 5 10)) by (apply lit_below_1; in_list).
  assert (H07 : below_pow2 0 (lit 7 10)) by (apply lit_below_1; in_list).
  assert (H03 : below_pow2 0 (lit 3 10)) by (apply lit_below_1; in_list).
  pose proof (Z2F_below b 1000 Hb ltac:(lia)) as Hbase.
  pose proof (fmul_below 1001 0 _ _ (Z2F_below _ 1000 Hstr ltac:(lia)) H05
                ltac:(lia) ltac:(lia)) as Hxs.
  pose proof (fmul_below 1001 0 _ _ (Z2F_below _ 1000 Hint ltac:(lia)) H07
                ltac:(lia) ltac:(lia)) as Hxi.
  pose proof (fmul_below 1001 0 _ _ (Z2F_below _ 1000 Hvit ltac:(lia)) H03
                ltac:(lia) ltac:(lia)) as Hxv.
  split.
  - unfold damage_before_floor.
    apply (fsub_below 1004 1002 1005); [|done|lia|lia|lia].
    destruct dt;
      first [ by apply (fadd_below 1001 1002 1003); [done|done|lia|lia|lia]
            | by eapply below_pow2_mono; [exact Hbase|lia] ].
  - intros c. unfold spec_damage.
    destruct (float_of_int_below b 1000 Hb ltac:(lia)) as [-> _].
    cbn [mbind result_bind].
    rewrite (int_mul_float_value _ 1000 (lit 3 10) Hvit) by lia.
    destruct dt;
      rewrite ?(int_mul_float_value _ 1000 (lit 5 10) Hstr),
              ?(int_mul_float_value _ 1000 (lit 7 10) Hint) by lia;
      reflexivity.
Qed.

(** For a binary64 number in canonical form, Python's exact comparison with
    the int 1 is the comparison with the float 1.0. *)
Lemma float_gt_int_1_ltb k x :
  below_pow2 k x → float_gt_int x 1 = SFltb (binary64 1) x.
Proof.
  change (binary64 1) with (S754_finite false 4503599627370496 (-52)).
  destruct x as [s|s| |s m e]; [by destruct s|done|done|].
  - intros [Hcanon _]. rewrite fexp_eq in Hcanon.
    pose proof (digits_bounds m) as Hd. set (dm := Z.pos (digits2_pos m)) in *.
    assert (Hd1 : 1 ≤ dm) by (unfold dm; lia).
    unfold SFltb, SFcompare. destruct s.
    + (* a negative number is not above 1 *)
      cbn [float_gt_int cond_Zopp]. destruct (decide (0 ≤ e)).
      * apply bool_decide_eq_false.
        assert (0 < 2 ^ e) by (apply Z.pow_pos_nonneg; lia). nia.
      * apply bool_decide_eq_false.
        assert (0 < 2 ^ (- e)) by (apply Z.pow_pos_nonneg; lia). lia.
    + cbn [float_gt_int cond_Zopp].
      destruct (Z.compare_spec (-52) e) as [He|He|He].
      * (* the exponent of 1.0: the mantissas decide *)
        subst e. rewrite decide_False by lia.
        change (1 * 2 ^ (- -52)) with 4503599627370496.
        rewrite Pos.compare_cont_spec. cbn [Pos.switch_Eq].
        change (4503599627370496 ?= m)%positive with (4503599627370496 ?= Z.pos m).
        destruct (Z.compare_spec 4503599627370496 (Z.pos m)) as [Hm|Hm|Hm].
        -- apply bool_decide_eq_false. rewrite <- Hm. apply Z.lt_irrefl.
        -- by apply bool_decide_eq_true.
        -- apply bool_decide_eq_false. by apply Z.lt_asymm.
      * (* a larger exponent: the number is 2 at least *)
        assert (dm = 53) by lia.
        assert (2 ^ 52 ≤ Z.pos m) by (replace 52 with (dm - 1) by lia; apply Hd).
        destruct (decide (0 ≤ e)); apply bool_decide_eq_true.
        -- assert (1 ≤ 2 ^ e) by (apply (Z.pow_le_mono_r 2 0 e); lia). nia.
        -- assert (2 ^ (- e) ≤ 2 ^ 51) by (apply Z.pow_le_mono_r; lia). lia.
      * (* a smaller exponent: the number is below 1 *)
        rewrite decide_False by lia. apply bool_decide_eq_false.
        assert (dm ≤ 53) by lia.
        assert (2 ^ dm ≤ 2 ^ (- e)) by (apply Z.pow_le_mono_r; lia). lia.
Qed.

Lemma spec_damage_in_words b dt a d c :
  within 1000 b → stats_within 1000 a → stats_within 1000 d →
  spec_damage b dt a d c = Ok (damage_in_words b dt a d c).
Proof.
  intros Hb Ha Hd.
  destruct (spec_damage_written_out b dt a d Hb Ha Hd) as [Hx ->].
  unfold damage_in_words. rewrite <- (float_gt_int_1_ltb _ _ Hx). unfold max_1.
  destruct (float_gt_int _ 1) eqn:Hgt.
  - destruct (double_above_1 _ (below_pow2_mono 1006 1022 _ Hx ltac:(lia)) Hgt)
      as (m & e & Hshape & Hdouble).
    rewrite Hshape in *. destruct c; cbn [number_double int_of_number]; [|done].
    change (SFmul 53 1024 ?x (binary64 2)) with (fmul x (Z2F 2)).
    by rewrite Hdouble.
  - by destruct c.
Qed.

(** C2. [calculate_damage] returns on every input whose base damage and
    stats are below 2^1000 in absolute value, and its damage is the damage of
    the formula written out in binary64: the base damage plus
    [strength * 0.5] (physical), plus [intelligence * 0.7] (fire, ice,
    lightning, arcane) or plus nothing (poison), minus [vitality * 0.3] of
    the defender, floored at 1, doubled after that floor on a critical hit,
    and cut to an integer. Whatever the inputs, a call that returns has
    rolled a critical hit exactly when the roll is below [crit_chance], keeps
    the damage type, and returns a damage of at least 1. *)
Theorem calculate_damage_formula b dt a d crit g :
  (within 1000 b → stats_within 1000 a → stats_within 1000 d →
   ∃ r g', CombatSystem.calculate_damage b dt a d crit g = (Ok r, g')
           ∧ DamageResult.damage r
             = damage_in_words b dt a d (DamageResult.is_critical r))
  ∧ ∀ r g', CombatSystem.calculate_damage b dt a d crit g = (Ok r, g') →
      DamageResult.is_critical r = flt (next_random g) crit
      ∧ DamageResult.damage_type r = dt
      ∧ spec_damage b dt a d (DamageResult.is_critical r) = Ok (DamageResult.damage r)
      ∧ 1 ≤ DamageResult.damage r.
Proof.
  assert (Hformula : ∀ r g', CombatSystem.calculate_damage b dt a d crit g = (Ok r, g') →
      DamageResult.is_critical r = flt (next_random g) crit
      ∧ DamageResult.damage_type r = dt
      ∧ spec_damage b dt a d (DamageResult.is_critical r) = Ok (DamageResult.damage r)
      ∧ 1 ≤ DamageResult.damage r).
  { intros r g' Hrun. pose proof (calculate_damage_spec b dt a d crit g) as Hspec.
    destruct (spec_damage b dt a d (flt (next_random g) crit)) as [z|e] eqn:Hz.
    - destruct Hspec as (r0 & g0 & Hrun0 & Hdmg & Hcrit & Hdt).
      rewrite Hrun in Hrun0. injection Hrun0 as <- <-.
      rewrite Hcrit, Hdmg. split; [done|]. split; [done|]. split; [done|].
      by eapply spec_damage_at_least_one.
    - destruct Hspec as [g0 Hrun0]. by rewrite Hrun in Hrun0. }
  split; [|done].
  intros Hb Ha Hd.
  destruct (calculate_damage_total b dt a d crit g Hb Ha Hd) as (r & Hr & _).
  exists r, (CombatSystem.calculate_damage b dt a d crit g).2. split; [done|].
  destruct (Hformula r _ Hr) as (_ & _ & Hspec & _).
  rewrite (spec_damage_in_words b dt a d _ Hb Ha Hd) in Hspec. by injection Hspec.
Qed.

Lemma calculate_damage_formula_witness :
  let attacker := Stats.mk 11 10 10 10 in
  let defender := Stats.mk 10 7 6 12 in
  ∃ r g', CombatSystem.calculate_damage 25 DamageType.PHYSICAL attacker defender
            CombatSystem.default_crit_chance lucky_rng = (Ok r, g')
          ∧ DamageResult.damage r
            = damage_in_words 25 DamageType.PHYSICAL attacker defender
                (DamageResult.is_critical r).
Proof.
  intros attacker defender.
  apply (calculate_damage_formula 25 DamageType.PHYSICAL attacker defender
           CombatSystem.default_crit_chance lucky_rng);
    vm_compute; repeat split; reflexivity.
Defined.

(** 25 + 11 * 0.5 - 12 * 0.3 is 26.9: the formula gives 26 for an ordinary
    hit and 53 for a critical one, and so does the code. *)
Example damage_in_words_sample :
  let attacker := Stats.mk 11 10 10 10 in
  let defender := Stats.mk 10 7 6 12 in
  damage_in_words 25 DamageType.PHYSICAL attacker defender false = 26
  ∧ damage_in_words 25 DamageType.PHYSICAL attacker defender true = 53
  ∧ (CombatSystem.calculate_damage 25 DamageType.PHYSICAL attacker defender
       CombatSystem.default_crit_chance lucky_rng).1
    = Ok (DamageResult.mk 53 DamageType.PHYSICAL true None)
  ∧ damage_in_words 3 DamageType.POISON attacker defender true = 2.
Proof. by vm_compute. Qed.

(** * The stages of a dungeon run *)

Lemma random_choice_lookup {A} (seq : list A) g a g' :
  random_choice seq g = (Ok a, g') →
  seq !! Z.to_nat (g 0%nat `mod` Z.of_nat (length seq)) = Some a ∧ g' = advance g.
Proof.
  unfold random_choice.
  destruct (seq !! _) as [b|] eqn:Hb; [|done]. case_decide; [done|].
  by intros [= <- <-].
Qed.

Section RunStages.
Import GameSimulator.

(** Every fight of the loop starts from the state in which the loop, ended
    before that fight, would have returned; a fight lost returns the loot,
    the player and the count of that state. *)
Lemma for_loop_stages num_enemies dungeon_level indices l w r w' :
  for_loop num_enemies dungeon_level indices l w = (Ok r, w') →
  ∃ new,
    battles w' = battles w ++ new
    ∧ ∀ j e c, new !! j = Some (e, c) →
        ∃ i r_j w_j,
          indices !! j = Some i
          ∧ for_loop num_enemies dungeon_level (take j indices) l w = (Ok r_j, w_j)
          ∧ RunResult.success r_j = true
          ∧ battles w_j = battles w ++ take j new
          ∧ (if bool_decide (i = num_enemies - 1) && bool_decide (dungeon_level >= 5)
             then Enemy.type e = "demon"
             else ["zombie"; "skeleton"; "orc"] !! Z.to_nat (random w_j 0%nat `mod` 3)
                  = Some (Enemy.type e))
          ∧ (CombatResult.victory c = false →
             r = RunResult.Failure ("Defeated by " +:+ Enemy.type e)
                   (RunResult.enemiesDefeated r_j) (RunResult.lootCollected r_j)
                   (RunResult.finalStats r_j)).
Proof.
  revert l w. induction indices as [|i indices IH]; intros l w H.
  - apply mret_Ok in H as [-> ->]. exists []. split; [by rewrite app_nil_r|].
    intros j e c Hj. by rewrite lookup_nil in Hj.
  - pose proof H as Hrun. cbn [for_loop] in H. steps H. destruct a1 as [[c p0] e0].
    pose proof Hstep1 as Hfight.
    apply call_simulate_combat_Ok in Hfight as (Hb1 & -> & ->).
    pose proof Hstep0 as Hcreate.
    apply with_random_Ok in Hcreate as (g0 & Hcreate & ->). cbn in Hb1.
    assert (Hbs : battles s = battles w).
    { clear -Hstep. destruct (_ && _) in Hstep.
      - by apply mret_Ok in Hstep as [_ ->].
      - by apply with_random_battles in Hstep. }
    rewrite Hbs in Hb1.
    assert (Htype :
      if bool_decide (i = num_enemies - 1) && bool_decide (dungeon_level >= 5)
      then Enemy.type a0 = "demon"
      else ["zombie"; "skeleton"; "orc"] !! Z.to_nat (random w 0%nat `mod` 3)
           = Some (Enemy.type a0)).
    { apply create_enemy_type in Hcreate.
      destruct (_ && _) in Hstep |- *.
      - apply mret_Ok in Hstep as [-> _]. by rewrite decide_False in Hcreate.
      - apply with_random_Ok in Hstep as (g1 & Hc & _).
        pose proof Hc as Hin. apply random_choice_Ok in Hin as [Hin _].
        apply random_choice_lookup in Hc as [Hc _].
        rewrite decide_False in Hcreate by by apply basic_enemy_known.
        by rewrite Hcreate. }
    (* the state in which the loop, ended here, returns *)
    assert (Hstage : ∀ c0,
      ∃ i0 r_j w_j,
        (i :: indices) !! 0%nat = Some i0
        ∧ for_loop num_enemies dungeon_level (take 0 (i :: indices)) l w = (Ok r_j, w_j)
        ∧ RunResult.success r_j = true
        ∧ battles w_j = battles w ++ take 0 ((a0, c0) :: [])
        ∧ (if bool_decide (i0 = num_enemies - 1) && bool_decide (dungeon_level >= 5)
           then Enemy.type a0 = "demon"
           else ["zombie"; "skeleton"; "orc"] !! Z.to_nat (random w_j 0%nat `mod` 3)
                = Some (Enemy.type a0))
        ∧ RunResult.Failure ("Defeated by " +:+ Enemy.type a0)
            (Z.of_nat (length (enemies_defeated l))) (loot_collected l) (player l)
          = RunResult.Failure ("Defeated by " +:+ Enemy.type a0)
              (RunResult.enemiesDefeated r_j) (RunResult.lootCollected r_j)
              (RunResult.finalStats r_j)).
    { intros c0. eexists i, _, w. split; [done|]. split; [done|].
      split; [done|]. split; [by rewrite app_nil_r|]. split; done. }
    destruct (CombatResult.victory c) eqn:Hv; cbn [negb] in H.
    + (* victory: the loop goes on from the state [l1], [w1] *)
      assert (∃ l1 w1,
        battles w1 = battles w ++ [(a0, c)]
        ∧ ∀ rest, for_loop num_enemies dungeon_level (i :: rest) l w
                  = for_loop num_enemies dungeon_level rest l1 w1)
        as (l1 & w1 & Hb & Hcont).
      { step H. pose proof Hstep2 as Hroll.
        apply with_random_Ok in Hroll as (g1 & _ & ->).
        destruct (flt a1 (lit 6 10)) eqn:Hdrop.
        - steps H. pose proof Hstep3 as Hr2. pose proof Hstep4 as Hr3.
          apply with_random_Ok in Hr2 as (g2 & _ & ->).
          apply with_random_Ok in Hr3 as (g3 & _ & ->).
          eexists _, _. split; cycle 1.
          { intros rest. cbn [for_loop].
            rewrite (bind_run _ _ _ _ _ Hstep), (bind_run _ _ _ _ _ Hstep0),
              (bind_run _ _ _ _ _ Hstep1), Hv. cbn [negb].
            rewrite (bind_run _ _ _ _ _ Hstep2), Hdrop.
            by rewrite (bind_run _ _ _ _ _ Hstep3), (bind_run _ _ _ _ _ Hstep4). }
          exact Hb1.
        - eexists _, _. split; cycle 1.
          { intros rest. cbn [for_loop].
            rewrite (bind_run _ _ _ _ _ Hstep), (bind_run _ _ _ _ _ Hstep0),
              (bind_run _ _ _ _ _ Hstep1), Hv. cbn [negb].
            by rewrite (bind_run _ _ _ _ _ Hstep2), Hdrop. }
          exact Hb1. }
      rewrite Hcont in Hrun. apply IH in Hrun as (new & Hnew & Hstages).
      exists ((a0, c) :: new). split; [by rewrite Hnew, Hb, <- app_assoc|].
      intros [|j] e c0 Hj.
      * injection Hj as <- <-.
        destruct (Hstage c) as (i0 & r_j & w_j & Hi & Hloop & Hs & Hbj & Ht & _).
        exists i0, r_j, w_j. repeat (split; [done|]). by rewrite Hv.
      * cbn in Hj. destruct (Hstages j e c0 Hj)
          as (i0 & r_j & w_j & Hi & Hloop & Hs & Hbj & Ht & Hlost).
        exists i0, r_j, w_j. split; [done|]. split; [by cbn [take]; rewrite Hcont|].
        split; [done|]. split; [|done].
        by rewrite Hbj, Hb, <- app_assoc.
    + (* defeat: the run returns at once *)
      apply mret_Ok in H as [-> ->]. exists [(a0, c)]. split; [done|].
      intros [|j] e c0 Hj; [|by destruct j].
      injection Hj as <- <-.
      destruct (Hstage c) as (i0 & r_j & w_j & Hi & Hloop & Hs & Hbj & Ht & Hlost).
      exists i0, r_j, w_j. by repeat (split; [done|]).
Qed.
End RunStages.

Lemma range_lookup n j i : range n !! j = Some i → i = Z.of_nat j ∧ (j < Z.to_nat n)%nat.
Proof.
  unfold range. rewrite list_lookup_fmap. intros H.
  destruct (seq 0 (Z.to_nat n) !! j) as [k|] eqn:Hk; [|done].
  apply lookup_seq in Hk as [-> Hlt]. injection H as <-. split; [done|lia].
Qed.

Lemma range_take n j :
  (j ≤ Z.to_nat n)%nat → take j (range n) = Z.of_nat <$> seq 0 j.
Proof.
  intros Hj. unfold range. rewrite <- fmap_take, take_seq. do 2 f_equal. lia.
Qed.

(** C6. [simulate_dungeon_run] returns a result for every player level and
    dungeon level below 2^900 in absolute value, and whenever it returns, it
    has gone through [3 + dungeonLevel] slots in order ([fought] lists the
    fights that took place). The enemy of the last slot is a demon from
    dungeon level 5 on; the enemy of every other slot, the last one below
    level 5 included, is drawn from zombie, skeleton and orc by the next
    number of the generator modulo 3, each of the three having one residue.
    Every fight but the last fought is a victory. A successful run has fought
    all the slots and won them all. A failed run stopped at its first
    defeat, which is its last fight: it returns, with the reason, exactly
    the count of enemies defeated, the loot and the player that the run
    would have returned had the dungeon ended before the lost fight
    ([first_fights]), so that nothing collected is lost or added and no
    further enemy is fought. *)
Theorem simulate_dungeon_run_fights (player_level dungeon_level : Z) (g : rng) :
  (within 900 player_level → within 900 dungeon_level →
   ∃ r w, GameSimulator.simulate_dungeon_run player_level dungeon_level
            (GameSimulator.World g []) = (Ok r, w))
  ∧
  match GameSimulator.simulate_dungeon_run player_level dungeon_level
          (GameSimulator.World g []) with
  | (Ok r, w) =>
      let fought := GameSimulator.battles w in
      let slots := Z.to_nat (3 + dungeon_level) in
      (length fought ≤ slots)%nat
      ∧ (∀ i e c, fought !! i = Some (e, c) →
           if decide (Z.of_nat i = 3 + dungeon_level - 1 ∧ dungeon_level >= 5)
           then Enemy.type e = "demon"
           else Enemy.type e ∈ ["zombie"; "skeleton"; "orc"])
      ∧ (∀ i e c, fought !! i = Some (e, c) → (S i < length fought)%nat →
           CombatResult.victory c = true)
      ∧ RunResult.lootCollected r = Player.inventory (RunResult.finalStats r)
      ∧ (if RunResult.success r then
           length fought = slots
           ∧ (∀ i e c, fought !! i = Some (e, c) → CombatResult.victory c = true)
           ∧ RunResult.enemiesDefeated r = Z.of_nat slots
         else
           ∃ e c, last fought = Some (e, c)
                  ∧ CombatResult.victory c = false
                  ∧ RunResult.enemiesDefeated r = Z.of_nat (length fought) - 1)
      ∧ (∀ i e c, fought !! i = Some (e, c) →
           ∃ r_i w_i,
             first_fights player_level dungeon_level i (GameSimulator.World g [])
             = (Ok r_i, w_i)
             ∧ RunResult.success r_i = true
             ∧ RunResult.enemiesDefeated r_i = Z.of_nat i
             ∧ GameSimulator.battles w_i = take i fought
             ∧ (¬ (Z.of_nat i = 3 + dungeon_level - 1 ∧ dungeon_level >= 5) →
                ["zombie"; "skeleton"; "orc"]
                  !! Z.to_nat (GameSimulator.random w_i 0%nat `mod` 3)
                = Some (Enemy.type e))
             ∧ (CombatResult.victory c = false →
                r = RunResult.Failure ("Defeated by " +:+ Enemy.type e)
                      (RunResult.enemiesDefeated r_i) (RunResult.lootCollected r_i)
                      (RunResult.finalStats r_i)))
  | (Raise _, _) => True
  end.
Proof.
  split; [apply simulate_dungeon_run_total|].
  destruct (GameSimulator.simulate_dungeon_run _ _ _) as [[r|e] w] eqn:H; [|done].
  unfold GameSimulator.simulate_dungeon_run in H.
  assert (Hstart : loop_invariant (3 + dungeon_level) dungeon_level 0
            (GameSimulator.Locals (GameSimulator.create_player "Hero" player_level) [] [])
            (GameSimulator.World g [])) by (split; cbn; done).
  pose proof H as Hstages. apply for_loop_stages in Hstages as (new & Hnew & Hstages).
  cbn [GameSimulator.battles app] in Hnew. subst new.
  unfold range in H. apply (for_loop_outcome _ _ _ 0) in H; [|done].
  destruct H as (Hlen & Htypes & Hwon & Hloot & Hr). cbn zeta.
  split; [done|]. split; [done|]. split; [done|]. split; [done|]. split.
  { destruct r; cbn.
    - destruct Hr as (e & c & ? & ? & _ & ?). eauto.
    - destruct Hr as (? & ? & ? & _). done. }
  intros i e c Hi.
  destruct (Hstages i e c Hi) as (i0 & r_i & w_i & Hrange & Hloop & Hs & Hb & Ht & Hlost).
  apply range_lookup in Hrange as [-> Hlt].
  exists r_i, w_i. split; [done|]. split; [done|]. split; [|split; [done|split; [|done]]].
  - rewrite range_take in Hloop by lia.
    apply (for_loop_outcome _ _ _ 0) in Hloop; [|done].
    destruct Hloop as (_ & _ & _ & _ & Hri). destruct r_i; [done|].
    by destruct Hri as (_ & _ & -> & _).
  - intros Hslot.
    destruct (bool_decide (Z.of_nat i = 3 + dungeon_level - 1)) eqn:E1;
      destruct (bool_decide (dungeon_level >= 5)) eqn:E2; cbn [andb] in Ht; try done.
    apply bool_decide_eq_true in E1, E2. tauto.
Qed.

Lemma simulate_dungeon_run_fights_witness :
  ∃ r w, GameSimulator.simulate_dungeon_run 10 5 (GameSimulator.World sample_rng [])
         = (Ok r, w).
Proof.
  pose proof (simulate_dungeon_run_fights 10 5 sample_rng) as [Htotal _].
  apply Htotal; unfold within; reflexivity.
Defined.

(** A player of level 10 loses to the demon of a dungeon of level 5, with
    seven enemies defeated and six items collected: the failed run returns
    what the first seven fights alone return. *)
Example simulate_dungeon_run_failure_loot :
  match GameSimulator.simulate_dungeon_run 10 5 (GameSimulator.World sample_rng []),
        first_fights 10 5 7 (GameSimulator.World sample_rng []) with
  | (Ok r, _), (Ok r7, _) =>
      r = RunResult.Failure "Defeated by demon" 7 (RunResult.lootCollected r7)
            (RunResult.finalStats r7)
      ∧ RunResult.success r7 = true
      ∧ LootItem.name <$> RunResult.lootCollected r
        = ["Major Health Potion"; "Divine Defense Tonic"; "Sturdy Cloak"; "Dragon Shield";
           "Sturdy Gauntlets"; "Dragon Boots"]
  | _, _ => False
  end.
Proof. by vm_compute. Qed.

(** * The value of an item, written out *)

Ltac lookups :=
  repeat first [ rewrite lookup_insert_eq | rewrite lookup_insert_ne by done
               | rewrite lookup_singleton_eq | rewrite lookup_singleton_ne by done ].

(** The stats that [_generate_stats] makes bear no other names than the
    four of [stat_names], and their sum is the sum of the four. *)
Lemma generate_stats_sum item_type rarity level g stats g' :
  LootSystem._generate_stats item_type rarity level g = (Ok stats, g') →
  (∀ key, is_Some (stats !! key) → key ∈ stat_names)
  ∧ LootSystem.sum_values stats
    = stat_of stats "damage" + stat_of stats "critChance"
      + stat_of stats "defense" + stat_of stats "health".
Proof.
  intros H. apply generate_stats_shape in H. unfold stat_names, stat_of.
  assert (Hkeys : ∀ (k1 k2 : string) (v1 v2 : Z) key,
            k1 ∈ ["damage"; "critChance"; "defense"; "health"] →
            k2 ∈ ["damage"; "critChance"; "defense"; "health"] →
            is_Some ((<[k2 := v2]> ({[ k1 := v1 ]} : gmap string Z)) !! key) →
            key ∈ ["damage"; "critChance"; "defense"; "health"]).
  { intros k1 k2 v1 v2 key H1 H2 [v Hv].
    apply lookup_insert_Some in Hv as [[<- _]|[_ Hv]]; [done|].
    by apply lookup_singleton_Some in Hv as [<- _]. }
  assert (Hkey : ∀ (k1 : string) (v1 : Z) key,
            k1 ∈ ["damage"; "critChance"; "defense"; "health"] →
            is_Some (({[ k1 := v1 ]} : gmap string Z) !! key) →
            key ∈ ["damage"; "critChance"; "defense"; "health"]).
  { intros k1 v1 key H1 [v Hv]. by apply lookup_singleton_Some in Hv as [<- _]. }
  destruct item_type.
  - destruct H as [damage [->|[crit ->]]].
    + split; [intros key; apply Hkey; in_list|].
      rewrite sum_values_singleton. lookups. cbn. lia.
    + split; [intros key; apply Hkeys; in_list|].
      rewrite sum_values_insert, sum_values_singleton by done. lookups. cbn. lia.
  - destruct H as [defense [->|[health ->]]].
    + split; [intros key; apply Hkey; in_list|].
      rewrite sum_values_singleton. lookups. cbn. lia.
    + split; [intros key; apply Hkeys; in_list|].
      rewrite sum_values_insert, sum_values_singleton by done. lookups. cbn. lia.
  - subst stats. split; [|by rewrite sum_values_empty].
    intros key [v Hv]. by rewrite lookup_empty in Hv.
  - subst stats. split; [|by rewrite sum_values_empty].
    intros key [v Hv]. by rewrite lookup_empty in Hv.
Qed.

Lemma sell_value_table rarity :
  RarityValues.sell_value (LootSystem.RARITY_VALUES rarity) = base_sell_value rarity.
Proof. by destruct rarity. Qed.

(** C7. [generate_item] returns an item for every player level below 2^900
    in absolute value. The value of a generated item is the base sell value
    of its rarity (common 10, uncommon 25, rare 50, epic 100, legendary 250)
    plus twice the sum of its stat values: the stats bear no other names than
    damage, critChance, defense and health, and the sum is the sum of these
    four, a stat that the item lacks counting as 0. A potion or a scroll has
    no stats, so its value is the base sell value alone, and it is strictly
    smaller than the value of any potion or scroll generated with a rarity of
    higher rank. *)
Theorem generate_item_value rarity item_type level g :
  (within 900 level →
   ∃ item g', LootSystem.generate_item rarity item_type level g = (Ok item, g'))
  ∧ ∀ item g',
      LootSystem.generate_item rarity item_type level g = (Ok item, g') →
      let stats := LootItem.stats item in
      (∀ key, is_Some (stats !! key) → key ∈ stat_names)
      ∧ LootItem.value item
        = base_sell_value rarity
          + 2 * (stat_of stats "damage" + stat_of stats "critChance"
                 + stat_of stats "defense" + stat_of stats "health")
      ∧ LootItem.value item
        = RarityValues.sell_value (LootSystem.RARITY_VALUES rarity)
          + 2 * LootSystem.sum_values stats
      ∧ RarityValues.sell_value <$> (LootSystem.RARITY_VALUES <$>
          [ItemRarity.COMMON; ItemRarity.UNCOMMON; ItemRarity.RARE; ItemRarity.EPIC;
           ItemRarity.LEGENDARY])
        = [10; 25; 50; 100; 250]
      ∧ (LootItem.type item = ItemType.POTION ∨ LootItem.type item = ItemType.SCROLL →
         stats = ∅
         ∧ LootItem.value item = base_sell_value rarity
         ∧ ∀ rarity2 item_type2 level2 g2 item2 g2',
             LootSystem.generate_item rarity2 item_type2 level2 g2 = (Ok item2, g2') →
             LootItem.type item2 = ItemType.POTION ∨ LootItem.type item2 = ItemType.SCROLL →
             (ItemRarity.rank rarity < ItemRarity.rank rarity2)%nat →
             LootItem.value item < LootItem.value item2).
Proof.
  assert (Hfree : ∀ r t l g0 i g0',
    LootSystem.generate_item r t l g0 = (Ok i, g0') →
    LootItem.type i = ItemType.POTION ∨ LootItem.type i = ItemType.SCROLL →
    LootItem.stats i = ∅
    ∧ LootItem.value i = RarityValues.sell_value (LootSystem.RARITY_VALUES r)).
  { intros r t l g0 i g0' H Ht.
    apply generate_item_Ok in H as (g1 & g2 & Hs & _ & Hv & _).
    apply generate_stats_consumable in Hs; [|done].
    rewrite Hv, Hs. unfold LootSystem._calculate_value. rewrite sum_values_empty.
    split; [done|lia]. }
  split; [apply generate_item_total|].
  intros item g' H stats.
  pose proof H as Hitem.
  apply generate_item_Ok in Hitem as (ga & gb & Hstats & _ & Hvalue & _).
  apply generate_stats_sum in Hstats as [Hnames Hsum]. fold stats in Hnames, Hsum, Hvalue.
  unfold LootSystem._calculate_value in Hvalue.
  split; [done|]. split; [rewrite Hvalue, Hsum, sell_value_table; lia|].
  split; [rewrite Hvalue; lia|]. split; [done|].
  intros Ht. destruct (Hfree _ _ _ _ _ _ H Ht) as [Hs Hv]. split; [done|].
  split; [by rewrite Hv, sell_value_table|].
  intros r2 t2 l2 gc i2 gc' H2 Ht2 Hrank.
  destruct (Hfree _ _ _ _ _ _ H2 Ht2) as [_ Hv2]. rewrite Hv, Hv2.
  by apply sell_value_strictly_increasing.
Qed.

(** A legendary weapon for a player of level 5: damage 100 and no other
    stat, so that its value is [250 + 2 * 100]. *)
Lemma generate_item_value_witness :
  (∃ item g', LootSystem.generate_item ItemRarity.LEGENDARY (Some ItemType.WEAPON) 5
                sample_rng = (Ok item, g'))
  ∧ LootItem.value sample_weapon
    = base_sell_value ItemRarity.LEGENDARY
      + 2 * (stat_of (LootItem.stats sample_weapon) "damage"
             + stat_of (LootItem.stats sample_weapon) "critChance"
             + stat_of (LootItem.stats sample_weapon) "defense"
             + stat_of (LootItem.stats sample_weapon) "health").
Proof.
  pose proof (generate_item_value ItemRarity.LEGENDARY (Some ItemType.WEAPON) 5 sample_rng)
    as [Htotal Hvalue].
  split.
  - apply Htotal. unfold within. reflexivity.
  - refine (proj1 (proj2 (Hvalue sample_weapon
              (LootSystem.generate_item ItemRarity.LEGENDARY (Some ItemType.WEAPON) 5
                 sample_rng).2 _))).
    vm_compute. reflexivity.
Defined.

Example generate_item_value_sample :
  stat_of (LootItem.stats sample_weapon) "damage" = 100
  ∧ stat_of (LootItem.stats sample_weapon) "critChance" = 0
  ∧ LootItem.value sample_weapon = 450.
Proof. by vm_compute. Qed.
